(** * KorMapChartES5: a shallow embedding and its checked properties

    The development follows [src/KorMapChartES5.js].  Every function of the
    source that a property below talks about is transcribed as a Rocq
    function of the same name (the leading underscore of the private
    helpers is dropped: [_clamp01] is [clamp01], and so on).

    Conventions of the embedding.
    - A JavaScript number is an extended rational ([number]): a finite value
      is a rational, and the three special values NaN, +Infinity and
      -Infinity behave as in IEEE 754.  The operations [num_add], [num_mul]
      and the like give the exact result; [double_add], [double_mul] and
      the like round it to binary64 ([binary64]), and are the ones used
      where the rounding decides what is drawn: in the pie glyph and in
      the frame of the paths.  The sign of zero is not modelled.
    - A slot that may hold [undefined], [null] or a number is a [value].
    - A JavaScript object that is iterated with [for ... in] is an
      association list in enumeration order; an object that is only looked
      up by key is a [gmap].
    - The DOM is explicit state: the fields the source reads or writes are
      record fields, and a function that mutates the DOM returns the new
      state. *)

From Stdlib Require Import QArith Qround Qabs Qpower Lqa Lia String Ascii List Bool.
From Stdlib Require Import Sorting.Sorted Sorting.Permutation.
From Stdlib Require DecimalString.
From stdpp Require Import base option list gmap strings.

Open Scope string_scope.
Open Scope list_scope.

(* ===================================================================== *)
(** ** JavaScript numbers and primitive slots *)
(* ===================================================================== *)

Inductive number : Type :=
| NaN
| NegInf
| Fin (q : Q)
| PosInf.

(** [undefined], [null] or a number. *)
Inductive value : Type :=
| VUndefined
| VNull
| VNum (n : number).

Definition num_neg (a : number) : number :=
  match a with
  | NaN => NaN
  | NegInf => PosInf
  | PosInf => NegInf
  | Fin q => Fin (- q)
  end.

Definition num_add (a b : number) : number :=
  match a, b with
  | NaN, _ | _, NaN => NaN
  | PosInf, NegInf | NegInf, PosInf => NaN
  | PosInf, _ | _, PosInf => PosInf
  | NegInf, _ | _, NegInf => NegInf
  | Fin x, Fin y => Fin (x + y)
  end.

Definition num_sub (a b : number) : number := num_add a (num_neg b).

Definition inf_of_sign (c : comparison) : number :=
  match c with
  | Lt => PosInf   (* 0 < product *)
  | Gt => NegInf
  | Eq => NaN
  end.

Definition num_mul (a b : number) : number :=
  match a, b with
  | NaN, _ | _, NaN => NaN
  | Fin x, Fin y => Fin (x * y)
  | Fin x, PosInf | PosInf, Fin x => inf_of_sign (0 ?= x)%Q
  | Fin x, NegInf | NegInf, Fin x => inf_of_sign (x ?= 0)%Q
  | PosInf, PosInf | NegInf, NegInf => PosInf
  | PosInf, NegInf | NegInf, PosInf => NegInf
  end.

(** Division; a zero divisor is the positive zero. *)
Definition num_div (a b : number) : number :=
  match a, b with
  | NaN, _ | _, NaN => NaN
  | Fin x, Fin y =>
      if Qeq_bool y 0 then inf_of_sign (0 ?= x)%Q else Fin (x / y)
  | Fin _, (PosInf | NegInf) => Fin 0
  | (PosInf | NegInf), (PosInf | NegInf) => NaN
  | PosInf, Fin y => if Qle_bool 0 y then PosInf else NegInf
  | NegInf, Fin y => if Qle_bool 0 y then NegInf else PosInf
  end.

(** [a <= b] of JavaScript: false as soon as one side is NaN. *)
Definition num_le (a b : number) : bool :=
  match a, b with
  | NaN, _ | _, NaN => false
  | NegInf, _ => true
  | _, PosInf => true
  | Fin x, Fin y => Qle_bool x y
  | _, _ => false
  end.

(** [a < b]. *)
Definition num_lt (a b : number) : bool :=
  match a, b with
  | NaN, _ | _, NaN => false
  | _, _ => negb (num_le b a)
  end.

(** [a >= b] and [a > b]. *)
Definition num_ge (a b : number) : bool := num_le b a.
Definition num_gt (a b : number) : bool := num_lt b a.

(** [a === b] on numbers. *)
Definition num_eqb (a b : number) : bool :=
  match a, b with
  | NegInf, NegInf | PosInf, PosInf => true
  | Fin x, Fin y => Qeq_bool x y
  | _, _ => false
  end.

Definition isNaN (a : number) : bool :=
  match a with NaN => true | _ => false end.

(** [Number.isFinite]. *)
Definition isFinite (a : number) : bool :=
  match a with Fin _ => true | _ => false end.

(** Truthiness of a number: [0] and [NaN] are falsy. *)
Definition num_truthy (a : number) : bool :=
  negb (isNaN a || num_eqb a (Fin 0)).

(** [Math.max] and [Math.min] of two numbers. *)
Definition mathMax (a b : number) : number :=
  match a, b with
  | NaN, _ | _, NaN => NaN
  | _, _ => if num_le a b then b else a
  end.

Definition mathMin (a b : number) : number :=
  match a, b with
  | NaN, _ | _, NaN => NaN
  | _, _ => if num_le a b then a else b
  end.

(** [Math.round]: the nearest integer, a tie going up. *)
Definition mathRound (a : number) : number :=
  match a with
  | Fin q => Fin (inject_Z (Qfloor (q + (1 # 2))))
  | other => other
  end.

(** [Number(v)]. *)
Definition toNumber (v : value) : number :=
  match v with
  | VUndefined => NaN
  | VNull => Fin 0
  | VNum n => n
  end.

(** [v || 0] for a numeric option. *)
Definition valueOrZero (v : value) : number :=
  match v with
  | VNum n => if num_truthy n then n else Fin 0
  | _ => Fin 0
  end.

(** Decimal text of an integer, as [String] prints an integral number below
    1e21. *)
Definition intToString (z : Z) : string :=
  DecimalString.NilZero.string_of_int (Z.to_int z).

(** [String(n)] for the numbers the formatters print: an integral value (the
    result of [Math.round]) or a special value. *)
Definition integralToString (a : number) : string :=
  match a with
  | NaN => "NaN"
  | PosInf => "Infinity"
  | NegInf => "-Infinity"
  | Fin q => intToString (Qfloor q)
  end.

(* ===================================================================== *)
(** ** Formatters and the colour scale *)
(* ===================================================================== *)

(** [_fmtPct]; the argument may be [null]. *)
Definition fmtPct (x : value) : string :=
  match x with
  | VNum n =>
      if isNaN n then "-"
      else integralToString (mathRound (num_mul n (Fin 100))) +:+ "%"
  | _ => "-"
  end.

(** [_clamp01]: [None] is the [null] the source returns. *)
Definition clamp01 (v : value) : option number :=
  let n := toNumber v in
  if isFinite n then Some (mathMin (Fin 1) (mathMax (Fin 0) n)) else None.

Definition defaultThresholds : list number :=
  [Fin 0.8; Fin 0.6; Fin 0.4; Fin 0.2].

Definition defaultColors : list (option string) :=
  [Some "#00085A"; Some "#1F48FF"; Some "#79a1ee"; Some "#99d9f2";
   Some "#D7D7D7"].

Definition hardDefaultColor : string := "#D7D7D7".

(** [th]: the caller's array when it is a non-empty array, else the
    default. *)
Definition effThresholds (thresholds : option (list number)) : list number :=
  match thresholds with
  | Some (t :: rest) => t :: rest
  | _ => defaultThresholds
  end.

(** [cs]: an entry is [None] where the array holds [null] or [undefined]. *)
Definition effColors (colors : option (list (option string)))
  : list (option string) :=
  match colors with
  | Some (c :: rest) => c :: rest
  | _ => defaultColors
  end.

(** [cs[i]] with [null], [undefined] and out-of-range all read as [None]. *)
Definition colorAt (cs : list (option string)) (i : nat) : option string :=
  mjoin (cs !! i).

Definition lastIndexOf (cs : list (option string)) : Z :=
  Z.of_nat (length cs) - 1.

Definition fallbackColor (cs : list (option string)) : string :=
  let lastIndex := lastIndexOf cs in
  if (0 <=? lastIndex)%Z then
    match colorAt cs (Z.to_nat lastIndex) with
    | Some c => c
    | None => hardDefaultColor
    end
  else hardDefaultColor.

(** The [for] loop of the closure, entered at index [i] with [th] the
    thresholds from [i] on. *)
Fixpoint colorLoop (th : list number) (cs : list (option string))
  (fallback : string) (i : nat) (r : number) : string :=
  match th with
  | [] => fallback
  | t :: rest =>
      if num_ge r t then
        match colorAt cs i with
        | Some candidate => candidate
        | None => fallback
        end
      else colorLoop rest cs fallback (S i) r
  end.

(** [_makeColorForRate(thresholds, colors)] applied to [rRaw]. *)
Definition makeColorForRate (thresholds : option (list number))
  (colors : option (list (option string))) (rRaw : value) : string :=
  let th := effThresholds thresholds in
  let cs := effColors colors in
  let fallback := fallbackColor cs in
  match clamp01 rRaw with
  | None => fallback
  | Some r => colorLoop th cs fallback 0 r
  end.

(** The position in [cs] of the colour the loop returns: the index [i] at
    which it stops when [cs[i]] is a colour, and the last index whenever it
    answers with the fallback. *)
Fixpoint indexLoop (th : list number) (cs : list (option string))
  (i : nat) (r : number) : nat :=
  match th with
  | [] => length cs - 1
  | t :: rest =>
      if num_ge r t then
        match colorAt cs i with
        | Some _ => i
        | None => length cs - 1
        end
      else indexLoop rest cs (S i) r
  end.

Definition colorIndexFor (thresholds : option (list number))
  (colors : option (list (option string))) (rRaw : value) : nat :=
  let th := effThresholds thresholds in
  let cs := effColors colors in
  match clamp01 rRaw with
  | None => length cs - 1
  | Some r => indexLoop th cs 0 r
  end.

(* ===================================================================== *)
(** ** Geometry supplied by the browser *)
(* ===================================================================== *)

(** [getBBox()] of an element: x, y, width, height. *)
Record bbox : Type := BBox {
  bb_x : number;
  bb_y : number;
  bb_width : number;
  bb_height : number
}.

(** A wedge of a pie glyph: the [path] element that [_createPieChart]
    appends.  Its [d] attribute is a function of the centre, the two radii,
    the two angles (in degrees) and the large-arc flag through [Math.cos]
    and [Math.sin]; the record keeps those arguments. *)
Record slice : Type := Slice {
  sl_cx : number;
  sl_cy : number;
  sl_radius : number;
  sl_innerRadius : number;
  sl_ring : bool;            (* [innerRadius > 0]: the annular form of [d] *)
  sl_startAngle : number;    (* [currentAngle] *)
  sl_endAngle : number;      (* [currentAngle + angle] *)
  sl_largeArc : bool;        (* [largeArcFlag] *)
  sl_fill : string;
  sl_stroke : string;
  sl_strokeWidth : number;
  sl_title : option string
}.

(** Truthiness of an optional string: absent and empty are falsy. *)
Definition strOr (s : option string) (dflt : string) : string :=
  match s with
  | Some "" | None => dflt
  | Some t => t
  end.

(** [x != null ? x : dflt] on a number slot. *)
Definition numOrDefault (v : value) (dflt : number) : number :=
  match v with
  | VNum n => n
  | _ => dflt
  end.

(* ===================================================================== *)
(** ** Binary64 rounding *)
(* ===================================================================== *)

(** The numbers of the program are IEEE 754 binary64 values.  Where the
    rounding of an operation decides what is drawn (the total, the shares
    and the angles of a pie glyph, the edges and sizes of the frame) the
    operation is modelled as the engine does it: the exact result of the
    operands is rounded to the nearest double, a tie going to the even one,
    and to an infinity past the largest double.  The sign of a zero is not
    kept. *)

(** The binade of [a > 0]: the [e] with [2^e <= a < 2^(e+1)]. *)
Definition binade (a : Q) : Z :=
  let e := (Z.log2 (Qnum a) - Z.log2 (Zpos (Qden a)))%Z in
  if Qle_bool (2 ^ e) a then e else (e - 1)%Z.

(** The nearest integer, a tie going to the even one. *)
Definition nearestEven (q : Q) : Z :=
  let f := Qfloor q in
  match (q - inject_Z f ?= 1 # 2)%Q with
  | Lt => f
  | Gt => (f + 1)%Z
  | Eq => if Z.even f then f else (f + 1)%Z
  end.

(** The double nearest to [q]: 53 significant bits, exponents from -1022
    (below it the spacing stays [2^-1074]) to 1023. *)
Definition binary64 (q : Q) : number :=
  if Qeq_bool q 0 then Fin 0
  else
    let a := Qabs q in
    let e := Z.max (binade a) (-1022) in
    let ulp := (2 ^ (e - 52))%Q in
    let r := (inject_Z (nearestEven (a / ulp)) * ulp)%Q in
    if Qle_bool (2 ^ 1024) r then (if Qle_bool 0 q then PosInf else NegInf)
    else Fin (Qred (if Qle_bool 0 q then r else - r)).

(** The double a number denotes: a decimal literal is read as the double
    nearest to it. *)
Definition toDouble (a : number) : number :=
  match a with
  | Fin q => binary64 q
  | other => other
  end.

Definition doubleOf (v : value) : value :=
  match v with
  | VNum n => VNum (toDouble n)
  | other => other
  end.

(** [a + b], [a - b], [a * b] and [a / b] on doubles. *)
Definition double_add (a b : number) : number := toDouble (num_add a b).

Definition double_sub (a b : number) : number := toDouble (num_sub a b).

Definition double_mul (a b : number) : number := toDouble (num_mul a b).

Definition double_div (a b : number) : number := toDouble (num_div a b).

(** A box read from the document: its four numbers as doubles. *)
Definition boxDouble (b : bbox) : bbox :=
  BBox (toDouble (bb_x b)) (toDouble (bb_y b))
    (toDouble (bb_width b)) (toDouble (bb_height b)).

(* ===================================================================== *)
(** ** Pie glyphs: [_createPieChart] *)
(* ===================================================================== *)

Record pieItem : Type := PieItem {
  pi_label : option string;
  pi_data : value;
  pi_color : option string
}.

Record pieOpts : Type := PieOpts {
  po_radius : value;
  po_innerRadius : value;
  po_strokeWidth : value;
  po_strokeColor : option string    (* [None]: null or undefined *)
}.

Definition noPieOpts : pieOpts := PieOpts VUndefined VUndefined VUndefined None.

(** [data[i].data || 0], the value being the double the input denotes. *)
Definition itemData (item : pieItem) : number :=
  valueOrZero (doubleOf (pi_data item)).

(** [total]: the sum of [data[i].data || 0], added in the order of the
    list. *)
Definition pieTotal (data : list pieItem) : number :=
  fold_left (fun total item => double_add total (itemData item))
    data (Fin 0).

(** The second loop, entered with [currentAngle]. *)
Fixpoint pieLoop (cx cy radius innerRadius strokeWidth : number)
  (strokeColor : string) (total currentAngle : number)
  (data : list pieItem) : list slice :=
  match data with
  | [] => []
  | item :: rest =>
      let value := itemData item in
      let percentage := double_div value total in
      let angle := double_mul percentage (Fin 360) in
      if num_eqb angle (Fin 0) then
        pieLoop cx cy radius innerRadius strokeWidth strokeColor total
          currentAngle rest
      else
        let path := {|
          sl_cx := cx; sl_cy := cy;
          sl_radius := radius; sl_innerRadius := innerRadius;
          sl_ring := num_gt innerRadius (Fin 0);
          sl_startAngle := currentAngle;
          sl_endAngle := double_add currentAngle angle;
          sl_largeArc := num_gt angle (Fin 180);
          sl_fill := strOr (pi_color item) "#cccccc";
          sl_stroke := strokeColor;
          sl_strokeWidth := strokeWidth;
          sl_title :=
            match pi_label item with
            | Some "" | None => None
            | Some label =>
                Some (label +:+ ": " +:+
                      integralToString
                        (mathRound (double_mul percentage (Fin 100))) +:+ "%")
            end |} in
        path :: pieLoop cx cy radius innerRadius strokeWidth strokeColor total
                  (double_add currentAngle angle) rest
  end.

(** [_createPieChart(cx, cy, data, opts)]: the children of the returned
    group. *)
Definition createPieChart (cx cy : number) (data : list pieItem)
  (opts : pieOpts) : list slice :=
  let radius := numOrDefault (po_radius opts) (Fin 20) in
  let innerRadius := numOrDefault (po_innerRadius opts) (Fin 0) in
  let strokeWidth := numOrDefault (po_strokeWidth opts) (Fin 1) in
  let strokeColor :=
    match po_strokeColor opts with Some c => c | None => "#ffffff" end in
  let total := pieTotal data in
  if num_eqb total (Fin 0) then []
  else pieLoop cx cy radius innerRadius strokeWidth strokeColor total
         (Fin (-90)) data.

(* ===================================================================== *)
(** ** Data and the bar list: [_buildBars] *)
(* ===================================================================== *)

(** A value of the data object: a bare number, a record with optional
    [count] and [rate], or nothing ([null], [undefined], key absent). *)
Inductive datum : Type :=
| DNone
| DNum (n : number)
| DRec (count rate : value).

(** An object enumerated by [for ... in]: own keys in enumeration order. *)
Definition jsobj (A : Type) : Type := list (string * A).

Fixpoint objGet {A : Type} (o : jsobj A) (key : string) : option A :=
  match o with
  | [] => None
  | (k, v) :: rest => if String.eqb k key then Some v else objGet rest key
  end.

(** [dataMap[name]], [DNone] when the key is absent. *)
Definition dataGet (dataMap : jsobj datum) (name : string) : datum :=
  match objGet dataMap name with Some d => d | None => DNone end.

(** [(typeof v === 'number') ? v : (v && v.rate)]. *)
Definition barRateOf (v : datum) : value :=
  match v with
  | DNum n => VNum n
  | DNone => VNull
  | DRec _ rate => rate
  end.

(** [rate == null ? -Infinity : rate]. *)
Definition entryRate (v : datum) : number :=
  match barRateOf v with
  | VNum n => n
  | _ => NegInf
  end.

Definition barEntries (dataMap : jsobj datum) : list (string * number) :=
  map (fun kv => (fst kv, entryRate (snd kv))) dataMap.

(** [Array.prototype.sort(compareFn)].  [x] goes after [y] exactly when
    [compareFn(x, y) > 0]; a NaN result counts as [0].  The sort is stable,
    so it is insertion from the right. *)
Section ArraySort.
Context {A : Type} (compareFn : A -> A -> number).

Definition goesAfter (x y : A) : bool := num_lt (Fin 0) (compareFn x y).

Fixpoint sortInsert (x : A) (l : list A) : list A :=
  match l with
  | [] => [x]
  | y :: rest => if goesAfter x y then y :: sortInsert x rest else x :: l
  end.

Definition arraySort (l : list A) : list A := fold_right sortInsert [] l.
End ArraySort.

(** [function (a, b) { return b[1] - a[1]; }] *)
Definition byRateDesc (a b : string * number) : number :=
  num_sub (snd b) (snd a).

(** The part of [barOpts] that depends on the data; the other fields are
    fixed fonts, gaps and colours of the row. *)
Record barOpts : Type := BarOpts {
  bo_width : value
}.

(** A row of the list: label text, bar background and width, value text. *)
Record barRow : Type := BarRow {
  row_label : string;
  row_barColor : string;
  row_barWidth : number;
  row_value : string
}.

(** The body of the second loop for one entry. *)
Definition barRowOf (colorForRate : value -> string) (opts : barOpts)
  (entry : string * number) : barRow :=
  let name := fst entry in
  let rRaw := snd entry in
  let r :=
    match clamp01 (VNum rRaw) with
    | Some c => if num_truthy c then c else Fin 0
    | None => Fin 0
    end in
  let bwBase := numOrDefault (bo_width opts) (Fin 100) in
  {| row_label := name;
     row_barColor := colorForRate (VNum r);
     row_barWidth := num_mul bwBase r;
     row_value := fmtPct (VNum r) |}.

(** [_buildBars(wrap, dataMap, colorForRate, barOpts)]: the rows of the list
    appended to [wrap]. *)
Definition buildBars (dataMap : option (jsobj datum))
  (colorForRate : value -> string) (opts : option barOpts) : list barRow :=
  let barOpts := match opts with Some o => o | None => BarOpts VUndefined end in
  let dataMap := match dataMap with Some d => d | None => [] end in
  let entries := arraySort byRateDesc (barEntries dataMap) in
  map (barRowOf colorForRate barOpts) entries.

(* ===================================================================== *)
(** ** The SVG document *)
(* ===================================================================== *)

(** An inline style declaration block: property to value and priority
    ([true] for [!important]).  Values are taken to be valid CSS. *)
Abbreviation styleDecls := (gmap string (string * bool)).

(** [style.getPropertyValue(prop)], the empty string when unset. *)
Definition getProperty (prop : string) (st : styleDecls) : string :=
  match st !! prop with
  | Some (v, _) => v
  | None => ""
  end.

(** [style.setProperty(prop, v, priority)]: the empty string removes. *)
Definition setProperty (prop v : string) (important : bool) (st : styleDecls)
  : styleDecls :=
  if String.eqb v "" then delete prop st else <[prop := (v, important)]> st.

Definition removeProperty (prop : string) (st : styleDecls) : styleDecls :=
  delete prop st.

(** A style object of the options: key to [String(v)], [None] for a [null]
    or [undefined] value. *)
Definition styleObj : Type := list (string * option string).

(** An element of the loaded document. *)
Record element : Type := Element {
  el_tag : string;
  el_bbox : bbox;
  el_fillAttr : option string;        (* the [fill] attribute *)
  el_style : styleDecls;              (* [el.style] *)
  el_original : option styleObj;      (* the [_originalStyles] expando *)
  el_listeners : list string          (* names whose handlers are bound *)
}.

(** The [viewBox] attribute.  The source writes it as four numbers joined
    by spaces and reads it back with [split(/\s+/).map(Number)]; printing
    and parsing a number are inverse, so the attribute is kept as the four
    numbers (a component that does not parse is NaN). *)
Record viewBox : Type := ViewBox {
  vb_x : number;
  vb_y : number;
  vb_w : number;
  vb_h : number
}.

(** [_computeBBox]'s result. *)
Record frame : Type := Frame {
  fr_x : number;
  fr_y : number;
  fr_w : number;
  fr_h : number;
  fr_cx : number
}.

(** A label of [_placeRegionLabels], or the pie glyph next to it. *)
Inductive labelItem : Type :=
| LabelText (x y : number) (text : string)
| LabelPie (slices : list slice).

(** A callout: leader line, pin and text.  The line's [d] is
    [M cx,cy L startX,cy <bend> L endX+textDx,endY]; the record keeps the
    points. *)
Record callout : Type := Callout {
  ca_name : string;
  ca_pin : number * number;
  ca_leftSide : bool;
  ca_bend : option (number * number);
  ca_lineEnd : number * number;
  ca_labelX : number;
  ca_labelY : number;
  ca_textAnchor : string;
  ca_text : string
}.

(** A group appended to the root by the program. *)
Inductive layer : Type :=
| LabelLayer (items : list labelItem)
| CalloutGroup (items : list callout).

(** The [filter] element of [_createShadowFilter]. *)
Record shadowFilter : Type := ShadowFilter {
  sf_id : string;
  sf_dx : number;
  sf_dy : number;
  sf_blur : number;
  sf_color : string;
  sf_opacity : number
}.

(** A length in pixels or a keyword, as the values [_setCss] is given. *)
Inductive cssValue : Type :=
| CssText (s : string)
| CssPx (n : number).

(** The document element returned by [_loadSVG].  The elements that carry
    an id are the ones [getElementById] finds; they are taken to be the
    children of one parent, whose child order is [svg_stack] (last is
    topmost). *)
Record svgdoc : Type := SvgDoc {
  svg_viewBox : option viewBox;
  svg_css : gmap string cssValue;
  svg_sheets : list string;            (* [textContent] of each [style] *)
  svg_elems : gmap string element;
  svg_stack : list string;
  svg_anon : list element;             (* elements without an id *)
  svg_filters : list shadowFilter;
  svg_layers : list layer
}.

Definition setViewBox (vb : viewBox) (svg : svgdoc) : svgdoc :=
  SvgDoc (Some vb) (svg_css svg) (svg_sheets svg) (svg_elems svg)
    (svg_stack svg) (svg_anon svg) (svg_filters svg) (svg_layers svg).

Definition setSvgCss (css : gmap string cssValue) (svg : svgdoc) : svgdoc :=
  SvgDoc (svg_viewBox svg) css (svg_sheets svg) (svg_elems svg)
    (svg_stack svg) (svg_anon svg) (svg_filters svg) (svg_layers svg).

Definition setElems (elems : gmap string element) (svg : svgdoc) : svgdoc :=
  SvgDoc (svg_viewBox svg) (svg_css svg) (svg_sheets svg) elems
    (svg_stack svg) (svg_anon svg) (svg_filters svg) (svg_layers svg).

Definition setStack (stack : list string) (svg : svgdoc) : svgdoc :=
  SvgDoc (svg_viewBox svg) (svg_css svg) (svg_sheets svg) (svg_elems svg)
    stack (svg_anon svg) (svg_filters svg) (svg_layers svg).

Definition appendLayer (l : layer) (svg : svgdoc) : svgdoc :=
  SvgDoc (svg_viewBox svg) (svg_css svg) (svg_sheets svg) (svg_elems svg)
    (svg_stack svg) (svg_anon svg) (svg_filters svg) (svg_layers svg ++ [l]).

Definition appendFilter (f : shadowFilter) (svg : svgdoc) : svgdoc :=
  SvgDoc (svg_viewBox svg) (svg_css svg) (svg_sheets svg) (svg_elems svg)
    (svg_stack svg) (svg_anon svg) (svg_filters svg ++ [f]) (svg_layers svg).

(** [svg.getElementById(code)]. *)
Definition getElementById (svg : svgdoc) (code : string) : option element :=
  svg_elems svg !! code.

(** Replace the style of the element with id [code]. *)
Definition withStyle (f : styleDecls -> styleDecls) (e : element) : element :=
  Element (el_tag e) (el_bbox e) (el_fillAttr e) (f (el_style e))
    (el_original e) (el_listeners e).

Definition updateStyle (code : string) (f : styleDecls -> styleDecls)
  (svg : svgdoc) : svgdoc :=
  setElems (alter (withStyle f) code (svg_elems svg)) svg.

(** [p.parentNode.appendChild(p)]: [p] becomes the last child. *)
Definition raiseToTop (code : string) (svg : svgdoc) : svgdoc :=
  setStack (filter (fun c => c ≠ code) (svg_stack svg) ++ [code]) svg.

(* ===================================================================== *)
(** ** The page and the host the program runs in *)
(* ===================================================================== *)

(** A child of the mount element: what was there before the call, the
    mounted document, or the bar list. *)
Inductive mnode : Type :=
| PriorNode (html : string)
| SvgNode (svg : svgdoc)
| BarListNode (rows : list barRow).

(** The mount element: its children and its inline style. *)
Record mountEl : Type := MountEl {
  m_children : list mnode;
  m_css : gmap string cssValue
}.

(** What the browser supplies and the program only calls. *)
Class Host : Type := {
  (** [Number(n).toLocaleString('ko-KR')] *)
  toLocaleString : number -> string;
  (** [Math.random().toString(36).substr(2, 9)] *)
  randomSuffix : string;
  (** [getBBox()] of a generated wedge *)
  sliceBBox : slice -> bbox;
  (** [document.querySelector(selector)] *)
  querySelector : string -> option mountEl;
  (** [fetch(url)] and the parse of its text; [None] when the load fails *)
  loadSVG : string -> option svgdoc
}.

(** [_fmtInt]. *)
Definition fmtInt `{Host} (n : value) : string :=
  match n with
  | VNum x => if isNaN x then "-" else toLocaleString x
  | _ => "-"
  end.

(* ===================================================================== *)
(** ** Callouts: [_buildCallouts] *)
(* ===================================================================== *)

(** The fields of [calloutOpts] that place the callouts; line, pin and text
    styling are fixed attributes with defaults. *)
Record calloutOpts : Type := CalloutOpts {
  co_padding : value;
  co_margin : value;
  co_textOffset : value;
  co_offsets : option (gmap string (number * number));
  co_bypass : option (gmap string (number * number));
  co_formatter : option (string -> value -> string)
}.

Definition noCalloutOpts : calloutOpts :=
  CalloutOpts VUndefined VUndefined VUndefined None None None.

(** [(m && m[name])]. *)
Definition optLookup {A : Type} (m : option (gmap string A)) (name : string)
  : option A :=
  match m with
  | Some g => g !! name
  | None => None
  end.

(** [(typeof dv === 'number') ? null : (dv && dv.count)]. *)
Definition calloutCount (dv : datum) : value :=
  match dv with
  | DNum _ => VNull
  | DNone => VNull
  | DRec count _ => count
  end.

(** The first part of [_buildCallouts]: read or seed the view box, then
    widen it by [padding] on both sides. *)
Definition expandViewBox (bbox : frame) (opts : calloutOpts) (svg : svgdoc)
  : svgdoc :=
  let vb :=
    match svg_viewBox svg with
    | Some vb => vb
    | None => ViewBox (fr_x bbox) (fr_y bbox) (fr_w bbox) (fr_h bbox)
    end in
  let pad := valueOrZero (co_padding opts) in
  let extra := valueOrZero (co_margin opts) in
  let padding := num_add pad extra in
  setViewBox
    (ViewBox (num_sub (vb_x vb) padding) (vb_y vb)
       (num_add (vb_w vb) (num_mul padding (Fin 2))) (vb_h vb))
    svg.

Section Callouts.
Context `{Host}.

(** The body of the loop for one region whose element [el] was found. *)
Definition calloutOf (dataMap : jsobj datum) (bbox : frame)
  (opts : calloutOpts) (name : string) (el : element) : callout :=
  let pad := valueOrZero (co_padding opts) in
  let leftX := num_sub (fr_x bbox) pad in
  let rightX := num_add (num_add (fr_x bbox) (fr_w bbox)) pad in
  let b := el_bbox el in
  let off :=
    match optLookup (co_offsets opts) name with
    | Some o => o
    | None => (Fin 0, Fin 0)
    end in
  let bypass := optLookup (co_bypass opts) name in
  let cx := num_add (num_add (bb_x b) (num_div (bb_width b) (Fin 2))) (fst off) in
  let cy := num_add (num_add (bb_y b) (num_div (bb_height b) (Fin 2))) (snd off) in
  let leftSide := num_lt cx (fr_cx bbox) in
  let startX := cx in
  let endX := if leftSide then leftX else rightX in
  let textDx :=
    num_mul (valueOrZero (co_textOffset opts))
      (if leftSide then Fin (-1) else Fin 1) in
  let endY :=
    num_add cy
      (match bypass with
       | Some bp => valueOrZero (VNum (snd bp))
       | None => Fin 0
       end) in
  let count := calloutCount (dataGet dataMap name) in
  {| ca_name := name;
     ca_pin := (cx, cy);
     ca_leftSide := leftSide;
     ca_bend :=
       match bypass with
       | Some bp => Some (num_add startX (fst bp), num_add cy (snd bp))
       | None => None
       end;
     ca_lineEnd := (num_add endX textDx, endY);
     ca_labelX := endX;
     ca_labelY := endY;
     ca_textAnchor := if leftSide then "end" else "start";
     ca_text :=
       match co_formatter opts with
       | Some formatter => formatter name count
       | None => name +:+ " : " +:+ fmtInt count
       end |}.

(** The loop over [codeMap]: a name whose element is missing is skipped. *)
Fixpoint calloutLoop (svg : svgdoc) (dataMap : jsobj datum) (bbox : frame)
  (opts : calloutOpts) (codeMap : jsobj string) : list callout :=
  match codeMap with
  | [] => []
  | (name, code) :: rest =>
      match getElementById svg code with
      | None => calloutLoop svg dataMap bbox opts rest
      | Some path =>
          calloutOf dataMap bbox opts name path
            :: calloutLoop svg dataMap bbox opts rest
      end
  end.

(** [_buildCallouts(svg, codeMap, dataMap, bbox, calloutOpts)]. *)
Definition buildCallouts (svg : svgdoc) (codeMap : jsobj string)
  (dataMap : option (jsobj datum)) (bbox : frame)
  (calloutOpts : option calloutOpts) : svgdoc :=
  let opts := match calloutOpts with Some o => o | None => noCalloutOpts end in
  let dataMap := match dataMap with Some d => d | None => [] end in
  let svg1 := expandViewBox bbox opts svg in
  appendLayer (CalloutGroup (calloutLoop svg1 dataMap bbox opts codeMap)) svg1.

End Callouts.

(* ===================================================================== *)
(** ** Painting, labels and the frame *)
(* ===================================================================== *)

(** [render]'s [getRate]. *)
Definition getRate (data : option (jsobj datum)) (name : string) : value :=
  match data with
  | None => VNull
  | Some d =>
      match dataGet d name with
      | DNone => VNull
      | DNum n => VNum n
      | DRec _ rate => rate
      end
  end.

(** [_paintRegions]. *)
Fixpoint paintRegions (svg : svgdoc) (codeMap : jsobj string)
  (dataGetter : string -> value) (colorForRate : value -> string) : svgdoc :=
  match codeMap with
  | [] => svg
  | (name, code) :: rest =>
      let svg' :=
        match getElementById svg code with
        | None => svg
        | Some _ =>
            updateStyle code
              (setProperty "fill" (colorForRate (dataGetter name)) true) svg
        end in
      paintRegions svg' rest dataGetter colorForRate
  end.

Record pieChartOpts : Type := PieChartOpts {
  pc_positions : option (gmap string string);
  pc_position : option string;
  pc_gap : value;
  pc_radius : value;
  pc_offsets : option (gmap string (number * number));
  pc_innerRadius : value;
  pc_strokeWidth : value;
  pc_strokeColor : option string
}.

Definition noPieChartOpts : pieChartOpts :=
  PieChartOpts None None VUndefined VUndefined None VUndefined VUndefined None.

(** The fields of [labelOpts] that place labels and glyphs; font and colour
    are fixed attributes with defaults. *)
Record labelOpts : Type := LabelOpts {
  lo_minWidth : value;
  lo_minHeight : value;
  lo_offsets : option (gmap string (number * number));
  lo_pieChart : option pieChartOpts
}.

Definition noLabelOpts : labelOpts :=
  LabelOpts VUndefined VUndefined None None.

(** The glyph placed next to the label at [(cx, cy)]. *)
Definition labelPie (pieOpts : pieChartOpts) (name : string)
  (cx cy : number) (data : list pieItem) : list slice :=
  let position :=
    match optLookup (pc_positions pieOpts) name with
    | Some "" | None => strOr (pc_position pieOpts) "right"
    | Some p => p
    end in
  let gap := numOrDefault (pc_gap pieOpts) (Fin 15) in
  let radius := numOrDefault (pc_radius pieOpts) (Fin 15) in
  let shift := num_add gap radius in
  let pieX :=
    if String.eqb position "left" then num_sub cx shift
    else if String.eqb position "right" then num_add cx shift
    else cx in
  let pieY :=
    if String.eqb position "top" then num_sub cy shift
    else if String.eqb position "bottom" then num_add cy shift
    else cy in
  let pieOffset :=
    match optLookup (pc_offsets pieOpts) name with
    | Some o => o
    | None => (Fin 0, Fin 0)
    end in
  createPieChart (num_add pieX (fst pieOffset)) (num_add pieY (snd pieOffset))
    data
    {| po_radius := VNum radius;
       po_innerRadius := VNum (numOrDefault (pc_innerRadius pieOpts) (Fin 0));
       po_strokeWidth := VNum (numOrDefault (pc_strokeWidth pieOpts) (Fin 0.5));
       po_strokeColor := Some (strOr (pc_strokeColor pieOpts) "#ffffff") |}.

(** The loop of [_placeRegionLabels]. *)
Fixpoint labelLoop (svg : svgdoc) (opts : labelOpts)
  (pieChartData : gmap string (list pieItem)) (codeMap : jsobj string)
  : list labelItem :=
  match codeMap with
  | [] => []
  | (name, code) :: rest =>
      let others := labelLoop svg opts pieChartData rest in
      match getElementById svg code with
      | None => others
      | Some path =>
          let minW := numOrDefault (lo_minWidth opts) (Fin 16) in
          let minH := numOrDefault (lo_minHeight opts) (Fin 12) in
          let b := el_bbox path in
          if num_lt (bb_width b) minW || num_lt (bb_height b) minH then others
          else
            let off :=
              match optLookup (lo_offsets opts) name with
              | Some o => o
              | None => (Fin 0, Fin 0)
              end in
            let cx :=
              num_add (num_add (bb_x b) (num_div (bb_width b) (Fin 2)))
                (fst off) in
            let cy :=
              num_add (num_add (bb_y b) (num_div (bb_height b) (Fin 2)))
                (snd off) in
            let pie :=
              match pieChartData !! name with
              | None => []
              | Some data =>
                  let pieOpts :=
                    match lo_pieChart opts with
                    | Some o => o
                    | None => noPieChartOpts
                    end in
                  [LabelPie (labelPie pieOpts name cx cy data)]
              end in
            LabelText cx cy name :: pie ++ others
      end
  end.

(** [_placeRegionLabels(svg, codeMap, labelOpts, pieChartData)]. *)
Definition placeRegionLabels (svg : svgdoc) (codeMap : jsobj string)
  (labelOpts : option labelOpts)
  (pieChartData : option (gmap string (list pieItem))) : svgdoc :=
  let opts := match labelOpts with Some o => o | None => noLabelOpts end in
  let pies := match pieChartData with Some p => p | None => ∅ end in
  appendLayer (LabelLayer (labelLoop svg opts pies codeMap)) svg.

Section Frame.
Context `{Host}.

Definition isPath (e : element) : bool := String.eqb (el_tag e) "path".

Definition slicesOf (l : layer) : list slice :=
  match l with
  | LabelLayer items =>
      flat_map (fun it => match it with
                          | LabelPie s => s
                          | LabelText _ _ _ => []
                          end) items
  | CalloutGroup _ => []
  end.

(** The boxes of [svg.querySelectorAll('path')]: the document's own paths
    and the wedges of the glyphs already placed. *)
Definition pathBoxes (svg : svgdoc) : list bbox :=
  map el_bbox (filter (fun e => isPath e = true)
                 ((snd <$> map_to_list (svg_elems svg)) ++ svg_anon svg))
  ++ map sliceBBox (flat_map slicesOf (svg_layers svg)).

(** [_computeBBox(svg)]. *)
Definition computeBBox (svg : svgdoc) : frame :=
  let step (acc : number * number * number * number) (b : bbox) :=
    let '(minX, minY, maxX, maxY) := acc in
    (mathMin minX (bb_x b), mathMin minY (bb_y b),
     mathMax maxX (double_add (bb_x b) (bb_width b)),
     mathMax maxY (double_add (bb_y b) (bb_height b))) in
  let '(minX, minY, maxX, maxY) :=
    fold_left step (map boxDouble (pathBoxes svg))
      (PosInf, PosInf, NegInf, NegInf) in
  {| fr_x := minX;
     fr_y := minY;
     fr_w := double_sub maxX minX;
     fr_h := double_sub maxY minY;
     fr_cx := double_div (double_add minX maxX) (Fin 2) |}.

End Frame.

(* ===================================================================== *)
(** ** Options of [render] *)
(* ===================================================================== *)

Record shadowOpts : Type := ShadowOpts {
  sh_dx : value;
  sh_dy : value;
  sh_blur : value;
  sh_color : option string;
  sh_opacity : value
}.

(** [events.shadow === true]: a shadow with every default. *)
Definition defaultShadow : shadowOpts :=
  ShadowOpts VUndefined VUndefined VUndefined None VUndefined.

(** [opts.events].  A callback is a function of the page; the embedding
    records only whether it is given, and logs each call. *)
Record eventOpts : Type := EventOpts {
  ev_hoverStyle : option styleObj;
  ev_regionHoverStyles : option (gmap string styleObj);
  ev_shadow : option shadowOpts;      (* [None]: falsy *)
  ev_onRegionEnter : bool;
  ev_onRegionLeave : bool;
  ev_onRegionClick : bool
}.

Definition noEventOpts : eventOpts :=
  EventOpts None None None false false false.

Record renderOpts : Type := RenderOpts {
  o_mode : option string;
  o_svgUrl : string;
  o_data : option (jsobj datum);
  o_rates : option (list number);
  o_colors : option (list (option string));
  o_gap : value;
  o_mapWidth : value;                 (* [opts.map && opts.map.width] *)
  o_mapHeight : value;
  o_labels : option labelOpts;
  o_pieChartData : option (gmap string (list pieItem));
  o_bar : option barOpts;
  o_callouts : option calloutOpts;
  o_events : option eventOpts;
  o_innerCities : option (list string)
}.

(* ===================================================================== *)
(** ** The interaction controller: [_bindRegionEvents] *)
(* ===================================================================== *)

Definition isUpper (c : ascii) : bool :=
  Nat.leb 65 (nat_of_ascii c) && Nat.leb (nat_of_ascii c) 90.

Definition toLower (c : ascii) : ascii :=
  if isUpper c then ascii_of_nat (nat_of_ascii c + 32) else c.

(** [k.replace(/[A-Z]/g, m => '-' + m.toLowerCase())]. *)
Fixpoint kebab (k : string) : string :=
  match k with
  | EmptyString => EmptyString
  | String c rest =>
      if isUpper c then String "-" (String (toLower c) (kebab rest))
      else String c (kebab rest)
  end.

(** [_createShadowFilter(svg, shadowOpts)]: the new document and the id. *)
Definition createShadowFilter `{Host} (svg : svgdoc) (o : shadowOpts)
  : svgdoc * string :=
  let filterId := "drop-shadow-" +:+ randomSuffix in
  (appendFilter
     {| sf_id := filterId;
        sf_dx := numOrDefault (sh_dx o) (Fin 0);
        sf_dy := numOrDefault (sh_dy o) (Fin 6);
        sf_blur := numOrDefault (sh_blur o) (Fin 4);
        sf_color := match sh_color o with Some c => c | None => "#000000" end;
        sf_opacity := numOrDefault (sh_opacity o) (Fin 0.3) |} svg,
   filterId).

(** The closure's [apply(el, styleObj)], on the style of [el]. *)
Definition apply (styleObj : styleObj) (st : styleDecls) : styleDecls :=
  fold_left
    (fun st kv =>
       match snd kv with
       | None => removeProperty (fst kv) st
       | Some v =>
           let prop := kebab (fst kv) in
           if String.eqb prop "fill" then setProperty prop v true st
           else setProperty prop v false st
       end)
    styleObj st.

(** The object stored in [p._originalStyles] at bind time.  A style holds
    its values as they were written; the form in which the browser hands a
    value back (a colour as [rgb(...)], say) is not modelled, so a captured
    value can be compared with another value read from a style, not with
    the text the program wrote. *)
Definition captureStyles (st : styleDecls) : styleObj :=
  [("stroke", Some (getProperty "stroke" st));
   ("strokeWidth", Some (getProperty "stroke-width" st));
   ("opacity", Some (getProperty "opacity" st));
   ("cursor", Some (getProperty "cursor" st));
   ("filter", Some (getProperty "filter" st));
   ("fill", Some (getProperty "fill" st))].

(** [o.key], [None] when the key is absent or holds [null]. *)
Definition styleField (o : styleObj) (key : string) : option string :=
  mjoin (objGet o key).

(** Restoring the captured styles of an element: [apply] with the snapshot,
    the fill again with priority, and the filter when shadows are on. *)
Definition restoreStyles (shadow : bool) (original : styleObj)
  (st : styleDecls) : styleDecls :=
  let st1 := apply original st in
  let st2 :=
    match objGet original "fill" with
    | Some fill => setProperty "fill" (strOr fill "") true st1
    | None => st1
    end in
  if shadow then setProperty "filter" (strOr (styleField original "filter") "") false st2
  else st2.

(** A call of one of the user's callbacks: which one, and the region. *)
Inductive callbackCall : Type :=
| OnRegionEnter (name : string)
| OnRegionLeave (name : string)
| OnRegionClick (name : string).

(** The mutable state the handlers share: the document, the closure
    variable [selectedPath] (the id of the selected element) and the calls
    made so far. *)
Record controller : Type := Controller {
  ctl_svg : svgdoc;
  ctl_selectedPath : option string;
  ctl_calls : list callbackCall
}.

(** How a handler ends: normally, or by the [TypeError] of reading a
    property of [undefined], with the state reached by then. *)
Inductive completion : Type :=
| Normal (c : controller)
| TypeError (c : controller).

Definition stateOf (r : completion) : controller :=
  match r with Normal c | TypeError c => c end.

Definition onSvg (f : svgdoc -> svgdoc) (c : controller) : controller :=
  Controller (f (ctl_svg c)) (ctl_selectedPath c) (ctl_calls c).

Definition setSelected (sel : option string) (c : controller) : controller :=
  Controller (ctl_svg c) sel (ctl_calls c).

Definition logCall (given : bool) (call : callbackCall) (c : controller)
  : controller :=
  if given then Controller (ctl_svg c) (ctl_selectedPath c) (ctl_calls c ++ [call])
  else c.

(** The target of a click that reaches the window listener. *)
Inductive target : Type :=
| TargetRoot                       (* [e.target === svg] *)
| TargetOther (tagName : string).

Inductive event : Type :=
| MouseEnter (name : string)
| MouseLeave (name : string)
| Click (name : string)
| WindowClick (t : target).

Section Handlers.
Context (codeMap : jsobj string) (ev : eventOpts) (innerCities : list string)
  (shadowFilterId : option string).

Definition shadowOn : bool := bool_decide (is_Some (ev_shadow ev)).

Definition hoverStyle : styleObj :=
  match ev_hoverStyle ev with
  | Some s => s
  | None => [("opacity", Some "0.8"); ("cursor", Some "pointer")]
  end.

(** [regionHoverStyles[name] || hoverStyle]. *)
Definition styleToApply (name : string) : styleObj :=
  match optLookup (ev_regionHoverStyles ev) name with
  | Some s => s
  | None => hoverStyle
  end.

(** The hover look: the style object, then the shadow filter. *)
Definition hoverLook (name : string) (st : styleDecls) : styleDecls :=
  let st1 := apply (styleToApply name) st in
  match shadowFilterId with
  | Some id =>
      if shadowOn && negb (String.eqb id "")
      then setProperty "filter" ("url(#" +:+ id +:+ ")") false st1
      else st1
  | None => st1
  end.

(** The loop that keeps the inner cities topmost. *)
Definition raiseInnerCities (svg : svgdoc) : svgdoc :=
  fold_left
    (fun svg kv =>
       if bool_decide (fst kv ∈ innerCities) then
         match getElementById svg (snd kv) with
         | Some _ => raiseToTop (snd kv) svg
         | None => svg
         end
       else svg)
    codeMap svg.

Definition selectRegion (code name : string) (c : controller) : controller :=
  onSvg (updateStyle code (hoverLook name)) (setSelected (Some code) c).

Definition deselectRegion (c : controller) : completion :=
  match ctl_selectedPath c with
  | None => Normal c
  | Some sel =>
      match getElementById (ctl_svg c) sel with
      | Some {| el_original := Some original |} =>
          Normal
            (setSelected None
               (onSvg (updateStyle sel (restoreStyles shadowOn original)) c))
      | _ => TypeError c
      end
  end.

Definition mouseenter (name code : string) (c : controller) : completion :=
  match getElementById (ctl_svg c) code with
  | None => Normal c
  | Some _ =>
      let c1 :=
        if bool_decide (name ∈ innerCities) then c
        else
          let svg1 := raiseToTop code (ctl_svg c) in
          let svg2 :=
            match ctl_selectedPath c with
            | Some sel => raiseToTop sel svg1
            | None => svg1
            end in
          onSvg (fun _ => raiseInnerCities svg2) c in
      let c2 := onSvg (updateStyle code (hoverLook name)) c1 in
      Normal (logCall (ev_onRegionEnter ev) (OnRegionEnter name) c2)
  end.

Definition mouseleave (name code : string) (c : controller) : completion :=
  match getElementById (ctl_svg c) code with
  | None => Normal c
  | Some p =>
      if bool_decide (ctl_selectedPath c = Some code) then
        Normal (logCall (ev_onRegionLeave ev) (OnRegionLeave name) c)
      else
        match el_original p with
        | None => TypeError c
        | Some original =>
            let c1 :=
              onSvg (updateStyle code (restoreStyles shadowOn original)) c in
            Normal (logCall (ev_onRegionLeave ev) (OnRegionLeave name) c1)
        end
  end.

Definition click (name code : string) (c : controller) : completion :=
  match getElementById (ctl_svg c) code with
  | None => Normal c
  | Some _ =>
      let deselected :=
        match ctl_selectedPath c with
        | Some sel =>
            if bool_decide (sel ≠ code) then deselectRegion c else Normal c
        | None => Normal c
        end in
      match deselected with
      | TypeError c' => TypeError c'
      | Normal c1 =>
          let c2 :=
            if bool_decide (ctl_selectedPath c1 ≠ Some code) then
              let c' := selectRegion code name c1 in
              onSvg (fun svg => raiseInnerCities (raiseToTop code svg)) c'
            else c1 in
          Normal (logCall (ev_onRegionClick ev) (OnRegionClick name) c2)
      end
  end.

(** The listener added to [window]. *)
Definition windowClick (t : target) (c : controller) : completion :=
  match t with
  | TargetRoot => deselectRegion c
  | TargetOther tagName =>
      if String.eqb tagName "svg" then deselectRegion c else Normal c
  end.

(** The listeners of region [name] exist when its element was found at bind
    time; they were created with the [code] the map gave then. *)
Definition boundCode (c : controller) (name : string) : option string :=
  match objGet codeMap name with
  | Some code =>
      match getElementById (ctl_svg c) code with
      | Some p => if bool_decide (name ∈ el_listeners p) then Some code else None
      | None => None
      end
  | None => None
  end.

(** One event, dispatched to the listener it reaches. *)
Definition dispatch (e : event) (c : controller) : completion :=
  match e with
  | MouseEnter name =>
      match boundCode c name with
      | Some code => mouseenter name code c
      | None => Normal c
      end
  | MouseLeave name =>
      match boundCode c name with
      | Some code => mouseleave name code c
      | None => Normal c
      end
  | Click name =>
      match boundCode c name with
      | Some code => click name code c
      | None => Normal c
      end
  | WindowClick t => windowClick t c
  end.

(** A sequence of events; an uncaught error ends its handler only. *)
Definition dispatchAll (events : list event) (c : controller) : controller :=
  fold_left (fun c e => stateOf (dispatch e c)) events c.

End Handlers.

Section Bind.
Context `{Host}.

(** The body of the binding loop on the element found for [name]. *)
Definition bindElement (name : string) (p : element) : element :=
  Element (el_tag p) (el_bbox p) (el_fillAttr p)
    (setProperty "pointer-events" "auto" false (el_style p))
    (Some (captureStyles (el_style p)))
    (el_listeners p ++ [name]).

Fixpoint bindLoop (svg : svgdoc) (codeMap : jsobj string) : svgdoc :=
  match codeMap with
  | [] => svg
  | (name, code) :: rest =>
      let svg' :=
        match getElementById svg code with
        | None => svg
        | Some _ => setElems (alter (bindElement name) code (svg_elems svg)) svg
        end in
      bindLoop svg' rest
  end.

(** [_bindRegionEvents(svg, codeMap, opts, getDatum)]: the state the
    listeners start from, and the closure's [shadowFilterId]. *)
Definition bindRegionEvents (svg : svgdoc) (codeMap : jsobj string)
  (opts : renderOpts) : controller * option string :=
  let ev := match o_events opts with Some e => e | None => noEventOpts end in
  let '(svg1, shadowFilterId) :=
    match ev_shadow ev with
    | Some shadowOpts =>
        let '(s, id) := createShadowFilter svg shadowOpts in (s, Some id)
    | None => (svg, None)
    end in
  (Controller (bindLoop svg1 codeMap) None [], shadowFilterId).

(** The listeners of a controller bound with [opts]. *)
Definition handle (codeMap : jsobj string) (opts : renderOpts)
  (shadowFilterId : option string) (events : list event) (c : controller)
  : controller :=
  dispatchAll codeMap
    (match o_events opts with Some e => e | None => noEventOpts end)
    (match o_innerCities opts with Some l => l | None => [] end)
    shadowFilterId events c.

End Bind.

(* ===================================================================== *)
(** ** The entry point: [render] *)
(* ===================================================================== *)

Definition isSpace (c : ascii) : bool :=
  let n := nat_of_ascii c in
  Nat.eqb n 32 || (Nat.leb 9 n && Nat.leb n 13).

(** The leading [\s*] of a string: how many characters, and the rest. *)
Fixpoint spanSpaces (s : string) : nat * string :=
  match s with
  | String c rest =>
      if isSpace c then let '(n, r) := spanSpaces rest in (S n, r)
      else (0, s)
  | EmptyString => (0, s)
  end.

(** The leading [[^;]*]. *)
Fixpoint spanNotSemicolon (s : string) : nat * string :=
  match s with
  | String c rest =>
      if Ascii.eqb c ";" then (0, s)
      else let '(n, r) := spanNotSemicolon rest in (S n, r)
  | EmptyString => (0, s)
  end.

(** The length of the match of [/fill\s*:[^;]+;?/] at the head of [s]. *)
Definition matchFill (s : string) : option nat :=
  match s with
  | String "f" (String "i" (String "l" (String "l" r))) =>
      let '(w, r1) := spanSpaces r in
      match r1 with
      | String ":" r2 =>
          let '(m, r3) := spanNotSemicolon r2 in
          match m with
          | O => None
          | S _ =>
              Some (4 + w + 1 + m +
                    match r3 with String ";" _ => 1 | _ => 0 end)
          end
      | _ => None
      end
  | _ => None
  end.

(** [s.replace(/fill\s*:[^;]+;?/g, '')]; [skip] characters of a match are
    still to be dropped. *)
Fixpoint stripFill (skip : nat) (s : string) : string :=
  match s with
  | EmptyString => EmptyString
  | String c rest =>
      match skip with
      | S k => stripFill k rest
      | O =>
          match matchFill (String c rest) with
          | Some (S k) => stripFill k rest
          | _ => String c (stripFill 0 rest)
          end
      end
  end.

Definition removeFillAttr (e : element) : element :=
  Element (el_tag e) (el_bbox e) None (el_style e) (el_original e)
    (el_listeners e).

(** [_clearSvgFillStyles(svg)]. *)
Definition clearSvgFillStyles (svg : svgdoc) : svgdoc :=
  SvgDoc (svg_viewBox svg) (svg_css svg)
    (map (stripFill 0) (svg_sheets svg))
    (removeFillAttr <$> svg_elems svg)
    (svg_stack svg)
    (map removeFillAttr (svg_anon svg))
    (svg_filters svg) (svg_layers svg).

(** [_setCss(el, prop, v)] on a style; [None] is a [null] value. *)
Definition setCss (prop : string) (v : option cssValue)
  (css : gmap string cssValue) : gmap string cssValue :=
  if String.eqb prop "" then css
  else match v with
       | None => delete prop css
       | Some x => <[prop := x]> css
       end.

(** [v != null ? v + 'px' : null]. *)
Definition pxOrNull (v : value) : option cssValue :=
  match v with
  | VNum n => Some (CssPx n)
  | _ => None
  end.

(** The first argument of [render]: a selector or the element itself. *)
Inductive mountArg : Type :=
| BySelector (selector : string)
| ByElement (el : option mountEl).

(** The errors [render] raises: no mount element; no [mode]; mode
    [rate+bars] without [bar]; mode [count+callouts] without [callouts]. *)
Inductive renderError : Type :=
| MountNotFound
| ModeRequired
| BarRequired
| CalloutsRequired.

(** How a call ends: a synchronous throw, a promise rejected by the failed
    load or by an error raised after it, or a resolved promise. *)
Inductive outcome : Type :=
| Threw (e : renderError)
| LoadFailed
| Rejected (e : renderError)
| Resolved.

(** The mount element when the call ends ([None] when there is none), and
    the outcome. *)
Record rendered : Type := Rendered {
  rd_mount : option mountEl;
  rd_outcome : outcome
}.

Section Render.
Context `{Host}.

(** [_ensureMount(mount)]. *)
Definition ensureMount (mount : mountArg) : option mountEl :=
  match mount with
  | BySelector selector => querySelector selector
  | ByElement el => el
  end.

Definition modeIs (opts : renderOpts) (m : string) : bool :=
  match o_mode opts with
  | Some mode => String.eqb mode m
  | None => false
  end.

(** The statements of [render] before the load: the container is emptied
    and styled. *)
Definition prepareMount (opts : renderOpts) (el : mountEl) : mountEl :=
  let center :=
    if modeIs opts "count+callouts" then Some (CssText "center") else None in
  MountEl []
    (setCss "gap" (pxOrNull (o_gap opts))
       (setCss "flex-shrink" (Some (CssText "0"))
          (setCss "justify-content" center
             (setCss "align-items" center
                (setCss "display" (Some (CssText "flex"))
                   (setCss "position" (Some (CssText "relative"))
                      (m_css el))))))).

(** The statements of the continuation up to the checks: the document is
    sized, mounted and stripped of its fills. *)
Definition mountSvg (opts : renderOpts) (svg : svgdoc) : svgdoc :=
  clearSvgFillStyles
    (setSvgCss
       (setCss "height" (pxOrNull (o_mapHeight opts))
          (setCss "width" (pxOrNull (o_mapWidth opts)) (svg_css svg)))
       svg).

(** The three checks, in the order of the source. *)
Definition checkMode (opts : renderOpts) : option renderError :=
  match o_mode opts with
  | None | Some "" => Some ModeRequired
  | Some mode =>
      if String.eqb mode "rate+bars" && negb (bool_decide (is_Some (o_bar opts)))
      then Some BarRequired
      else if String.eqb mode "count+callouts"
                && negb (bool_decide (is_Some (o_callouts opts)))
      then Some CalloutsRequired
      else None
  end.

(** The rest of the continuation: paint, label, bind, then bars or
    callouts.  The document is the child of [el] throughout, so [el] ends
    with the final document. *)
Definition drawAll (codeMap : jsobj string) (opts : renderOpts)
  (el : mountEl) (svg : svgdoc) : mountEl :=
  let colorForRate := makeColorForRate (o_rates opts) (o_colors opts) in
  let svg1 := paintRegions svg codeMap (getRate (o_data opts)) colorForRate in
  let svg2 := placeRegionLabels svg1 codeMap (o_labels opts) (o_pieChartData opts) in
  let svg3 := ctl_svg (fst (bindRegionEvents svg2 codeMap opts)) in
  if modeIs opts "rate+bars" then
    MountEl
      [SvgNode svg3;
       BarListNode (buildBars (o_data opts) colorForRate (o_bar opts))]
      (m_css el)
  else if modeIs opts "count+callouts" then
    let bbox := computeBBox svg3 in
    MountEl
      [SvgNode (buildCallouts svg3 codeMap (o_data opts) bbox (o_callouts opts))]
      (m_css el)
  else MountEl [SvgNode svg3] (m_css el).

(** [KorMapChartES5.render(codeMap, mount, opts)]. *)
Definition render (codeMap : jsobj string) (mount : mountArg)
  (opts : renderOpts) : rendered :=
  match ensureMount mount with
  | None => Rendered None (Threw MountNotFound)
  | Some el0 =>
      let el := prepareMount opts el0 in
      match loadSVG (o_svgUrl opts) with
      | None => Rendered (Some el) LoadFailed
      | Some loaded =>
          let svg := mountSvg opts loaded in
          let mounted := MountEl (m_children el ++ [SvgNode svg]) (m_css el) in
          match checkMode opts with
          | Some e => Rendered (Some mounted) (Rejected e)
          | None => Rendered (Some (drawAll codeMap opts mounted svg)) Resolved
          end
      end
  end.

End Render.

(* ===================================================================== *)
(** ** The polyfill of [Array.prototype.at] and the class variant's fallback *)
(* ===================================================================== *)

(** The polyfill at the end of the file: a negative index is counted from
    the length; the read [this[index]] is [undefined] ([None]) outside the
    array. *)
Definition arrayAt {A : Type} (l : list A) (index : Z) : option A :=
  let index :=
    if (index <? 0)%Z then (Z.of_nat (length l) + index)%Z else index in
  if (index <? 0)%Z then None else l !! Z.to_nat index.

(** The fallback of the class variant of [_makeColorForRate]:
    [cs.at(-1) ?? '#D7D7D7']. *)
Definition fallbackColorAt (cs : list (option string)) : string :=
  match mjoin (arrayAt cs (-1)) with
  | Some c => c
  | None => hardDefaultColor
  end.

(* ===================================================================== *)
(** ** Sample inputs *)
(* ===================================================================== *)

(** A document of two regions side by side, without a view box:
    [A] with box (0, 0, 100, 50) and [B] with box (200, 0, 100, 50). *)
Definition twoRegions : svgdoc :=
  let region (x : Q) :=
    Element "path" (BBox (Fin x) (Fin 0) (Fin 100) (Fin 50)) (Some "#ccc") ∅
      None [] in
  SvgDoc None ∅ ["path{fill:#eee;stroke:#fff}"]
    (<["KR-A" := region 0%Q]> (<["KR-B" := region 200%Q]> ∅))
    ["KR-A"; "KR-B"] [] [] [].

(** Two paths side by side, from x = -419.49 and up to x = 426.3. *)
Definition widePaths : svgdoc :=
  let path (x w : Q) :=
    Element "path" (BBox (Fin x) (Fin 0) (Fin w) (Fin 10)) None ∅ None [] in
  SvgDoc None ∅ []
    (<["a" := path (-419.49)%Q 10%Q]> (<["b" := path 0%Q 426.3%Q]> ∅))
    ["a"; "b"] [] [] [].

(** Its code map: the region names and the ids of their elements. *)
Definition twoRegionsMap : jsobj string := [("A", "KR-A"); ("B", "KR-B")].

(** The frame of [twoRegions]. *)
Definition twoRegionsFrame : frame :=
  Frame (Fin 0) (Fin 0) (Fin 300) (Fin 50) (Fin 150).

(** A host for the examples: integers print in decimal, the page has one
    mount element [#mount] with earlier content, and [/map.svg] loads
    [twoRegions]. *)
#[local] Instance sampleHost : Host := {|
  toLocaleString := integralToString;
  randomSuffix := "k3x9q2m1a";
  sliceBBox := fun s =>
    BBox (num_sub (sl_cx s) (sl_radius s)) (num_sub (sl_cy s) (sl_radius s))
      (num_mul (sl_radius s) (Fin 2)) (num_mul (sl_radius s) (Fin 2));
  querySelector := fun selector =>
    if String.eqb selector "#mount"
    then Some (MountEl [PriorNode "<p>loading</p>"] ∅)
    else None;
  loadSVG := fun url =>
    if String.eqb url "/map.svg" then Some twoRegions else None
|}.

(** Options for the examples: callouts with padding 20, a shadow, and
    a click callback. *)
Definition sampleOpts : renderOpts :=
  {| o_mode := Some "count+callouts";
     o_svgUrl := "/map.svg";
     o_data := Some [("A", DNum (Fin 0.87)); ("B", DRec (VNum (Fin 5331)) VNull)];
     o_rates := None;
     o_colors := None;
     o_gap := VUndefined;
     o_mapWidth := VNum (Fin 420);
     o_mapHeight := VUndefined;
     o_labels := None;
     o_pieChartData := None;
     o_bar := None;
     o_callouts :=
       Some (CalloutOpts (VNum (Fin 20)) VUndefined VUndefined None None None);
     o_events :=
       Some (EventOpts None None (Some defaultShadow) false false true);
     o_innerCities := None |}.

(** [opts] with another [mode], [bar] and [callouts]. *)
Definition withMode (mode : option string) (bar : option barOpts)
  (callouts : option calloutOpts) (o : renderOpts) : renderOpts :=
  {| o_mode := mode;
     o_svgUrl := o_svgUrl o;
     o_data := o_data o;
     o_rates := o_rates o;
     o_colors := o_colors o;
     o_gap := o_gap o;
     o_mapWidth := o_mapWidth o;
     o_mapHeight := o_mapHeight o;
     o_labels := o_labels o;
     o_pieChartData := o_pieChartData o;
     o_bar := bar;
     o_callouts := callouts;
     o_events := o_events o;
     o_innerCities := o_innerCities o |}.

(** [opts] with another [innerCities]. *)
Definition withInnerCities (innerCities : option (list string))
  (o : renderOpts) : renderOpts :=
  {| o_mode := o_mode o;
     o_svgUrl := o_svgUrl o;
     o_data := o_data o;
     o_rates := o_rates o;
     o_colors := o_colors o;
     o_gap := o_gap o;
     o_mapWidth := o_mapWidth o;
     o_mapHeight := o_mapHeight o;
     o_labels := o_labels o;
     o_pieChartData := o_pieChartData o;
     o_bar := o_bar o;
     o_callouts := o_callouts o;
     o_events := o_events o;
     o_innerCities := innerCities |}.

(* ===================================================================== *)
(** ** The vocabulary of the properties *)
(* ===================================================================== *)


(** A threshold list in strictly descending order, as [0.8, 0.6, 0.4, 0.2]. *)
Definition descending (th : list number) : Prop :=
  StronglySorted (fun a b => num_gt a b = true) th.

(** Row order: the earlier row has the rate that is not smaller. *)
Definition rateNotBelow (a b : string * number) : Prop :=
  num_ge (snd a) (snd b) = true.

(** The rate under which a row was ranked: that of the datum of its label. *)
Definition rowRate (data : jsobj datum) (row : barRow) : number :=
  entryRate (dataGet data (row_label row)).

(** [item] gets a wedge: its angle is not [=== 0]. *)
Definition drawsWedge (total : number) (item : pieItem) : bool :=
  negb (num_eqb
          (double_mul (double_div (itemData item) total) (Fin 360))
          (Fin 0)).

(** The items that get a wedge under [total]. *)
Definition wedgeItems (total : number) (data : list pieItem) : list pieItem :=
  filter (fun item => drawsWedge total item = true) data.

(** The callouts of the group appended last. *)
Definition lastCallouts (svg : svgdoc) : list callout :=
  match last (svg_layers svg) with
  | Some (CalloutGroup items) => items
  | _ => []
  end.



(** A document as the parser returns it: no listener is bound yet. *)
Definition freshDocument (svg : svgdoc) : Prop :=
  forall code el, svg_elems svg !! code = Some el -> el_listeners el = [].

(** The region elements: the distinct ids of the map that name an element
    of the document. *)
Definition regionElements (codeMap : jsobj string) (svg : svgdoc)
  : list string :=
  remove_dups
    (omap (fun kv : string * string =>
             match getElementById svg (snd kv) with
             | Some _ => Some (snd kv)
             | None => None
             end) codeMap).

(** The region elements in the Selected state: those the selection
    reference points to. *)
Definition selectedRegions (codeMap : jsobj string) (c : controller)
  : list string :=
  filter (fun code => ctl_selectedPath c = Some code)
    (regionElements codeMap (ctl_svg c)).

(** What the handlers never change in an element: the captured styles
    and the listeners. *)
Definition metaOf (e : element) : option styleObj * list string :=
  (el_original e, el_listeners e).

(** Two documents whose elements agree on them, id by id. *)
Definition sameMeta (s1 s2 : svgdoc) : Prop :=
  forall code,
    metaOf <$> (svg_elems s1 !! code) = metaOf <$> (svg_elems s2 !! code).

(** Every element that has listeners has its captured styles. *)
Definition boundHaveStyles (svg : svgdoc) : Prop :=
  forall code el,
    svg_elems svg !! code = Some el -> el_listeners el <> [] ->
    is_Some (el_original el).

(** The selection points to an element of the document that carries the
    listeners of a region of the map. *)
Definition selectionBound (codeMap : jsobj string) (c : controller) : Prop :=
  forall sel,
    ctl_selectedPath c = Some sel ->
    exists el name,
      svg_elems (ctl_svg c) !! sel = Some el
      /\ name ∈ el_listeners el
      /\ In (name, sel) codeMap.

(** The three configuration errors of the options: no mode; mode
    [rate+bars] without [bar]; mode [count+callouts] without [callouts]. *)
Definition missingOption (opts : renderOpts) (e : renderError) : Prop :=
  (e = ModeRequired /\ (o_mode opts = None \/ o_mode opts = Some ""))
  \/ (e = BarRequired /\ o_mode opts = Some "rate+bars" /\ o_bar opts = None)
  \/ (e = CalloutsRequired /\ o_mode opts = Some "count+callouts"
      /\ o_callouts opts = None).

(** What painting, labelling, binding and the callouts would change in
    an element or in the document. *)
Definition drawnState (e : element)
  : styleDecls * option styleObj * list string :=
  (el_style e, el_original e, el_listeners e).


(** The wedges follow one another: the first starts at [start] and each
    next one starts at the angle where the one before ends. *)
Fixpoint chained (start : number) (slices : list slice) : Prop :=
  match slices with
  | [] => True
  | s :: rest => sl_startAngle s = start /\ chained (sl_endAngle s) rest
  end.

(** The items whose value is not zero. *)
Definition nonZeroItems (data : list pieItem) : list pieItem :=
  filter (fun item => num_eqb (itemData item) (Fin 0) = false) data.




(** A box with finite coordinates and sizes. *)
Definition finiteBox (b : bbox) : Prop :=
  isFinite (bb_x b) = true /\ isFinite (bb_y b) = true
  /\ isFinite (bb_width b) = true /\ isFinite (bb_height b) = true.

(** The boxes of the paths as the program reads them. *)
Definition pathDoubles `{Host} (svg : svgdoc) : list bbox :=
  map boxDouble (pathBoxes svg).

(** The right and the bottom edge of a box, as the program adds them. *)
Definition rightEdge (b : bbox) : number := double_add (bb_x b) (bb_width b).

Definition bottomEdge (b : bbox) : number := double_add (bb_y b) (bb_height b).

(** [m] is the least, or the greatest, of the values of [f] on [boxes]: one
    of the boxes has it, and no box is beyond it. *)
Definition leastOf (f : bbox -> number) (boxes : list bbox) (m : number)
  : Prop :=
  (exists b, In b boxes /\ f b = m)
  /\ Forall (fun b => num_le m (f b) = true) boxes.

Definition greatestOf (f : bbox -> number) (boxes : list bbox) (m : number)
  : Prop :=
  (exists b, In b boxes /\ f b = m)
  /\ Forall (fun b => num_le (f b) m = true) boxes.

(** Every character of [s] satisfies [p]. *)
Fixpoint allChars (p : ascii -> bool) (s : string) : bool :=
  match s with
  | EmptyString => true
  | String c rest => p c && allChars p rest
  end.

(** The six properties whose values [_bindRegionEvents] captures. *)
Definition capturedProperties : list string :=
  ["stroke"; "stroke-width"; "opacity"; "cursor"; "filter"; "fill"].

(** The state of the controller after [events], counted from the state
    [_bindRegionEvents] leaves on [svg]. *)
Definition stateAfter `{Host} (svg : svgdoc) (codeMap : jsobj string)
  (opts : renderOpts) (events : list event) : controller :=
  handle codeMap opts (snd (bindRegionEvents svg codeMap opts)) events
    (fst (bindRegionEvents svg codeMap opts)).

(** What no listener changes in an element: its tag, its box and its
    [fill] attribute. *)
Definition fixedOf (e : element) : string * bbox * option string :=
  (el_tag e, el_bbox e, el_fillAttr e).

(** Two documents that differ at most in the inline styles of their
    elements and in the order of the elements. *)
Definition restyledOnly (s1 s2 : svgdoc) : Prop :=
  svg_viewBox s1 = svg_viewBox s2 /\ svg_css s1 = svg_css s2
  /\ svg_sheets s1 = svg_sheets s2 /\ svg_anon s1 = svg_anon s2
  /\ svg_filters s1 = svg_filters s2 /\ svg_layers s1 = svg_layers s2
  /\ forall code,
       fixedOf <$> (svg_elems s1 !! code) = fixedOf <$> (svg_elems s2 !! code).

(** The elements of the inner cities: the ids the map gives the names of
    [innerCities], in the order of the map, where the element exists. *)
Definition innerCityElements (codeMap : jsobj string)
  (innerCities : list string) (svg : svgdoc) : list string :=
  omap (fun kv : string * string =>
          if bool_decide (fst kv ∈ innerCities) then
            match getElementById svg (snd kv) with
            | Some _ => Some (snd kv)
            | None => None
            end
          else None) codeMap.

(** A child order in which the elements [top] are the last children: all
    of them come after every other element. *)
Definition onTop (top : list string) (stack : list string) : Prop :=
  exists below above,
    stack = below ++ above
    /\ (forall k, k ∈ above <-> k ∈ top)
    /\ (forall k, k ∈ below -> k ∉ top).

(** The document in the mount element when [render] ends: its first
    child. *)
Definition mountedSvg (r : rendered) : option svgdoc :=
  match rd_mount r with
  | Some {| m_children := SvgNode svg :: _ |} => Some svg
  | _ => None
  end.

(* ===================================================================== *)
(** * Properties *)
(* ===================================================================== *)

(** ** Order facts on numbers *)

Lemma num_le_Fin (x y : Q) : num_le (Fin x) (Fin y) = true <-> (x <= y)%Q.
Proof. simpl. apply Qle_bool_iff. Qed.

Lemma num_le_Fin_false (x y : Q) :
  num_le (Fin x) (Fin y) = false <-> (y < x)%Q.
Proof.
  simpl. split; intros Hxy.
  - apply Qnot_le_lt. intros Hle. apply Qle_bool_iff in Hle. congruence.
  - apply not_true_is_false. intros Hle. apply Qle_bool_iff in Hle. lra.
Qed.

Lemma num_le_trans (a b c : number) :
  num_le a b = true -> num_le b c = true -> num_le a c = true.
Proof.
  destruct a, b, c; simpl; try congruence.
  rewrite !Qle_bool_iff. lra.
Qed.

Lemma num_le_total (a b : number) :
  a <> NaN -> b <> NaN -> num_le a b = false -> num_le b a = true.
Proof.
  destruct a, b; simpl; try congruence.
  intros _ _ Hab. apply num_le_Fin_false in Hab. apply Qle_bool_iff. lra.
Qed.

(** The comparator of the bar list orders by rate: its result is positive
    exactly when the first rate is the smaller one. *)
Lemma sub_positive_iff_lt (a b : number) :
  a <> NaN -> b <> NaN -> num_lt (Fin 0) (num_sub b a) = num_lt a b.
Proof.
  destruct a as [| |x|], b as [| |y|]; simpl; try congruence.
  intros _ _. f_equal.
  destruct (Qle_bool (y + - x) 0) eqn:E1, (Qle_bool y x) eqn:E2; try reflexivity.
  - apply Qle_bool_iff in E1. apply (num_le_Fin_false y x) in E2. lra.
  - apply Qle_bool_iff in E2. apply (num_le_Fin_false (y + - x) 0) in E1. lra.
Qed.

(** ** The colour scale *)

Lemma clamp01_Fin (r : Q) :
  clamp01 (VNum (Fin r)) =
  Some (mathMin (Fin 1) (mathMax (Fin 0) (Fin r))).
Proof. reflexivity. Qed.

(** The clamp of a finite rate is finite, and it is monotone. *)
Lemma clamp_finite (r : Q) :
  exists q, mathMin (Fin 1) (mathMax (Fin 0) (Fin r)) = Fin q
            /\ (0 <= q <= 1)%Q
            /\ ((0 <= r <= 1)%Q -> (q == r)%Q).
Proof.
  unfold mathMax. simpl num_le.
  destruct (Qle_bool 0 r) eqn:E0.
  - apply Qle_bool_iff in E0. unfold mathMin. simpl num_le.
    destruct (Qle_bool 1 r) eqn:E1.
    + apply Qle_bool_iff in E1. exists 1%Q. split; [reflexivity|]. lra.
    + apply (num_le_Fin_false 1 r) in E1. exists r. split; [reflexivity|]. lra.
  - apply (num_le_Fin_false 0 r) in E0. unfold mathMin. simpl.
    exists 0%Q. split; [reflexivity|]. lra.
Qed.

Lemma clamp_monotone (r1 r2 : Q) :
  (r2 <= r1)%Q ->
  num_le (mathMin (Fin 1) (mathMax (Fin 0) (Fin r2)))
         (mathMin (Fin 1) (mathMax (Fin 0) (Fin r1))) = true.
Proof.
  intros Hle. unfold mathMax. simpl num_le.
  destruct (Qle_bool 0 r1) eqn:A1, (Qle_bool 0 r2) eqn:A2;
    unfold mathMin; simpl num_le;
    repeat match goal with
      | |- context [Qle_bool ?a ?b] =>
          let E := fresh "E" in destruct (Qle_bool a b) eqn:E
      end;
    repeat match goal with
      | Ht : Qle_bool _ _ = true |- _ => apply Qle_bool_iff in Ht
      | Hf : Qle_bool ?a ?b = false |- _ => apply (num_le_Fin_false a b) in Hf
      end;
    try (apply Qle_bool_iff); try reflexivity; try lra;
    try (exfalso; lra).
Qed.

(** Without holes, [cs[i]] is a colour exactly below the length. *)
Lemma colorAt_map_Some (l : list string) (i : nat) :
  colorAt (map Some l) i = l !! i.
Proof.
  unfold colorAt. revert i. induction l as [|c l IH]; intros [|i]; simpl; auto.
Qed.

(** Where the loop can stop: at an index from [i] on that holds a colour, or
    at the last index. *)
Lemma indexLoop_range (th : list number) (l : list string) (i : nat) (r : number) :
  let k := indexLoop th (map Some l) i r in
  (i <= k < length l)%nat \/ k = (length l - 1)%nat.
Proof.
  revert i. induction th as [|t th IH]; intros i; simpl.
  - right. now rewrite length_map.
  - destruct (num_ge r t).
    + rewrite colorAt_map_Some. destruct (l !! i) eqn:E.
      * left. apply lookup_lt_Some in E. lia.
      * right. now rewrite length_map.
    + destruct (IH (S i)) as [Hk|Hk]; [left; lia | right; exact Hk].
Qed.

Lemma indexLoop_monotone (th : list number) (l : list string) (i : nat)
  (r1 r2 : number) :
  num_le r2 r1 = true ->
  (indexLoop th (map Some l) i r1 <= indexLoop th (map Some l) i r2)%nat.
Proof.
  intros Hle. revert i. induction th as [|t th IH]; intros i; simpl.
  - lia.
  - unfold num_ge. destruct (num_le t r2) eqn:E2.
    + rewrite (num_le_trans _ _ _ E2 Hle). lia.
    + destruct (num_le t r1) eqn:E1; [|apply IH].
      rewrite colorAt_map_Some. rewrite length_map.
      pose proof (indexLoop_range th l (S i) r2) as Hr. simpl in Hr.
      destruct (l !! i) eqn:E.
      * apply lookup_lt_Some in E. lia.
      * apply lookup_ge_None in E. lia.
Qed.

(** The colour the loop returns is the one at the index [indexLoop] names,
    as soon as the fallback is the last colour. *)
Lemma colorLoop_at_index (th : list number) (l : list string) (fb : string)
  (i : nat) (r : number) :
  l !! (length l - 1)%nat = Some fb ->
  l !! indexLoop th (map Some l) i r = Some (colorLoop th (map Some l) fb i r).
Proof.
  intros Hfb. revert i. induction th as [|t th IH]; intros i; simpl.
  - now rewrite length_map.
  - destruct (num_ge r t); [|apply IH].
    rewrite colorAt_map_Some. destruct (l !! i) eqn:E; [exact E|].
    now rewrite length_map.
Qed.

Lemma fallbackColor_last (l : list string) (c : string) :
  l !! (length l - 1)%nat = Some c -> fallbackColor (map Some l) = c.
Proof.
  intros Hl. unfold fallbackColor, lastIndexOf. rewrite length_map.
  assert (Hlen : (0 < length l)%nat) by (apply lookup_lt_Some in Hl; lia).
  destruct (0 <=? Z.of_nat (length l) - 1)%Z eqn:E; [|lia].
  replace (Z.to_nat (Z.of_nat (length l) - 1)) with (length l - 1)%nat by lia.
  now rewrite colorAt_map_Some, Hl.
Qed.

Lemma num_gt_blocks (t0 t r : number) :
  num_gt t0 t = true -> num_le r t = true -> num_ge r t0 = false.
Proof.
  unfold num_gt, num_ge, num_lt.
  destruct t0 as [| |x|], t as [| |y|], r as [| |z|]; simpl; try congruence.
  intros Hgt Hle. apply negb_true_iff in Hgt.
  apply (num_le_Fin_false x y) in Hgt. apply Qle_bool_iff in Hle.
  apply (num_le_Fin_false x z). lra.
Qed.

(** A rate equal to the threshold at position [i] stops the loop there. *)
Lemma indexLoop_tie (th : list number) (l : list string) (i j : nat)
  (t r : number) :
  descending th -> th !! i = Some t ->
  num_le r t = true -> num_le t r = true ->
  (j + i < length l)%nat ->
  indexLoop th (map Some l) j r = (j + i)%nat.
Proof.
  intros Hd. revert i j. induction Hd as [|t0 th Hs IH Hall]; intros i j Hi Hrt Htr Hlen.
  - discriminate.
  - destruct i as [|i]; simpl in Hi.
    + injection Hi as ->. simpl. unfold num_ge. rewrite Htr.
      rewrite colorAt_map_Some.
      destruct (l !! j) eqn:E; [lia|]. apply lookup_ge_None in E. lia.
    + simpl. rewrite Forall_forall in Hall.
      rewrite (num_gt_blocks t0 t r); [| apply Hall | exact Hrt].
      * rewrite (IH i (S j)); auto; lia.
      * eapply list_elem_of_lookup_2. exact Hi.
Qed.

(** The scale answers NaN and [undefined] with the fallback, whatever the
    thresholds and colours. *)
Lemma colorFor_NaN (thresholds : option (list number))
  (colors : option (list (option string))) :
  makeColorForRate thresholds colors (VNum NaN)
  = fallbackColor (effColors colors).
Proof. reflexivity. Qed.

Lemma colorFor_undefined (thresholds : option (list number))
  (colors : option (list (option string))) :
  makeColorForRate thresholds colors VUndefined
  = fallbackColor (effColors colors).
Proof. reflexivity. Qed.

(** [null] is read as the rate 0 by [Number(null)]: the scale answers with
    the colour of rate 0. *)
Lemma colorFor_null_is_zero (thresholds : option (list number))
  (colors : option (list (option string))) :
  makeColorForRate thresholds colors VNull
  = makeColorForRate thresholds colors (VNum (Fin 0)).
Proof. reflexivity. Qed.

(** C5, at the input where the code departs from it.  With thresholds
    [0.5, 0] and colours [a, b, c] the fallback is [c]; [colorFor(NaN)] is
    the fallback, but [colorFor(null)] is [b], the colour of the threshold
    0, because [_clamp01(null)] is 0 and not [null]. *)
Theorem colorFor_null_misses_fallback :
  let thresholds := Some [Fin 0.5; Fin 0] in
  let colors := Some [Some "a"; Some "b"; Some "c"] in
  fallbackColor (effColors colors) = "c"
  /\ makeColorForRate thresholds colors (VNum NaN) = "c"
  /\ clamp01 VNull = Some (Fin 0)
  /\ makeColorForRate thresholds colors VNull = "b".
Proof. repeat split; reflexivity. Qed.

(** C6: threshold monotonicity.  For a threshold list paired with a colour
    list one longer, the colour returned for a rate is the one at
    [colorIndexFor]; for rates [r2 <= r1] (finite numbers: a value that is
    not finite is unknown, not a rate) the index chosen for [r1] is at
    most the index chosen for [r2]; and when the thresholds are in
    descending order, a rate in [0, 1] equal to the threshold of position
    [i] gets index [i], the colour of that threshold. *)
Theorem colorFor_threshold_monotone (th : list number) (cs : list string) :
  length cs = S (length th) ->
  let colorFor := makeColorForRate (Some th) (Some (map Some cs)) in
  let indexFor := colorIndexFor (Some th) (Some (map Some cs)) in
  (forall r : Q,
      cs !! indexFor (VNum (Fin r)) = Some (colorFor (VNum (Fin r))))
  /\ (forall r1 r2 : Q, (r2 <= r1)%Q ->
        (indexFor (VNum (Fin r1)) <= indexFor (VNum (Fin r2)))%nat)
  /\ (descending th ->
      forall (i : nat) (t : Q),
        th !! i = Some (Fin t) -> (0 <= t <= 1)%Q ->
        indexFor (VNum (Fin t)) = i
        /\ cs !! i = Some (colorFor (VNum (Fin t)))).
Proof.
  intros Hlen colorFor indexFor.
  assert (Hcs : effColors (Some (map Some cs)) = map Some cs).
  { destruct cs; [discriminate | reflexivity]. }
  assert (Hlast : exists c, cs !! (length cs - 1)%nat = Some c).
  { apply lookup_lt_is_Some. lia. }
  destruct Hlast as [fb Hfb].
  assert (Hcolor : forall r : Q,
    cs !! indexFor (VNum (Fin r)) = Some (colorFor (VNum (Fin r)))).
  { intros r. unfold colorFor, indexFor, makeColorForRate, colorIndexFor.
    rewrite Hcs, clamp01_Fin. rewrite (fallbackColor_last cs fb Hfb).
    now apply colorLoop_at_index. }
  split; [exact Hcolor|]. split.
  - intros r1 r2 Hle. unfold indexFor, colorIndexFor.
    rewrite Hcs, !clamp01_Fin. apply indexLoop_monotone.
    now apply clamp_monotone.
  - intros Hd i t Hi Ht.
    assert (Hidx : indexFor (VNum (Fin t)) = i).
    { unfold indexFor, colorIndexFor. rewrite Hcs, clamp01_Fin.
      destruct (clamp_finite t) as [q [-> [_ Hq]]]. specialize (Hq Ht).
      assert (Hth : effThresholds (Some th) = th).
      { destruct th; [discriminate | reflexivity]. }
      rewrite Hth.
      apply (indexLoop_tie th cs i 0 (Fin t) (Fin q) Hd Hi).
      - apply Qle_bool_iff. lra.
      - apply Qle_bool_iff. lra.
      - apply lookup_lt_Some in Hi. lia. }
    split; [exact Hidx|]. rewrite <- Hidx at 1. apply Hcolor.
Qed.

Lemma colorFor_threshold_monotone_witness :
  let th := [Fin 0.8; Fin 0.6; Fin 0.4; Fin 0.2] in
  let cs := ["c0"; "c1"; "c2"; "c3"; "c4"] in
  (colorIndexFor (Some th) (Some (map Some cs)) (VNum (Fin 0.9))
   <= colorIndexFor (Some th) (Some (map Some cs)) (VNum (Fin 0.3)))%nat
  /\ colorIndexFor (Some th) (Some (map Some cs)) (VNum (Fin 0.6)) = 1%nat.
Proof.
  intros th cs.
  destruct (colorFor_threshold_monotone th cs eq_refl) as [_ [Hmono Htie]].
  split.
  - apply Hmono. discriminate.
  - refine (proj1 (Htie _ 1%nat 0.6%Q eq_refl _)).
    + repeat constructor.
    + split; discriminate.
Defined.

(** ** The bar list *)

Lemma sortInsert_perm {A : Type} (f : A -> A -> number) (x : A) (l : list A) :
  Permutation (sortInsert f x l) (x :: l).
Proof.
  induction l as [|y l IH]; simpl; [reflexivity|].
  destruct (goesAfter f x y); [|reflexivity].
  rewrite IH. apply perm_swap.
Qed.

Lemma arraySort_perm {A : Type} (f : A -> A -> number) (l : list A) :
  Permutation (arraySort f l) l.
Proof.
  induction l as [|x l IH]; simpl; [reflexivity|].
  unfold arraySort in *. simpl. rewrite sortInsert_perm. now rewrite IH.
Qed.

Lemma goesAfter_byRate (x y : string * number) :
  snd x <> NaN -> snd y <> NaN ->
  goesAfter byRateDesc x y = num_lt (snd x) (snd y).
Proof. intros Hx Hy. unfold goesAfter, byRateDesc. now apply sub_positive_iff_lt. Qed.

Lemma num_lt_le (a b : number) : num_lt a b = true -> num_le a b = true.
Proof.
  destruct a as [| |x|], b as [| |y|]; simpl; try congruence.
  intros Hlt. apply negb_true_iff in Hlt. apply (num_le_Fin_false y x) in Hlt.
  apply Qle_bool_iff. lra.
Qed.

Lemma num_lt_false_ge (a b : number) :
  a <> NaN -> b <> NaN -> num_lt a b = false -> num_le b a = true.
Proof.
  destruct a as [| |x|], b as [| |y|]; simpl; try congruence.
  intros _ _ Hlt. now apply negb_false_iff in Hlt.
Qed.

Lemma sortInsert_HdRel (a x : string * number) (l : list (string * number)) :
  HdRel rateNotBelow a l -> rateNotBelow a x ->
  HdRel rateNotBelow a (sortInsert byRateDesc x l).
Proof.
  intros Hl Hx. destruct l as [|y l]; simpl; [now constructor|].
  destruct (goesAfter byRateDesc x y); constructor; [|exact Hx].
  now inversion Hl.
Qed.

Lemma sortInsert_sorted (x : string * number) (l : list (string * number)) :
  snd x <> NaN -> Forall (fun e => snd e <> NaN) l ->
  Sorted rateNotBelow l -> Sorted rateNotBelow (sortInsert byRateDesc x l).
Proof.
  intros Hx Hl Hs. induction Hs as [|y l Hs IH Hd]; simpl.
  - repeat constructor.
  - inversion Hl as [|? ? Hy Hl']; subst.
    rewrite (goesAfter_byRate x y Hx Hy).
    destruct (num_lt (snd x) (snd y)) eqn:E.
    + constructor; [now apply IH|].
      apply sortInsert_HdRel; [exact Hd|].
      unfold rateNotBelow, num_ge. now apply num_lt_le.
    + constructor; [now constructor|]. constructor.
      unfold rateNotBelow, num_ge. now apply num_lt_false_ge.
Qed.

Lemma arraySort_sorted (l : list (string * number)) :
  Forall (fun e => snd e <> NaN) l ->
  Sorted rateNotBelow (arraySort byRateDesc l).
Proof.
  induction 1 as [|x l Hx Hl IH]; simpl; [constructor|].
  apply sortInsert_sorted; auto.
  eapply Permutation_Forall; [symmetry; apply arraySort_perm | exact Hl].
Qed.

#[local] Instance rateNotBelow_trans : Transitive rateNotBelow.
Proof. intros a b c Hab Hbc. unfold rateNotBelow, num_ge in *. eapply num_le_trans; eauto. Qed.

Lemma objGet_NoDup {A : Type} (o : jsobj A) (k : string) (v : A) :
  NoDup (map fst o) -> In (k, v) o -> objGet o k = Some v.
Proof.
  induction o as [|[k0 v0] o IH]; simpl; [tauto|].
  intros Hnd [Heq|Hin].
  - injection Heq as -> ->. now rewrite String.eqb_refl.
  - apply NoDup_cons in Hnd as [Hk0 Hnd].
    destruct (String.eqb_spec k0 k) as [->|Hne]; [|now apply IH].
    exfalso. apply Hk0. apply list_elem_of_In, in_map_iff. now exists (k, v).
Qed.

Lemma StronglySorted_rows (data : jsobj datum) (f : string * number -> barRow)
  (entries : list (string * number)) :
  (forall e, In e entries -> rowRate data (f e) = snd e) ->
  StronglySorted rateNotBelow entries ->
  StronglySorted (fun r1 r2 => num_ge (rowRate data r1) (rowRate data r2) = true)
    (map f entries).
Proof.
  intros Hrate Hs. induction Hs as [|e l Hs IH Hall]; simpl; constructor.
  - apply IH. intros e' He'. apply Hrate. now right.
  - rewrite Forall_map. rewrite Forall_forall in Hall |- *.
    intros e' He'. simpl. rewrite !Hrate.
    + now apply Hall.
    + right. now apply list_elem_of_In.
    + now left.
Qed.

(** C7: the bar builder ranks by rate.  The rate of a bare number is the
    number, the rate of a record is its [rate] field, and a missing rate
    counts as -Infinity.  For a data object with distinct keys and no NaN
    rate, the rows are the keys rearranged so that the rate never increases
    from a row to a later one.  For the data [A: 0.5, B: null, C: 0.9] the
    rows are C, A, B. *)
Theorem buildBars_ranks_by_rate :
  (forall n : number, entryRate (DNum n) = n)
  /\ (forall (count : value) (n : number), entryRate (DRec count (VNum n)) = n)
  /\ entryRate DNone = NegInf
  /\ (forall count : value,
        entryRate (DRec count VNull) = NegInf
        /\ entryRate (DRec count VUndefined) = NegInf)
  /\ (forall (data : jsobj datum) (colorForRate : value -> string)
             (opts : option barOpts),
        NoDup (map fst data) ->
        Forall (fun kv => entryRate (snd kv) <> NaN) data ->
        let rows := buildBars (Some data) colorForRate opts in
        Permutation (map row_label rows) (map fst data)
        /\ StronglySorted
             (fun r1 r2 => num_ge (rowRate data r1) (rowRate data r2) = true)
             rows)
  /\ map row_label
       (buildBars
          (Some [("A", DNum (Fin 0.5)); ("B", DNone); ("C", DNum (Fin 0.9))])
          (makeColorForRate None None) None)
     = ["C"; "A"; "B"].
Proof.
  split; [reflexivity|]. split; [reflexivity|]. split; [reflexivity|].
  split; [intros count; split; reflexivity|]. split; [|reflexivity].
  intros data colorForRate opts Hnd Hnan rows.
  assert (Hperm : Permutation (arraySort byRateDesc (barEntries data))
                    (barEntries data)) by apply arraySort_perm.
  assert (Hkeys : map fst (barEntries data) = map fst data).
  { unfold barEntries. rewrite map_map. reflexivity. }
  split.
  - unfold rows, buildBars. rewrite map_map. simpl.
    change (map (fun x => fst x) (arraySort byRateDesc (barEntries data)))
      with (map fst (arraySort byRateDesc (barEntries data))).
    rewrite <- Hkeys. now apply Permutation_map.
  - unfold rows, buildBars. apply StronglySorted_rows.
    + intros [k r] He. unfold rowRate. simpl.
      apply (Permutation_in _ Hperm) in He.
      unfold barEntries in He. apply in_map_iff in He as [[k' d] [Heq Hin]].
      simpl in Heq. injection Heq as -> <-.
      unfold dataGet. now rewrite (objGet_NoDup data k d Hnd Hin).
    + apply Sorted_StronglySorted; [apply rateNotBelow_trans|].
      apply arraySort_sorted. unfold barEntries. rewrite Forall_map.
      exact Hnan.
Qed.

Lemma buildBars_ranks_by_rate_witness :
  let data := [("A", DNum (Fin 0.5)); ("B", DRec (VNum (Fin 3)) VNull);
               ("C", DRec VUndefined (VNum (Fin 0.9)))] in
  let rows := buildBars (Some data) (makeColorForRate None None) None in
  Permutation (map row_label rows) (map fst data)
  /\ StronglySorted
       (fun r1 r2 => num_ge (rowRate data r1) (rowRate data r2) = true) rows.
Proof.
  intros data rows.
  refine (proj1 (proj2 (proj2 (proj2 (proj2 buildBars_ranks_by_rate))))
            data (makeColorForRate None None) None _ _).
  - repeat constructor; simpl; intros Hin; inversion Hin; subst;
      repeat match goal with
        | Hx : _ ∈ _ |- _ => inversion Hx; clear Hx; subst
        end.
  - repeat constructor; simpl; discriminate.
Defined.

(** The value text of a row is never the placeholder: the rate it prints
    has been replaced by 0 when it was missing. *)
Lemma barRow_value_is_percentage (colorForRate : value -> string)
  (opts : barOpts) (entry : string * number) :
  exists digits : string,
    row_value (barRowOf colorForRate opts entry) = digits +:+ "%".
Proof.
  unfold barRowOf. simpl. unfold clamp01. simpl toNumber.
  destruct (snd entry) as [| |q|]; simpl isFinite; cbv iota.
  1,2,4: (exists "0"; reflexivity).
  destruct (clamp_finite q) as [c [-> _]].
  destruct (num_truthy (Fin c)); eexists; reflexivity.
Qed.

(** C8, at the input where the code departs from it.  For the data
    [B: null] the rate of B is missing; its row shows [0%], not the
    placeholder, because the rate is replaced by 0 before [_fmtPct] sees
    it.  [_fmtPct] itself does answer [null] with the placeholder. *)
Theorem buildBars_missing_rate_shows_zero :
  entryRate DNone = NegInf
  /\ map row_value
       (buildBars (Some [("B", DNone)]) (makeColorForRate None None) None)
     = ["0%"]
  /\ fmtPct VNull = "-".
Proof. repeat split; reflexivity. Qed.

(** ** Rounding *)

Lemma binary64_zero (q : Q) : (q == 0)%Q -> binary64 q = Fin 0.
Proof.
  intros Hq. unfold binary64. now rewrite (proj2 (Qeq_bool_iff q 0) Hq).
Qed.

(** The model rounds as binary64 does: the sum of 0.1 and 0.2 is the
    double 0.30000000000000004; 1 is absorbed by 1e16; the sum of 1e308 and
    1e308 overflows; 2e-324 is below half of the least double. *)
Lemma binary64_known_results :
  double_add (toDouble (Fin 0.1)) (toDouble (Fin 0.2))
  = toDouble (Fin 0.30000000000000004)
  /\ num_eqb (toDouble (Fin 0.30000000000000004)) (toDouble (Fin 0.3)) = false
  /\ double_add (toDouble (Fin 1e16)) (Fin 1) = toDouble (Fin 1e16)
  /\ double_add (toDouble (Fin 1e308)) (toDouble (Fin 1e308)) = PosInf
  /\ toDouble (Fin 2e-324) = Fin 0.
Proof. repeat split; vm_compute; reflexivity. Qed.

(** ** Pie glyphs *)

Lemma itemData_zero (item : pieItem) :
  num_eqb (itemData item) (Fin 0) = true ->
  exists v, itemData item = Fin v /\ (v == 0)%Q.
Proof.
  destruct (itemData item) as [| |v|]; simpl; try discriminate.
  intros Hv. apply Qeq_bool_iff in Hv. now exists v.
Qed.

(** Zeros add up to zero. *)
Lemma pieTotal_of_zeros (data : list pieItem) :
  Forall (fun item => num_eqb (itemData item) (Fin 0) = true) data ->
  pieTotal data = Fin 0.
Proof.
  unfold pieTotal. induction 1 as [|item data Hitem _ IH]; [reflexivity|].
  cbn [fold_left]. destruct (itemData_zero item Hitem) as [v [-> Hv]].
  unfold double_add at 2. cbn [num_add toDouble].
  rewrite binary64_zero by lra. exact IH.
Qed.

(** An item whose value is zero has the angle zero under a total that is a
    number other than zero. *)
Lemma zero_value_no_wedge (t : Q) (item : pieItem) :
  Qeq_bool t 0 = false ->
  num_eqb (itemData item) (Fin 0) = true ->
  drawsWedge (Fin t) item = false.
Proof.
  intros Ht Hitem. destruct (itemData_zero item Hitem) as [v [Hv Hv0]].
  unfold drawsWedge. rewrite Hv. unfold double_div. cbn [num_div].
  rewrite Ht. cbn [toDouble].
  rewrite (binary64_zero (v / t)) by (rewrite Hv0; reflexivity).
  unfold double_mul. cbn [num_mul toDouble].
  rewrite (binary64_zero (0 * 360)) by reflexivity. reflexivity.
Qed.

(** The loop appends one wedge per item whose angle is not zero. *)
Lemma pieLoop_length (cx cy radius innerRadius strokeWidth : number)
  (strokeColor : string) (total cur : number) (data : list pieItem) :
  length (pieLoop cx cy radius innerRadius strokeWidth strokeColor total cur
            data)
  = length (wedgeItems total data).
Proof.
  unfold wedgeItems. revert cur.
  induction data as [|item data IH]; intros cur; [reflexivity|].
  cbn [pieLoop]. rewrite filter_cons.
  destruct (num_eqb (double_mul (double_div (itemData item) total) (Fin 360))
              (Fin 0)) eqn:Eangle.
  - rewrite decide_False; [apply IH|].
    unfold drawsWedge. rewrite Eangle. discriminate.
  - rewrite decide_True; [cbn [length]; now rewrite IH|].
    unfold drawsWedge. now rewrite Eangle.
Qed.

(** C9 as stated fails: the values -3 and 1 sum to -2, which is not
    positive, and the glyph has two wedges. *)
Lemma createPieChart_negative_sum_draws :
  let data := [PieItem (Some "loss") (VNum (Fin (-3))) None;
               PieItem (Some "gain") (VNum (Fin 1)) None] in
  num_le (pieTotal data) (Fin 0) = true
  /\ length (createPieChart (Fin 0) (Fin 0) data noPieOpts) = 2%nat.
Proof. split; vm_compute; reflexivity. Qed.

(** C9, amended: the pie builder returns the empty glyph for every input
    list whose total, added value by value in binary64 as the program adds
    it, is exactly zero, and in particular whenever every value is zero or
    missing.  Any other total, a negative one included, passes the guard:
    the glyph then has one wedge per item whose angle, value / total * 360,
    is not zero. *)
Theorem createPieChart_empty_on_zero_sum (cx cy : number)
  (data : list pieItem) (opts : pieOpts) :
  (num_eqb (pieTotal data) (Fin 0) = true ->
   createPieChart cx cy data opts = [])
  /\ (Forall (fun item => num_eqb (itemData item) (Fin 0) = true) data ->
      createPieChart cx cy data opts = [])
  /\ (num_eqb (pieTotal data) (Fin 0) = false ->
      length (createPieChart cx cy data opts)
      = length (wedgeItems (pieTotal data) data)).
Proof.
  unfold createPieChart. split; [|split].
  - intros Htotal. now rewrite Htotal.
  - intros Hzero. now rewrite (pieTotal_of_zeros data Hzero).
  - intros Htotal. rewrite Htotal. apply pieLoop_length.
Qed.

Lemma createPieChart_empty_on_zero_sum_witness :
  createPieChart (Fin 10) (Fin 10)
    [PieItem (Some "in") (VNum (Fin 2)) None;
     PieItem (Some "out") (VNum (Fin (-2))) None] noPieOpts = []
  /\ createPieChart (Fin 10) (Fin 10)
       [PieItem None (VNum (Fin 1e16)) None;
        PieItem None (VNum (Fin 1)) None;
        PieItem None (VNum (Fin (-1e16))) None] noPieOpts = []
  /\ createPieChart (Fin 10) (Fin 10)
       [PieItem None VNull None; PieItem None (VNum (Fin 0)) None] noPieOpts
     = []
  /\ length (createPieChart (Fin 10) (Fin 10)
               [PieItem None (VNum (Fin (-1))) None] noPieOpts) = 1%nat.
Proof.
  split; [|split; [|split]].
  - apply (proj1 (createPieChart_empty_on_zero_sum (Fin 10) (Fin 10) _ noPieOpts)).
    vm_compute. reflexivity.
  - apply (proj1 (createPieChart_empty_on_zero_sum (Fin 10) (Fin 10) _ noPieOpts)).
    vm_compute. reflexivity.
  - apply (proj1 (proj2 (createPieChart_empty_on_zero_sum (Fin 10) (Fin 10) _
                           noPieOpts))).
    repeat constructor.
  - rewrite (proj2 (proj2 (createPieChart_empty_on_zero_sum (Fin 10) (Fin 10) _
                             noPieOpts))) by (vm_compute; reflexivity).
    vm_compute. reflexivity.
Defined.

(** ** Callouts *)

Section CalloutFacts.
Context `{Host}.

Lemma lastCallouts_buildCallouts (svg : svgdoc) (codeMap : jsobj string)
  (dataMap : option (jsobj datum)) (bbox : frame) (opts : option calloutOpts) :
  lastCallouts (buildCallouts svg codeMap dataMap bbox opts)
  = calloutLoop svg
      (match dataMap with Some d => d | None => [] end) bbox
      (match opts with Some o => o | None => noCalloutOpts end) codeMap.
Proof.
  unfold lastCallouts, buildCallouts. simpl. rewrite last_snoc.
  generalize (match dataMap with Some d => d | None => [] end).
  generalize (match opts with Some o => o | None => noCalloutOpts end).
  intros o d. induction codeMap as [|[name code] rest IH]; simpl; [reflexivity|].
  unfold getElementById in *. simpl.
  destruct (svg_elems svg !! code); now rewrite IH.
Qed.

(** Every callout of the loop comes from a region of the map whose element
    exists, and every such region gets one. *)
Lemma calloutLoop_In (svg : svgdoc) (dataMap : jsobj datum) (bbox : frame)
  (opts : calloutOpts) (codeMap : jsobj string) (c : callout) :
  In c (calloutLoop svg dataMap bbox opts codeMap) <->
  exists name code el,
    In (name, code) codeMap /\ getElementById svg code = Some el
    /\ c = calloutOf dataMap bbox opts name el.
Proof.
  induction codeMap as [|[name code] rest IH]; simpl.
  - split; [tauto | intros (? & ? & ? & [] & _)].
  - destruct (getElementById svg code) as [el|] eqn:E; simpl; rewrite IH; split.
    + intros [<-|(n & k & e & Hin & Hel & ->)].
      * exists name, code, el. auto.
      * exists n, k, e. auto.
    + intros (n & k & e & [Heq|Hin] & Hel & ->).
      * injection Heq as <- <-. left. congruence.
      * right. exists n, k, e. auto.
    + intros (n & k & e & Hin & Hel & ->). exists n, k, e. auto.
    + intros (n & k & e & [Heq|Hin] & Hel & ->).
      * injection Heq as <- <-. congruence.
      * exists n, k, e. auto.
Qed.


End CalloutFacts.







(** C10: for every region whose datum is a bare number, the default
    formatter treats the count as absent: the region's callout reads
    [<name> : -]. *)
Theorem callout_text_of_bare_number `{Host} (svg : svgdoc)
  (codeMap : jsobj string) (data : jsobj datum) (bbox : frame)
  (opts : calloutOpts) (name code : string) (el : element) (n : number) :
  co_formatter opts = None ->
  In (name, code) codeMap ->
  getElementById svg code = Some el ->
  dataGet data name = DNum n ->
  let callouts :=
    lastCallouts (buildCallouts svg codeMap (Some data) bbox (Some opts)) in
  (exists c, In c callouts /\ ca_name c = name)
  /\ (forall c, In c callouts -> ca_name c = name ->
        ca_text c = name +:+ " : -").
Proof.
  intros Hfmt Hin Hel Hdata callouts. unfold callouts.
  rewrite lastCallouts_buildCallouts. split.
  - exists (calloutOf data bbox opts name el). split; [|reflexivity].
    apply calloutLoop_In. exists name, code, el. auto.
  - intros c Hc Hname.
    apply calloutLoop_In in Hc as (name' & code' & el' & _ & _ & ->).
    simpl in Hname. subst name'. simpl. now rewrite Hfmt, Hdata.
Qed.

Lemma callout_text_of_bare_number_witness :
  exists c,
    In c (lastCallouts
            (buildCallouts twoRegions twoRegionsMap
               (Some [("A", DNum (Fin 0.87)); ("B", DRec (VNum (Fin 5331)) VNull)])
               twoRegionsFrame (Some noCalloutOpts)))
    /\ ca_name c = "A" /\ ca_text c = "A : -".
Proof.
  destruct (callout_text_of_bare_number twoRegions twoRegionsMap
              [("A", DNum (Fin 0.87)); ("B", DRec (VNum (Fin 5331)) VNull)]
              twoRegionsFrame noCalloutOpts "A" "KR-A"
              (Element "path" (BBox (Fin 0) (Fin 0) (Fin 100) (Fin 50))
                 (Some "#ccc") ∅ None [])
              (Fin 0.87) eq_refl (or_introl eq_refl) eq_refl eq_refl)
    as [[c [Hin Hname]] Htext].
  exists c. split; [exact Hin|]. split; [exact Hname|].
  now apply Htext.
Defined.

(** ** The interaction controller *)

Lemma sameMeta_refl (s : svgdoc) : sameMeta s s.
Proof. intros code. reflexivity. Qed.

(** A branch of a handler that leaves the document as it is. *)
Ltac unchanged :=
  split;
  [ apply sameMeta_refl
  | first [ reflexivity | assumption | exact I | now left | now right | auto ] ].

Lemma sameMeta_trans (s1 s2 s3 : svgdoc) :
  sameMeta s1 s2 -> sameMeta s2 s3 -> sameMeta s1 s3.
Proof. intros H12 H23 code. now rewrite H12. Qed.

Lemma sameMeta_updateStyle (code : string) (f : styleDecls -> styleDecls)
  (s : svgdoc) : sameMeta s (updateStyle code f s).
Proof.
  intros k. unfold updateStyle. simpl. rewrite lookup_alter.
  destruct (decide (code = k)) as [->|Hne]; [|reflexivity].
  now destruct (svg_elems s !! k).
Qed.

Lemma sameMeta_raiseToTop (code : string) (s : svgdoc) :
  sameMeta s (raiseToTop code s).
Proof. intros k. reflexivity. Qed.

Lemma sameMeta_lookup (s1 s2 : svgdoc) (code : string) (el : element) :
  sameMeta s1 s2 -> svg_elems s1 !! code = Some el ->
  exists el', svg_elems s2 !! code = Some el' /\ metaOf el' = metaOf el.
Proof.
  intros Hm Hel. specialize (Hm code). rewrite Hel in Hm. simpl in Hm.
  destruct (svg_elems s2 !! code) as [el'|]; [|discriminate].
  exists el'. split; [reflexivity|]. simpl in Hm. congruence.
Qed.

Lemma sameMeta_sym (s1 s2 : svgdoc) : sameMeta s1 s2 -> sameMeta s2 s1.
Proof. intros H code. now rewrite H. Qed.

Lemma boundHaveStyles_sameMeta (s1 s2 : svgdoc) :
  sameMeta s1 s2 -> boundHaveStyles s1 -> boundHaveStyles s2.
Proof.
  intros Hm Hb code el Hel Hl.
  destruct (sameMeta_lookup s2 s1 code el (sameMeta_sym _ _ Hm) Hel)
    as [el1 [Hel1 Hmeta]].
  unfold metaOf in Hmeta. injection Hmeta as Ho Hls.
  rewrite <- Ho. apply (Hb code el1 Hel1). congruence.
Qed.

Lemma regionElements_sameMeta (codeMap : jsobj string) (s1 s2 : svgdoc) :
  sameMeta s1 s2 -> regionElements codeMap s1 = regionElements codeMap s2.
Proof.
  intros Hm. unfold regionElements. f_equal.
  induction codeMap as [|[name code] rest IH]; [reflexivity|].
  cbn [omap list_omap]. rewrite IH. unfold getElementById. simpl.
  specialize (Hm code).
  destruct (svg_elems s1 !! code), (svg_elems s2 !! code);
    try discriminate; reflexivity.
Qed.

(** On a list without repetition, at most one entry is the selected one. *)
Lemma at_most_one_selected (l : list string) (sel : option string) :
  NoDup l -> (length (filter (fun code => sel = Some code) l) <= 1)%nat.
Proof.
  induction 1 as [|x l Hx Hnd IH]; [simpl; lia|].
  rewrite filter_cons. destruct (decide (sel = Some x)) as [->|Hne]; [|exact IH].
  assert (Hnone : filter (fun code => Some x = Some code) l = []).
  { clear IH Hnd. induction l as [|y l IHl]; [reflexivity|].
    rewrite filter_cons.
    destruct (decide (Some x = Some y)) as [Heq|_].
    - injection Heq as ->. exfalso. apply Hx. left.
    - apply IHl. intros Hin. apply Hx. now right. }
  rewrite Hnone. simpl. lia.
Qed.

Lemma logCall_svg (given : bool) (call : callbackCall) (c : controller) :
  ctl_svg (logCall given call c) = ctl_svg c.
Proof. now destruct given. Qed.

Lemma logCall_selected (given : bool) (call : callbackCall) (c : controller) :
  ctl_selectedPath (logCall given call c) = ctl_selectedPath c.
Proof. now destruct given. Qed.

Lemma objGet_In {A : Type} (o : jsobj A) (k : string) (v : A) :
  objGet o k = Some v -> In (k, v) o.
Proof.
  induction o as [|[k0 v0] o IH]; simpl; [discriminate|].
  destruct (String.eqb_spec k0 k) as [->|Hne].
  - intros [= ->]. now left.
  - intros Hget. right. now apply IH.
Qed.

Section HandlerFacts.
Context (codeMap : jsobj string) (ev : eventOpts) (innerCities : list string)
  (shadowFilterId : option string).

Lemma sameMeta_raiseInnerCities (s : svgdoc) :
  sameMeta s (raiseInnerCities codeMap innerCities s).
Proof.
  unfold raiseInnerCities. generalize codeMap as m. intros m. revert s.
  induction m as [|[name code] rest IH]; intros s; simpl;
    [apply sameMeta_refl|].
  eapply sameMeta_trans; [|apply IH].
  destruct (bool_decide (name ∈ innerCities)); [|apply sameMeta_refl].
  destruct (getElementById s code);
    [apply sameMeta_raiseToTop | apply sameMeta_refl].
Qed.

(** Deselecting keeps the elements' captured styles and listeners, and
    leaves the selection empty or as it was. *)
Lemma deselectRegion_effect (c : controller) :
  let c' := stateOf (deselectRegion ev c) in
  sameMeta (ctl_svg c) (ctl_svg c')
  /\ (ctl_selectedPath c' = None \/ c' = c).
Proof.
  unfold deselectRegion. destruct (ctl_selectedPath c) as [sel|] eqn:Esel; simpl.
  - destruct (getElementById (ctl_svg c) sel) as [[tag box fa st [orig|] ls]|];
      simpl; try (unchanged).
    split; [apply sameMeta_updateStyle | now left].
  - unchanged.
Qed.

(** With the invariants, deselecting ends normally with no selection. *)
Lemma deselectRegion_clears (c : controller) :
  selectionBound codeMap c -> boundHaveStyles (ctl_svg c) ->
  ctl_selectedPath (stateOf (deselectRegion ev c)) = None.
Proof.
  intros Hsel Hbound. unfold deselectRegion.
  destruct (ctl_selectedPath c) as [sel|] eqn:Esel; [|exact Esel].
  destruct (Hsel sel Esel) as (el & name & Hel & Hname & _).
  unfold getElementById. rewrite Hel.
  destruct (Hbound sel el Hel) as [orig Horig].
  { intros Hnil. rewrite Hnil in Hname. inversion Hname. }
  destruct el as [tag box fa st o ls]. simpl in Horig. subst o. reflexivity.
Qed.

Lemma mouseenter_effect (name code : string) (c : controller) :
  let c' := stateOf (mouseenter codeMap ev innerCities shadowFilterId name code c) in
  sameMeta (ctl_svg c) (ctl_svg c') /\ ctl_selectedPath c' = ctl_selectedPath c.
Proof.
  unfold mouseenter. destruct (getElementById (ctl_svg c) code); simpl;
    [|unchanged].
  rewrite logCall_svg, logCall_selected. simpl.
  destruct (bool_decide (name ∈ innerCities)); simpl.
  - split; [apply sameMeta_updateStyle | reflexivity].
  - split; [|reflexivity].
    eapply sameMeta_trans; [|apply sameMeta_updateStyle].
    eapply sameMeta_trans; [|apply sameMeta_raiseInnerCities].
    destruct (ctl_selectedPath c) as [sel|]; [|apply sameMeta_raiseToTop].
    eapply sameMeta_trans; apply sameMeta_raiseToTop.
Qed.

Lemma mouseleave_effect (name code : string) (c : controller) :
  let c' := stateOf (mouseleave ev name code c) in
  sameMeta (ctl_svg c) (ctl_svg c') /\ ctl_selectedPath c' = ctl_selectedPath c.
Proof.
  unfold mouseleave. destruct (getElementById (ctl_svg c) code) as [p|]; simpl;
    [|unchanged].
  destruct (bool_decide (ctl_selectedPath c = Some code)); simpl.
  - rewrite logCall_svg, logCall_selected. unchanged.
  - destruct (el_original p); simpl.
    + rewrite logCall_svg, logCall_selected. simpl.
      split; [apply sameMeta_updateStyle | reflexivity].
    + unchanged.
Qed.

Lemma click_effect (name code : string) (c : controller) :
  let c' := stateOf (click codeMap ev innerCities shadowFilterId name code c) in
  sameMeta (ctl_svg c) (ctl_svg c')
  /\ (ctl_selectedPath c' = ctl_selectedPath c
      \/ ctl_selectedPath c' = Some code).
Proof.
  unfold click. destruct (getElementById (ctl_svg c) code) as [p|]; simpl;
    [|unchanged].
  assert (Hd : exists r,
    match ctl_selectedPath c with
    | Some sel => if bool_decide (sel ≠ code) then deselectRegion ev c else Normal c
    | None => Normal c
    end = r
    /\ sameMeta (ctl_svg c) (ctl_svg (stateOf r))
    /\ (match r with TypeError c1 => c1 = c | Normal _ => True end)).
  { destruct (ctl_selectedPath c) as [sel|] eqn:Esel.
    - destruct (bool_decide (sel ≠ code)).
      + eexists. split; [reflexivity|].
        destruct (deselectRegion_effect c) as [Hm Hs]. split; [exact Hm|].
        unfold deselectRegion in *. rewrite Esel in *.
        destruct (getElementById (ctl_svg c) sel) as [[tag box fa st [orig|] ls]|];
          simpl; auto.
      + eexists. split; [reflexivity|]. unchanged.
    - eexists. split; [reflexivity|]. unchanged. }
  destruct Hd as (r & -> & Hm & Hr). destruct r as [c1|c1]; simpl in *.
  - rewrite logCall_svg, logCall_selected.
    destruct (bool_decide (ctl_selectedPath c1 ≠ Some code)) eqn:E; simpl.
    + split; [|now right].
      eapply sameMeta_trans; [exact Hm|].
      eapply sameMeta_trans; [|apply sameMeta_raiseInnerCities].
      eapply sameMeta_trans; [|apply sameMeta_raiseToTop].
      apply sameMeta_updateStyle.
    + split; [exact Hm|]. right.
      apply bool_decide_eq_false in E. now apply dec_stable in E.
  - subst c1. unchanged.
Qed.

Lemma boundCode_Some (c : controller) (name code : string) :
  boundCode codeMap c name = Some code ->
  exists el,
    svg_elems (ctl_svg c) !! code = Some el
    /\ name ∈ el_listeners el /\ In (name, code) codeMap.
Proof.
  unfold boundCode. destruct (objGet codeMap name) as [k|] eqn:Eget; [|discriminate].
  unfold getElementById. destruct (svg_elems (ctl_svg c) !! k) as [p|] eqn:Ep;
    [|discriminate].
  destruct (bool_decide (name ∈ el_listeners p)) eqn:Ein; [|discriminate].
  intros [= <-]. exists p. split; [exact Ep|].
  split; [now apply bool_decide_eq_true in Ein | now apply objGet_In].
Qed.

(** One event keeps the captured styles and listeners of every element, and
    keeps the selection on a bound region element. *)
Lemma dispatch_invariant (e : event) (c : controller) :
  selectionBound codeMap c ->
  let c' := stateOf (dispatch codeMap ev innerCities shadowFilterId e c) in
  sameMeta (ctl_svg c) (ctl_svg c') /\ selectionBound codeMap c'.
Proof.
  intros Hsel c'.
  assert (Hkeep : forall c1 : controller,
    sameMeta (ctl_svg c) (ctl_svg c1) ->
    ctl_selectedPath c1 = ctl_selectedPath c -> selectionBound codeMap c1).
  { intros c1 Hm Hs sel Hsel1. rewrite Hs in Hsel1.
    destruct (Hsel sel Hsel1) as (el & name & Hel & Hname & Hin).
    destruct (sameMeta_lookup _ _ sel el Hm Hel) as (el1 & Hel1 & Hmeta).
    exists el1, name. injection Hmeta as _ Hls. rewrite Hls. auto. }
  assert (Hnone : forall c1 : controller,
    ctl_selectedPath c1 = None -> selectionBound codeMap c1).
  { intros c1 Hs sel Hsel1. congruence. }
  unfold c', dispatch. destruct e as [name|name|name|t].
  - destruct (boundCode codeMap c name) as [code|];
      [|unchanged].
    destruct (mouseenter_effect name code c) as [Hm Hs]. auto.
  - destruct (boundCode codeMap c name) as [code|];
      [|unchanged].
    destruct (mouseleave_effect name code c) as [Hm Hs]. auto.
  - destruct (boundCode codeMap c name) as [code|] eqn:Ebound;
      [|unchanged].
    destruct (click_effect name code c) as [Hm [Hs|Hs]]; [auto|].
    split; [exact Hm|]. intros sel Hsel1. rewrite Hs in Hsel1.
    injection Hsel1 as <-.
    destruct (boundCode_Some c name code Ebound) as (el & Hel & Hname & Hin).
    destruct (sameMeta_lookup _ _ code el Hm Hel) as (el1 & Hel1 & Hmeta).
    exists el1, name. injection Hmeta as _ Hls. rewrite Hls. auto.
  - assert (Hdes : sameMeta (ctl_svg c) (ctl_svg (stateOf (deselectRegion ev c)))
                   /\ selectionBound codeMap (stateOf (deselectRegion ev c))).
    { destruct (deselectRegion_effect c) as [Hm [Hs| ->]]; auto.
      unchanged. }
    unfold windowClick. destruct t as [|tagName]; [exact Hdes|].
    destruct (String.eqb tagName "svg"); [exact Hdes|].
    unchanged.
Qed.

Lemma dispatchAll_invariant (events : list event) (c : controller) :
  selectionBound codeMap c -> boundHaveStyles (ctl_svg c) ->
  let c' := dispatchAll codeMap ev innerCities shadowFilterId events c in
  sameMeta (ctl_svg c) (ctl_svg c')
  /\ selectionBound codeMap c' /\ boundHaveStyles (ctl_svg c').
Proof.
  revert c. induction events as [|e events IH]; intros c Hsel Hbound; simpl.
  - unchanged.
  - destruct (dispatch_invariant e c Hsel) as [Hm Hsel1].
    pose proof (boundHaveStyles_sameMeta _ _ Hm Hbound) as Hbound1.
    destruct (IH _ Hsel1 Hbound1) as (Hm2 & Hsel2 & Hbound2).
    split; [eapply sameMeta_trans; eauto | auto].
Qed.

Lemma dispatchAll_app (events1 events2 : list event) (c : controller) :
  dispatchAll codeMap ev innerCities shadowFilterId (events1 ++ events2) c
  = dispatchAll codeMap ev innerCities shadowFilterId events2
      (dispatchAll codeMap ev innerCities shadowFilterId events1 c).
Proof. unfold dispatchAll. apply fold_left_app. Qed.

End HandlerFacts.

Lemma bindLoop_boundHaveStyles (svg : svgdoc) (codeMap : jsobj string) :
  boundHaveStyles svg -> boundHaveStyles (bindLoop svg codeMap).
Proof.
  revert svg. induction codeMap as [|[name code] rest IH]; intros svg Hb; simpl;
    [exact Hb|].
  apply IH. destruct (getElementById svg code); [|exact Hb].
  intros k el. simpl. rewrite lookup_alter.
  destruct (decide (code = k)) as [->|Hne]; [|apply Hb].
  destruct (svg_elems svg !! k) as [p|]; [|discriminate].
  simpl. intros [= <-] _. simpl. eauto.
Qed.

Lemma regionElements_In (codeMap : jsobj string) (svg : svgdoc)
  (name code : string) (el : element) :
  In (name, code) codeMap -> svg_elems svg !! code = Some el ->
  code ∈ regionElements codeMap svg.
Proof.
  intros Hin Hel. unfold regionElements. apply elem_of_remove_dups.
  apply list_elem_of_omap. exists (name, code).
  split; [now apply list_elem_of_In|]. unfold getElementById. simpl.
  now rewrite Hel.
Qed.

(** C1: single selection.  From the state [_bindRegionEvents] leaves on a
    freshly parsed document, after any finite sequence of mouseenter,
    mouseleave, click and window-click events at most one region element is
    Selected, and the selection reference, when set, points to a region
    element; after a further background click (a window click whose target
    is the root SVG) the selection reference is empty and no region is
    Selected. *)
Theorem single_selection `{Host} (svg : svgdoc) (codeMap : jsobj string)
  (opts : renderOpts) (events : list event) :
  freshDocument svg ->
  let bound := bindRegionEvents svg codeMap opts in
  let after := handle codeMap opts (snd bound) events (fst bound) in
  let afterBackground :=
    handle codeMap opts (snd bound) (events ++ [WindowClick TargetRoot])
      (fst bound) in
  (length (selectedRegions codeMap after) <= 1)%nat
  /\ (forall sel, ctl_selectedPath after = Some sel ->
        In sel (selectedRegions codeMap after))
  /\ ctl_selectedPath afterBackground = None
  /\ selectedRegions codeMap afterBackground = [].
Proof.
  intros Hfresh bound after afterBackground.
  set (ev := match o_events opts with Some e => e | None => noEventOpts end).
  set (inner := match o_innerCities opts with Some l => l | None => [] end).
  assert (Hinit : selectionBound codeMap (fst bound)
                  /\ boundHaveStyles (ctl_svg (fst bound))).
  { unfold bound, bindRegionEvents. fold ev.
    assert (Hb0 : boundHaveStyles svg).
    { intros code el Hel Hl. exfalso. apply Hl. eapply Hfresh; eauto. }
    destruct (ev_shadow ev) as [so|]; simpl.
    - split; [intros sel Hs; discriminate|].
      apply bindLoop_boundHaveStyles. exact Hb0.
    - split; [intros sel Hs; discriminate|].
      now apply bindLoop_boundHaveStyles. }
  destruct Hinit as [Hsel0 Hb0].
  destruct (dispatchAll_invariant codeMap ev inner (snd bound) events
              (fst bound) Hsel0 Hb0) as (_ & Hsel & Hb).
  fold (handle codeMap opts (snd bound) events (fst bound)) in Hsel, Hb.
  fold after in Hsel, Hb.
  assert (Hnone : ctl_selectedPath afterBackground = None).
  { unfold afterBackground, handle. rewrite dispatchAll_app. simpl.
    now apply (deselectRegion_clears codeMap). }
  split; [|split; [|split; [exact Hnone|]]].
  - unfold selectedRegions. apply at_most_one_selected.
    unfold regionElements. apply NoDup_remove_dups.
  - intros sel Hs. destruct (Hsel sel Hs) as (el & name & Hel & _ & Hin).
    apply list_elem_of_In. unfold selectedRegions.
    apply list_elem_of_filter. split; [exact Hs|].
    eapply regionElements_In; eauto.
  - unfold selectedRegions. rewrite Hnone.
    induction (regionElements codeMap (ctl_svg afterBackground)) as [|x l IH];
      [reflexivity|].
    rewrite filter_cons. destruct (decide (None = Some x)); [discriminate|].
    exact IH.
Qed.

Lemma single_selection_witness :
  let bound := bindRegionEvents twoRegions twoRegionsMap sampleOpts in
  let events := [MouseEnter "A"; Click "A"; MouseLeave "A"; Click "B"] in
  selectedRegions twoRegionsMap
    (handle twoRegionsMap sampleOpts (snd bound) events (fst bound))
  = ["KR-B"]
  /\ ctl_selectedPath
       (handle twoRegionsMap sampleOpts (snd bound)
          (events ++ [WindowClick TargetRoot]) (fst bound)) = None.
Proof.
  intros bound events. split; [reflexivity|].
  refine (proj1 (proj2 (proj2
            (single_selection twoRegions twoRegionsMap sampleOpts events _)))).
  intros code el Hel.
  unfold twoRegions in Hel. simpl in Hel.
  apply lookup_insert_Some in Hel as [[_ <-]|[_ Hel]]; [reflexivity|].
  apply lookup_insert_Some in Hel as [[_ <-]|[_ Hel]]; [reflexivity|].
  rewrite lookup_empty in Hel. discriminate.
Defined.

(** ** The entry point *)

Lemma checkMode_missingOption (opts : renderOpts) (e : renderError) :
  missingOption opts e -> checkMode opts = Some e.
Proof.
  unfold checkMode.
  intros [[-> [Hm|Hm]] | [[-> [Hm Hb]] | [-> [Hm Hc]]]]; rewrite Hm; try reflexivity.
  - rewrite Hb. reflexivity.
  - rewrite Hc. reflexivity.
Qed.

(** C2 as stated fails: the page has a mount element with earlier content
    and the document loads; without a mode the promise is rejected, but by
    then the earlier content is gone and the document is mounted.  The same
    happens for mode [rate+bars] without [bar]. *)
Lemma render_error_after_mounting :
  let noMode := withMode None None None sampleOpts in
  let noBar := withMode (Some "rate+bars") None None sampleOpts in
  ensureMount (BySelector "#mount")
  = Some (MountEl [PriorNode "<p>loading</p>"] ∅)
  /\ rd_outcome (render twoRegionsMap (BySelector "#mount") noMode)
     = Rejected ModeRequired
  /\ m_children <$> rd_mount (render twoRegionsMap (BySelector "#mount") noMode)
     = Some [SvgNode (mountSvg noMode twoRegions)]
  /\ m_children <$> rd_mount (render twoRegionsMap (BySelector "#mount") noMode)
     <> Some [PriorNode "<p>loading</p>"]
  /\ rd_outcome (render twoRegionsMap (BySelector "#mount") noBar)
     = Rejected BarRequired
  /\ m_children <$> rd_mount (render twoRegionsMap (BySelector "#mount") noBar)
     = Some [SvgNode (mountSvg noBar twoRegions)].
Proof. repeat split; try reflexivity. discriminate. Qed.

(** C2, amended: if [options.mode] is missing, or the mode is [rate+bars]
    without a bar option, or [count+callouts] without a callouts option,
    then, once the mount element is found and the document has loaded,
    render fails with the matching error after it has emptied and styled
    the container and mounted the sized document stripped of its fills,
    and before it paints, labels, binds listeners or adds bars or callouts:
    the container holds the document alone, whose layers, filters, view box
    and element styles and listeners are those of the loaded document. *)
Theorem render_fails_after_mount_before_drawing `{Host}
  (codeMap : jsobj string) (mount : mountArg) (opts : renderOpts)
  (el0 : mountEl) (loaded : svgdoc) (e : renderError) :
  missingOption opts e ->
  ensureMount mount = Some el0 ->
  loadSVG (o_svgUrl opts) = Some loaded ->
  let mounted := mountSvg opts loaded in
  render codeMap mount opts
  = Rendered (Some (MountEl [SvgNode mounted] (m_css (prepareMount opts el0))))
      (Rejected e)
  /\ svg_layers mounted = svg_layers loaded
  /\ svg_filters mounted = svg_filters loaded
  /\ svg_viewBox mounted = svg_viewBox loaded
  /\ svg_stack mounted = svg_stack loaded
  /\ (forall code,
        drawnState <$> getElementById mounted code
        = drawnState <$> getElementById loaded code).
Proof.
  intros Hmiss Hmount Hload mounted. unfold render.
  rewrite Hmount, Hload, (checkMode_missingOption opts e Hmiss).
  repeat split.
  intros code. unfold mounted, mountSvg, clearSvgFillStyles, getElementById.
  simpl. rewrite lookup_fmap. now destruct (svg_elems loaded !! code).
Qed.

Lemma render_fails_after_mount_before_drawing_witness :
  render twoRegionsMap (BySelector "#mount")
    (withMode (Some "count+callouts") None None sampleOpts)
  = Rendered
      (Some (MountEl
               [SvgNode (mountSvg
                           (withMode (Some "count+callouts") None None sampleOpts)
                           twoRegions)]
               (m_css (prepareMount
                         (withMode (Some "count+callouts") None None sampleOpts)
                         (MountEl [PriorNode "<p>loading</p>"] ∅)))))
      (Rejected CalloutsRequired).
Proof.
  refine (proj1 (render_fails_after_mount_before_drawing twoRegionsMap
                   (BySelector "#mount")
                   (withMode (Some "count+callouts") None None sampleOpts)
                   (MountEl [PriorNode "<p>loading</p>"] ∅) twoRegions
                   CalloutsRequired _ eq_refl eq_refl)).
  right. right. repeat split; reflexivity.
Defined.

(* ===================================================================== *)
(** * Further properties of the code *)
(* ===================================================================== *)

(** ** The colour scale and the polyfill *)

Lemma num_ge_Qeq (q q' : Q) (t : number) :
  (q == q')%Q -> num_ge (Fin q) t = num_ge (Fin q') t.
Proof.
  intros Heq. unfold num_ge. destruct t as [| |x|]; simpl; try reflexivity.
  destruct (Qle_bool x q) eqn:E1, (Qle_bool x q') eqn:E2; try reflexivity.
  - apply Qle_bool_iff in E1. apply (num_le_Fin_false x q') in E2. lra.
  - apply Qle_bool_iff in E2. apply (num_le_Fin_false x q) in E1. lra.
Qed.

Lemma colorLoop_Qeq (th : list number) (cs : list (option string))
  (fb : string) (i : nat) (q q' : Q) :
  (q == q')%Q -> colorLoop th cs fb i (Fin q) = colorLoop th cs fb i (Fin q').
Proof.
  intros Heq. revert i. induction th as [|t th IH]; intros i; simpl; [reflexivity|].
  rewrite (num_ge_Qeq q q' t Heq). destruct (num_ge (Fin q') t); auto.
Qed.

Lemma colorFor_Fin (thresholds : option (list number))
  (colors : option (list (option string))) (q c : Q) :
  mathMin (Fin 1) (mathMax (Fin 0) (Fin q)) = Fin c ->
  makeColorForRate thresholds colors (VNum (Fin q))
  = colorLoop (effThresholds thresholds) (effColors colors)
      (fallbackColor (effColors colors)) 0 (Fin c).
Proof. intros Hc. unfold makeColorForRate. now rewrite clamp01_Fin, Hc. Qed.

(** X1: the scale clamps.  Every finite rate from 1 up gets the colour of
    the rate 1, and every finite rate from 0 down gets the colour of the
    rate 0, whatever the thresholds and colours. *)
Theorem colorFor_clamps_out_of_range (thresholds : option (list number))
  (colors : option (list (option string))) (q : Q) :
  ((1 <= q)%Q ->
   makeColorForRate thresholds colors (VNum (Fin q))
   = makeColorForRate thresholds colors (VNum (Fin 1)))
  /\ ((q <= 0)%Q ->
      makeColorForRate thresholds colors (VNum (Fin q))
      = makeColorForRate thresholds colors (VNum (Fin 0))).
Proof.
  split; intros Hq.
  - destruct (clamp_finite q) as [c [Hc [Hrange _]]].
    destruct (clamp_finite 1) as [c1 [Hc1 [_ Hid1]]].
    rewrite (colorFor_Fin _ _ q c Hc), (colorFor_Fin _ _ 1 c1 Hc1).
    apply colorLoop_Qeq.
    assert (H1 : (c1 == 1)%Q) by (apply Hid1; lra).
    assert (Hge : num_le (Fin c1) (Fin c) = true).
    { rewrite <- Hc, <- Hc1. apply clamp_monotone. exact Hq. }
    apply Qle_bool_iff in Hge. lra.
  - destruct (clamp_finite q) as [c [Hc [Hrange _]]].
    destruct (clamp_finite 0) as [c0 [Hc0 [_ Hid0]]].
    rewrite (colorFor_Fin _ _ q c Hc), (colorFor_Fin _ _ 0 c0 Hc0).
    apply colorLoop_Qeq.
    assert (H0 : (c0 == 0)%Q) by (apply Hid0; lra).
    assert (Hle : num_le (Fin c) (Fin c0) = true).
    { rewrite <- Hc, <- Hc0. apply clamp_monotone. exact Hq. }
    apply Qle_bool_iff in Hle. lra.
Qed.

Lemma colorFor_clamps_out_of_range_witness :
  makeColorForRate None None (VNum (Fin 1.5))
  = makeColorForRate None None (VNum (Fin 1))
  /\ makeColorForRate (Some [Fin 0.5; Fin 0]) None (VNum (Fin (-0.3)))
     = makeColorForRate (Some [Fin 0.5; Fin 0]) None (VNum (Fin 0)).
Proof.
  split.
  - apply (proj1 (colorFor_clamps_out_of_range None None 1.5)). discriminate.
  - apply (proj2 (colorFor_clamps_out_of_range (Some [Fin 0.5; Fin 0]) None (-0.3))).
    discriminate.
Defined.

Lemma colorAt_In (cs : list (option string)) (i : nat) (c : string) :
  colorAt cs i = Some c -> In (Some c) cs.
Proof.
  unfold colorAt. destruct (cs !! i) as [[c'|]|] eqn:E; simpl; try discriminate.
  intros [= ->]. apply list_elem_of_In. eapply list_elem_of_lookup_2. exact E.
Qed.

Lemma fallbackColor_In (cs : list (option string)) :
  In (Some (fallbackColor cs)) cs \/ fallbackColor cs = hardDefaultColor.
Proof.
  unfold fallbackColor. destruct (0 <=? lastIndexOf cs)%Z; [|now right].
  destruct (colorAt cs (Z.to_nat (lastIndexOf cs))) eqn:E; [|now right].
  left. eapply colorAt_In. exact E.
Qed.

(** X2: the scale never answers with a hole.  For every input, known or
    not, and every threshold and colour configuration (a colour list that
    is too short or has null entries included), the colour returned is a
    non-null entry of the colour list in use, or the hard default
    [#D7D7D7]. *)
Theorem colorFor_is_listed_or_default (thresholds : option (list number))
  (colors : option (list (option string))) (rRaw : value) :
  In (Some (makeColorForRate thresholds colors rRaw)) (effColors colors)
  \/ makeColorForRate thresholds colors rRaw = hardDefaultColor.
Proof.
  unfold makeColorForRate.
  pose proof (fallbackColor_In (effColors colors)) as Hfb.
  destruct (clamp01 rRaw) as [r|]; [|exact Hfb].
  generalize 0%nat as i.
  induction (effThresholds thresholds) as [|t th IH]; intros i; simpl;
    [exact Hfb|].
  destruct (num_ge r t); [|apply IH].
  destruct (colorAt (effColors colors) i) eqn:E; [|exact Hfb].
  left. eapply colorAt_In. exact E.
Qed.

Lemma arrayAt_nonneg {A : Type} (l : list A) (i : nat) :
  arrayAt l (Z.of_nat i) = l !! i.
Proof.
  unfold arrayAt.
  assert (E : (Z.of_nat i <? 0)%Z = false) by (apply Z.ltb_ge; lia).
  now rewrite !E, Nat2Z.id.
Qed.

(** X3: the polyfill of [at] counts a negative index from the end.  For
    [k >= 1], [at(-k)] is entry [k - 1] of the reversed array, and
    [undefined] when [k] exceeds the length; a non-negative index is an
    ordinary read. *)
Theorem arrayAt_counts_from_end {A : Type} (l : list A) :
  (forall i : nat, arrayAt l (Z.of_nat i) = l !! i)
  /\ (forall k : nat, (1 <= k)%nat ->
        arrayAt l (- Z.of_nat k) = rev l !! (k - 1)%nat)
  /\ (forall k : nat, (length l < k)%nat -> arrayAt l (- Z.of_nat k) = None).
Proof.
  split; [apply arrayAt_nonneg|].
  assert (Hneg : forall k : nat, (1 <= k)%nat ->
    arrayAt l (- Z.of_nat k) = rev l !! (k - 1)%nat).
  { intros k Hk. unfold arrayAt.
    assert (E : (- Z.of_nat k <? 0)%Z = true) by (apply Z.ltb_lt; lia).
    rewrite E.
    destruct (Z.ltb_spec (Z.of_nat (length l) + - Z.of_nat k) 0).
    - symmetry. apply lookup_ge_None. rewrite length_rev. lia.
    - rewrite rev_alt. change (rev_append l []) with (reverse l).
      rewrite reverse_lookup by lia. f_equal. lia. }
  split; [exact Hneg|].
  intros k Hk. rewrite Hneg by lia. apply lookup_ge_None.
  rewrite length_rev. lia.
Qed.

Lemma arrayAt_counts_from_end_witness :
  arrayAt ["a"; "b"; "c"] (-1) = Some "c"
  /\ arrayAt ["a"; "b"; "c"] (-4) = None.
Proof.
  split.
  - exact (proj1 (proj2 (arrayAt_counts_from_end ["a"; "b"; "c"])) 1%nat
             ltac:(lia)).
  - exact (proj2 (proj2 (arrayAt_counts_from_end ["a"; "b"; "c"])) 4%nat
             ltac:(simpl; lia)).
Defined.

(** X4: the two variants compute the same fallback.  The ES5 file reads
    the last colour through [lastIndex]; the class variant through the
    method [at]: [cs.at(-1) ?? '#D7D7D7'].  With the polyfill of [at] they
    agree on every colour list. *)
Theorem fallback_variants_agree (cs : list (option string)) :
  fallbackColorAt cs = fallbackColor cs.
Proof.
  unfold fallbackColorAt, fallbackColor, lastIndexOf, arrayAt, colorAt.
  change (-1 <? 0)%Z with true. cbv iota.
  destruct (Z.ltb_spec (Z.of_nat (length cs) + -1) 0) as [Hlt|Hge].
  - destruct (Z.leb_spec 0 (Z.of_nat (length cs) - 1)); [lia | reflexivity].
  - destruct (Z.leb_spec 0 (Z.of_nat (length cs) - 1)); [|lia].
    replace (Z.of_nat (length cs) - 1)%Z with (Z.of_nat (length cs) + -1)%Z by lia.
    reflexivity.
Qed.

(** ** The bar list *)

(** The rate a row is drawn with: the clamp of the entry's rate, 0 when the
    clamp is [null]. *)
Lemma barRowOf_shape (colorForRate : value -> string) (opts : barOpts)
  (entry : string * number) :
  exists c : Q,
    (0 <= c <= 1)%Q
    /\ barRowOf colorForRate opts entry
       = BarRow (fst entry) (colorForRate (VNum (Fin c)))
           (num_mul (numOrDefault (bo_width opts) (Fin 100)) (Fin c))
           (fmtPct (VNum (Fin c)))
    /\ (forall q, snd entry = Fin q ->
          exists c', mathMin (Fin 1) (mathMax (Fin 0) (Fin q)) = Fin c'
                     /\ (c == c')%Q)
    /\ (isFinite (snd entry) = false -> c = 0%Q).
Proof.
  unfold barRowOf, clamp01. simpl toNumber.
  destruct (snd entry) as [| |q|] eqn:E; simpl isFinite; cbv iota.
  1,2,4: (exists 0%Q; split; [lra|]; split; [reflexivity|];
          split; [intros q' Hq'; discriminate | reflexivity]).
  destruct (clamp_finite q) as [c [Hc [Hrange _]]]. rewrite Hc.
  destruct (num_truthy (Fin c)) eqn:Et.
  - exists c. split; [exact Hrange|]. split; [reflexivity|].
    split; [|discriminate]. intros q' [= <-]. exists c. split; [exact Hc | lra].
  - exists 0%Q. split; [lra|]. split; [reflexivity|].
    split; [|discriminate]. intros q' [= <-]. exists c. split; [exact Hc|].
    unfold num_truthy in Et. simpl in Et. apply negb_false_iff in Et.
    apply Qeq_bool_iff in Et. lra.
Qed.

(** X5: bar lengths stay within the configured width.  There is one row per
    key of the data object, and with a finite width [W >= 0] every bar is
    between 0 and [W] long, whatever the data holds (rates above 1, below
    0, missing, NaN or infinite). *)
Theorem buildBars_widths_bounded (data : jsobj datum)
  (colorForRate : value -> string) (W : Q) :
  (0 <= W)%Q ->
  let rows :=
    buildBars (Some data) colorForRate (Some (BarOpts (VNum (Fin W)))) in
  length rows = length data
  /\ Forall (fun row =>
               exists w, row_barWidth row = Fin w /\ (0 <= w <= W)%Q) rows.
Proof.
  intros HW rows. unfold rows, buildBars. split.
  - rewrite length_map.
    rewrite (Permutation_length (arraySort_perm byRateDesc (barEntries data))).
    unfold barEntries. now rewrite length_map.
  - rewrite Forall_map. apply Forall_forall. intros entry _.
    destruct (barRowOf_shape colorForRate (BarOpts (VNum (Fin W))) entry)
      as [c [Hc [-> _]]].
    simpl. exists (W * c)%Q. split; [reflexivity|]. nra.
Qed.

Lemma buildBars_widths_bounded_witness :
  let rows :=
    buildBars (Some [("A", DNum (Fin 1.4)); ("B", DNone); ("C", DNum (Fin (-2)))])
      (makeColorForRate None None) (Some (BarOpts (VNum (Fin 180)))) in
  length rows = 3%nat
  /\ Forall (fun row =>
               exists w, row_barWidth row = Fin w /\ (0 <= w <= 180)%Q) rows.
Proof.
  intros rows.
  apply (buildBars_widths_bounded
           [("A", DNum (Fin 1.4)); ("B", DNone); ("C", DNum (Fin (-2)))]
           (makeColorForRate None None) 180).
  discriminate.
Defined.

Lemma round_percent_range (c : Q) :
  (0 <= c <= 1)%Q -> (0 <= Qfloor (c * 100 + (1 # 2)) <= 100)%Z.
Proof.
  intros Hc. split.
  - apply Z.le_trans with (Qfloor 0); [discriminate|].
    apply Qfloor_resp_le. lra.
  - apply Z.le_trans with (Qfloor (100 + (1 # 2))); [|discriminate].
    apply Qfloor_resp_le. lra.
Qed.

Lemma fmtPct_Fin (c : Q) :
  fmtPct (VNum (Fin c)) = intToString (Qfloor (c * 100 + (1 # 2))) +:+ "%".
Proof.
  unfold fmtPct, isNaN, num_mul, mathRound, integralToString.
  now rewrite Qfloor_Z.
Qed.

(** X6: the value text of a row is a whole percentage from [0%] to [100%]:
    the decimal digits of an integer between 0 and 100 followed by the
    percent sign, for every datum. *)
Theorem buildBars_value_is_percent (data : option (jsobj datum))
  (colorForRate : value -> string) (opts : option barOpts) :
  Forall (fun row =>
            exists n : Z, (0 <= n <= 100)%Z
                          /\ row_value row = intToString n +:+ "%")
    (buildBars data colorForRate opts).
Proof.
  unfold buildBars. rewrite Forall_map. apply Forall_forall. intros entry _.
  destruct (barRowOf_shape colorForRate
              (match opts with Some o => o | None => BarOpts VUndefined end)
              entry) as [c [Hc [-> _]]].
  cbn [row_value]. exists (Qfloor (c * 100 + (1 # 2))).
  split; [now apply round_percent_range | apply fmtPct_Fin].
Qed.




(** ** Pie glyphs *)

Lemma pieLoop_chained (cx cy radius innerRadius strokeWidth : number)
  (strokeColor : string) (total cur : number) (data : list pieItem) :
  chained cur
    (pieLoop cx cy radius innerRadius strokeWidth strokeColor total cur data).
Proof.
  revert cur. induction data as [|item data IH]; intros cur; cbn [pieLoop];
    [exact I|].
  destruct (num_eqb (double_mul (double_div (itemData item) total) (Fin 360))
              (Fin 0)); [apply IH|].
  cbn [chained sl_startAngle sl_endAngle]. split; [reflexivity | apply IH].
Qed.

Lemma wedgeItems_nonzero (t : Q) (data : list pieItem) :
  Qeq_bool t 0 = false ->
  (length (wedgeItems (Fin t) data) <= length (nonZeroItems data))%nat.
Proof.
  intros Ht. unfold wedgeItems, nonZeroItems.
  induction data as [|item data IH]; [reflexivity|].
  rewrite !filter_cons.
  destruct (num_eqb (itemData item) (Fin 0)) eqn:Ez.
  - rewrite decide_False
      by (rewrite (zero_value_no_wedge t item Ht Ez); discriminate).
    rewrite decide_False by discriminate. exact IH.
  - rewrite (decide_True (P := false = false)) by reflexivity.
    destruct (decide (drawsWedge (Fin t) item = true)); cbn [length]; lia.
Qed.

(** X8: the wedges of a glyph leave no gap.  Whatever the values, the first
    wedge starts at -90 degrees and each next wedge starts at the angle
    where the one before ends; and when the total is a finite number, an
    item whose value is zero or missing gets no wedge, so that there is at
    most one wedge per value that is not zero.  (The last wedge need not
    end at 270 degrees: the angles are rounded one by one, and seven equal
    values end at 269.99999999999994.) *)
Theorem createPieChart_wedges_chained (cx cy : number) (data : list pieItem)
  (opts : pieOpts) :
  let slices := createPieChart cx cy data opts in
  chained (Fin (-90)) slices
  /\ (isFinite (pieTotal data) = true ->
      (length slices <= length (nonZeroItems data))%nat).
Proof.
  intros slices. unfold slices, createPieChart.
  destruct (num_eqb (pieTotal data) (Fin 0)) eqn:Htotal.
  - split; [exact I|]. intros _. cbn [length]. lia.
  - split; [apply pieLoop_chained|]. intros Hfin. rewrite pieLoop_length.
    destruct (pieTotal data) as [| |t|]; try discriminate.
    apply wedgeItems_nonzero. exact Htotal.
Qed.

(** Seven equal values: the last wedge ends one rounding step short of 270
    degrees. *)
Lemma createPieChart_seven_equal_values :
  let slices :=
    createPieChart (Fin 0) (Fin 0)
      (repeat (PieItem None (VNum (Fin 1)) None) 7) noPieOpts in
  sl_endAngle <$> last slices = Some (toDouble (Fin 269.99999999999994))
  /\ num_eqb (toDouble (Fin 269.99999999999994)) (Fin 270) = false.
Proof. split; vm_compute; reflexivity. Qed.

(** ** Painting and labels *)

Lemma paintRegions_other (svg : svgdoc) (codeMap : jsobj string)
  (dataGetter : string -> value) (colorForRate : value -> string)
  (code : string) :
  ~ In code (map snd codeMap) ->
  svg_elems (paintRegions svg codeMap dataGetter colorForRate) !! code
  = svg_elems svg !! code.
Proof.
  revert svg. induction codeMap as [|[n k] rest IH]; intros svg Hnot; simpl;
    [reflexivity|].
  simpl in Hnot. rewrite IH by tauto.
  destruct (getElementById svg k); [|reflexivity].
  unfold updateStyle. simpl. rewrite lookup_alter_ne; [reflexivity|].
  intros ->. tauto.
Qed.

Lemma paintRegions_frame (svg : svgdoc) (codeMap : jsobj string)
  (dataGetter : string -> value) (colorForRate : value -> string) :
  let svg' := paintRegions svg codeMap dataGetter colorForRate in
  svg_viewBox svg' = svg_viewBox svg /\ svg_stack svg' = svg_stack svg
  /\ svg_layers svg' = svg_layers svg /\ svg_filters svg' = svg_filters svg
  /\ svg_anon svg' = svg_anon svg /\ svg_sheets svg' = svg_sheets svg
  /\ svg_css svg' = svg_css svg.
Proof.
  revert svg. induction codeMap as [|[n k] rest IH]; intros svg; simpl;
    [repeat split|].
  destruct (getElementById svg k); [|apply IH].
  destruct (IH (updateStyle k
                  (setProperty "fill" (colorForRate (dataGetter n)) true) svg))
    as (-> & -> & -> & -> & -> & -> & ->).
  repeat split.
Qed.

Lemma paintRegions_painted (svg : svgdoc) (codeMap : jsobj string)
  (dataGetter : string -> value) (colorForRate : value -> string)
  (name code : string) (el : element) :
  NoDup (map snd codeMap) ->
  In (name, code) codeMap -> svg_elems svg !! code = Some el ->
  svg_elems (paintRegions svg codeMap dataGetter colorForRate) !! code
  = Some (withStyle (setProperty "fill" (colorForRate (dataGetter name)) true) el).
Proof.
  revert svg. induction codeMap as [|[n k] rest IH]; intros svg Hnd Hin Hel;
    simpl; [destruct Hin|].
  simpl in Hnd. apply NoDup_cons in Hnd as [Hk Hnd].
  destruct Hin as [Heq|Hin].
  - injection Heq as -> ->. rewrite paintRegions_other.
    + unfold getElementById. rewrite Hel. unfold updateStyle. simpl.
      now rewrite lookup_alter_eq, Hel.
    + intros Hin. apply Hk. now apply list_elem_of_In.
  - assert (Hne : k <> code).
    { intros ->. apply Hk. apply list_elem_of_In, in_map_iff.
      now exists (name, code). }
    apply IH; [exact Hnd | exact Hin |].
    destruct (getElementById svg k); [|exact Hel].
    unfold updateStyle. simpl. now rewrite lookup_alter_ne.
Qed.

(** X9: painting.  When the ids of the code map are distinct, every region
    whose element exists ends with the fill of the colour of its rate, set
    with priority [important], and is otherwise as it was; an element that
    no region names is untouched, a region without an element is skipped,
    and nothing else of the document changes. *)
Theorem paintRegions_fills_regions (svg : svgdoc) (codeMap : jsobj string)
  (dataGetter : string -> value) (colorForRate : value -> string) :
  NoDup (map snd codeMap) ->
  let svg' := paintRegions svg codeMap dataGetter colorForRate in
  (forall name code el,
      In (name, code) codeMap -> getElementById svg code = Some el ->
      getElementById svg' code
      = Some (withStyle
                (setProperty "fill" (colorForRate (dataGetter name)) true) el))
  /\ (forall code,
        ~ In code (map snd codeMap) ->
        getElementById svg' code = getElementById svg code)
  /\ (forall code,
        getElementById svg code = None -> getElementById svg' code = None)
  /\ svg_viewBox svg' = svg_viewBox svg /\ svg_stack svg' = svg_stack svg
  /\ svg_layers svg' = svg_layers svg.
Proof.
  intros Hnd svg'. unfold svg', getElementById.
  split; [intros name code el; now apply paintRegions_painted|].
  split; [intros code; apply paintRegions_other|].
  split.
  - intros code Hnone. clear Hnd svg'. revert svg Hnone.
    induction codeMap as [|[n k] rest IH]; intros svg Hnone; simpl; [exact Hnone|].
    apply IH. destruct (getElementById svg k); [|exact Hnone].
    unfold updateStyle. simpl. rewrite lookup_alter.
    destruct (decide (k = code)) as [->|_]; [|exact Hnone]. now rewrite Hnone.
  - destruct (paintRegions_frame svg codeMap dataGetter colorForRate)
      as (H1 & H2 & H3 & _). auto.
Qed.

Lemma paintRegions_fills_regions_witness :
  getProperty "fill"
    (match getElementById
             (paintRegions twoRegions twoRegionsMap
                (getRate (Some [("A", DNum (Fin 0.87))]))
                (makeColorForRate None None)) "KR-A"
     with Some el => el_style el | None => ∅ end)
  = "#00085A".
Proof.
  rewrite (proj1 (paintRegions_fills_regions twoRegions twoRegionsMap
                    (getRate (Some [("A", DNum (Fin 0.87))]))
                    (makeColorForRate None None)
                    ltac:(repeat constructor; simpl; intros Hin;
                          inversion Hin; subst;
                          repeat match goal with
                            | Hx : _ ∈ _ |- _ => inversion Hx; clear Hx; subst
                            end))
             "A" "KR-A"
             (Element "path" (BBox (Fin 0) (Fin 0) (Fin 100) (Fin 50))
                (Some "#ccc") ∅ None [])
             (or_introl eq_refl) eq_refl).
  reflexivity.
Defined.


(** ** The frame *)

Lemma binary64_not_NaN (q : Q) : binary64 q <> NaN.
Proof.
  unfold binary64. destruct (Qeq_bool q 0); [discriminate|]. cbv zeta.
  match goal with |- (if ?b then _ else _) <> _ => destruct b end;
    [destruct (Qle_bool 0 q)|]; discriminate.
Qed.

Lemma num_le_refl (a : number) : a <> NaN -> num_le a a = true.
Proof.
  destruct a as [| |x|]; simpl; try congruence.
  intros _. apply Qle_bool_iff. lra.
Qed.

Lemma fold_min_least (vs : list number) (m0 : number) :
  m0 <> NaN -> Forall (fun v => v <> NaN) vs ->
  let m := fold_left mathMin vs m0 in
  m <> NaN /\ num_le m m0 = true
  /\ Forall (fun v => num_le m v = true) vs
  /\ (m = m0 \/ In m vs).
Proof.
  intros Hm0 Hvs. revert m0 Hm0.
  induction Hvs as [|v vs Hv _ IH]; intros m0 Hm0; cbn [fold_left].
  - split; [exact Hm0|]. split; [now apply num_le_refl|].
    split; [constructor | now left].
  - assert (Hstep : mathMin m0 v = if num_le m0 v then m0 else v)
      by (destruct m0, v; try reflexivity; congruence).
    assert (Hm1 : mathMin m0 v <> NaN /\ num_le (mathMin m0 v) m0 = true
                  /\ num_le (mathMin m0 v) v = true
                  /\ (mathMin m0 v = m0 \/ mathMin m0 v = v)).
    { rewrite Hstep. destruct (num_le m0 v) eqn:Ele.
      - split; [exact Hm0|]. split; [now apply num_le_refl|].
        split; [exact Ele | now left].
      - split; [exact Hv|]. split; [now apply num_le_total|].
        split; [now apply num_le_refl | now right]. }
    destruct Hm1 as (Hn & Hle0 & Hlev & Hor).
    destruct (IH (mathMin m0 v) Hn) as (Hn' & Hle & Hall & Hin).
    split; [exact Hn'|]. split; [eapply num_le_trans; eauto|].
    split; [constructor; [eapply num_le_trans; eauto | exact Hall]|].
    destruct Hin as [Heq|Hin]; [|right; now right].
    rewrite Heq. destruct Hor as [->| ->]; [now left | right; now left].
Qed.

Lemma fold_max_greatest (vs : list number) (m0 : number) :
  m0 <> NaN -> Forall (fun v => v <> NaN) vs ->
  let m := fold_left mathMax vs m0 in
  m <> NaN /\ num_le m0 m = true
  /\ Forall (fun v => num_le v m = true) vs
  /\ (m = m0 \/ In m vs).
Proof.
  intros Hm0 Hvs. revert m0 Hm0.
  induction Hvs as [|v vs Hv _ IH]; intros m0 Hm0; cbn [fold_left].
  - split; [exact Hm0|]. split; [now apply num_le_refl|].
    split; [constructor | now left].
  - assert (Hstep : mathMax m0 v = if num_le m0 v then v else m0)
      by (destruct m0, v; try reflexivity; congruence).
    assert (Hm1 : mathMax m0 v <> NaN /\ num_le m0 (mathMax m0 v) = true
                  /\ num_le v (mathMax m0 v) = true
                  /\ (mathMax m0 v = m0 \/ mathMax m0 v = v)).
    { rewrite Hstep. destruct (num_le m0 v) eqn:Ele.
      - split; [exact Hv|]. split; [exact Ele|].
        split; [now apply num_le_refl | now right].
      - split; [exact Hm0|]. split; [now apply num_le_refl|].
        split; [now apply num_le_total | now left]. }
    destruct Hm1 as (Hn & Hle0 & Hlev & Hor).
    destruct (IH (mathMax m0 v) Hn) as (Hn' & Hle & Hall & Hin).
    split; [exact Hn'|]. split; [eapply num_le_trans; eauto|].
    split; [constructor; [eapply num_le_trans; eauto | exact Hall]|].
    destruct Hin as [Heq|Hin]; [|right; now right].
    rewrite Heq. destruct Hor as [->| ->]; [now left | right; now left].
Qed.

(** The loop of [_computeBBox] is four folds side by side. *)
Lemma frame_fold (boxes : list bbox) (a b c d : number) :
  fold_left
    (fun (acc : number * number * number * number) (box : bbox) =>
       let '(minX, minY, maxX, maxY) := acc in
       (mathMin minX (bb_x box), mathMin minY (bb_y box),
        mathMax maxX (double_add (bb_x box) (bb_width box)),
        mathMax maxY (double_add (bb_y box) (bb_height box))))
    boxes (a, b, c, d)
  = (fold_left mathMin (map bb_x boxes) a,
     fold_left mathMin (map bb_y boxes) b,
     fold_left mathMax (map rightEdge boxes) c,
     fold_left mathMax (map bottomEdge boxes) d).
Proof.
  revert a b c d. induction boxes as [|box boxes IH]; intros a b c d;
    [reflexivity|].
  cbn [fold_left map]. apply IH.
Qed.

(** The least of values above +Infinity, and the greatest of values below
    -Infinity, is one of the values. *)
Lemma least_attained (f : bbox -> number) (boxes : list bbox) (m : number) :
  boxes <> [] -> Forall (fun b => f b <> NaN) boxes ->
  Forall (fun v => num_le m v = true) (map f boxes) ->
  m = PosInf \/ In m (map f boxes) ->
  leastOf f boxes m.
Proof.
  intros Hne Hnan Hall Hin. split.
  - destruct Hin as [->|Hin].
    + destruct boxes as [|b0 boxes]; [contradiction|]. exists b0.
      split; [now left|]. inversion Hall as [|? ? Hb0 _]; subst.
      inversion Hnan as [|? ? Hn _]; subst.
      destruct (f b0); simpl in Hb0; congruence.
    + apply in_map_iff in Hin as [b [Hb Hin]]. now exists b.
  - now rewrite Forall_map in Hall.
Qed.

Lemma greatest_attained (f : bbox -> number) (boxes : list bbox) (m : number) :
  boxes <> [] -> Forall (fun b => f b <> NaN) boxes ->
  Forall (fun v => num_le v m = true) (map f boxes) ->
  m = NegInf \/ In m (map f boxes) ->
  greatestOf f boxes m.
Proof.
  intros Hne Hnan Hall Hin. split.
  - destruct Hin as [->|Hin].
    + destruct boxes as [|b0 boxes]; [contradiction|]. exists b0.
      split; [now left|]. inversion Hall as [|? ? Hb0 _]; subst.
      inversion Hnan as [|? ? Hn _]; subst.
      destruct (f b0); simpl in Hb0; congruence.
    + apply in_map_iff in Hin as [b [Hb Hin]]. now exists b.
  - now rewrite Forall_map in Hall.
Qed.

(** X11: the frame spans the paths.  When the document has at least one
    path and the boxes of its paths are finite, the [x] and [y] of the frame
    [_computeBBox] returns are the least left and the least top of the path
    boxes (no path starts before them, and some path starts at them); its
    [w] and [h] are the rounded differences from them to the greatest right
    and the greatest bottom edge, the edges being the sums the program
    forms, and [cx] is the rounded middle of [x] and the greatest right
    edge.  The corner [x + w] itself can fall one rounding step short of
    that edge. *)
Theorem computeBBox_spans_paths `{Host} (svg : svgdoc) :
  pathBoxes svg <> [] ->
  Forall finiteBox (pathDoubles svg) ->
  let f := computeBBox svg in
  exists right bottom,
    leastOf bb_x (pathDoubles svg) (fr_x f)
    /\ leastOf bb_y (pathDoubles svg) (fr_y f)
    /\ greatestOf rightEdge (pathDoubles svg) right
    /\ greatestOf bottomEdge (pathDoubles svg) bottom
    /\ fr_w f = double_sub right (fr_x f)
    /\ fr_h f = double_sub bottom (fr_y f)
    /\ fr_cx f = double_div (double_add (fr_x f) right) (Fin 2).
Proof.
  intros Hne Hfin f. unfold f, computeBBox.
  fold (pathDoubles svg). rewrite frame_fold.
  assert (Hne' : pathDoubles svg <> []).
  { unfold pathDoubles. destruct (pathBoxes svg); [contradiction | discriminate]. }
  set (boxes := pathDoubles svg) in *.
  assert (Hnan : forall g : bbox -> number,
            (forall b, finiteBox b -> g b <> NaN) ->
            Forall (fun b => g b <> NaN) boxes).
  { intros g Hg. eapply Forall_impl; [exact Hfin | exact Hg]. }
  assert (Hx : forall b, finiteBox b -> bb_x b <> NaN).
  { intros b (Hbx & _). destruct (bb_x b); discriminate. }
  assert (Hy : forall b, finiteBox b -> bb_y b <> NaN).
  { intros b (_ & Hby & _). destruct (bb_y b); discriminate. }
  assert (Hr : forall b, finiteBox b -> rightEdge b <> NaN).
  { intros b (Hbx & _ & Hbw & _). unfold rightEdge, double_add.
    destruct (bb_x b), (bb_width b); try discriminate.
    cbn [num_add toDouble]. apply binary64_not_NaN. }
  assert (Hb : forall b, finiteBox b -> bottomEdge b <> NaN).
  { intros b (_ & Hby & _ & Hbh). unfold bottomEdge, double_add.
    destruct (bb_y b), (bb_height b); try discriminate.
    cbn [num_add toDouble]. apply binary64_not_NaN. }
  assert (Hmap : forall g : bbox -> number,
            Forall (fun b => g b <> NaN) boxes ->
            Forall (fun v => v <> NaN) (map g boxes)).
  { intros g Hg. now rewrite Forall_map. }
  destruct (fold_min_least (map bb_x boxes) PosInf ltac:(discriminate)
              (Hmap _ (Hnan _ Hx))) as (_ & _ & Hallx & Hinx).
  destruct (fold_min_least (map bb_y boxes) PosInf ltac:(discriminate)
              (Hmap _ (Hnan _ Hy))) as (_ & _ & Hally & Hiny).
  destruct (fold_max_greatest (map rightEdge boxes) NegInf ltac:(discriminate)
              (Hmap _ (Hnan _ Hr))) as (_ & _ & Hallr & Hinr).
  destruct (fold_max_greatest (map bottomEdge boxes) NegInf ltac:(discriminate)
              (Hmap _ (Hnan _ Hb))) as (_ & _ & Hallb & Hinb).
  exists (fold_left mathMax (map rightEdge boxes) NegInf),
         (fold_left mathMax (map bottomEdge boxes) NegInf).
  cbn [fr_x fr_y fr_w fr_h fr_cx].
  split; [now apply least_attained; auto|].
  split; [now apply least_attained; auto|].
  split; [now apply greatest_attained; auto|].
  split; [now apply greatest_attained; auto|].
  repeat split.
Qed.

Lemma computeBBox_spans_paths_witness :
  let f := computeBBox twoRegions in
  exists right bottom,
    leastOf bb_x (pathDoubles twoRegions) (fr_x f)
    /\ leastOf bb_y (pathDoubles twoRegions) (fr_y f)
    /\ greatestOf rightEdge (pathDoubles twoRegions) right
    /\ greatestOf bottomEdge (pathDoubles twoRegions) bottom
    /\ fr_w f = double_sub right (fr_x f)
    /\ fr_h f = double_sub bottom (fr_y f)
    /\ fr_cx f = double_div (double_add (fr_x f) right) (Fin 2).
Proof.
  apply (@computeBBox_spans_paths sampleHost twoRegions).
  - vm_compute. discriminate.
  - vm_compute. repeat constructor.
Defined.

(** On [widePaths] the corner [x + w] of the frame is 426.29999999999995,
    below the greatest right edge 426.3. *)
Lemma computeBBox_corner_falls_short :
  let f := computeBBox widePaths in
  greatestOf rightEdge (pathDoubles widePaths) (toDouble (Fin 426.3))
  /\ double_add (fr_x f) (fr_w f) = toDouble (Fin 426.29999999999995)
  /\ num_lt (double_add (fr_x f) (fr_w f)) (toDouble (Fin 426.3)) = true.
Proof.
  intros f. split; [|split; vm_compute; reflexivity].
  split.
  - exists (boxDouble (BBox (Fin 0) (Fin 0) (Fin 426.3) (Fin 10))).
    split; [vm_compute; auto | vm_compute; reflexivity].
  - let boxes := eval vm_compute in (pathDoubles widePaths) in
    change (pathDoubles widePaths) with boxes.
    repeat (constructor; [vm_compute; reflexivity|]). constructor.
Qed.

(** X12: a document without paths.  When no element of the document is a
    [path] (regions drawn as polygons, say), the frame is degenerate: x and
    y are +Infinity, the sizes -Infinity and [cx] is NaN.  Routed against
    that frame, every callout lands on the right side with the label at
    x = NaN. *)
Theorem computeBBox_without_paths `{Host} (svg : svgdoc)
  (codeMap : jsobj string) (dataMap : option (jsobj datum))
  (opts : option calloutOpts) :
  pathBoxes svg = [] ->
  computeBBox svg = Frame PosInf PosInf NegInf NegInf NaN
  /\ Forall (fun c =>
               ca_leftSide c = false /\ ca_labelX c = NaN
               /\ ca_textAnchor c = "start")
       (lastCallouts (buildCallouts svg codeMap dataMap (computeBBox svg) opts)).
Proof.
  intros Hempty.
  assert (Hf : computeBBox svg = Frame PosInf PosInf NegInf NegInf NaN).
  { unfold computeBBox. now rewrite Hempty. }
  split; [exact Hf|]. rewrite Hf, lastCallouts_buildCallouts.
  apply Forall_forall. intros c Hc. apply list_elem_of_In in Hc.
  apply calloutLoop_In in Hc as (name & code & el & _ & _ & ->).
  cbn [calloutOf ca_leftSide ca_labelX ca_textAnchor fr_cx fr_x fr_w].
  assert (Hside : forall a, num_lt a NaN = false) by (now intros [| | |]).
  rewrite !Hside. repeat split.
Qed.

Lemma computeBBox_without_paths_witness :
  let svg :=
    SvgDoc None ∅ []
      (<["KR-A" := Element "polygon" (BBox (Fin 0) (Fin 0) (Fin 100) (Fin 50))
                     None ∅ None []]> ∅)
      ["KR-A"] [] [] [] in
  pathBoxes svg = []
  /\ fr_cx (computeBBox svg) = NaN
  /\ map ca_labelX
       (lastCallouts
          (buildCallouts svg [("A", "KR-A")] None (computeBBox svg) None))
     = [NaN].
Proof.
  intros svg.
  assert (Hempty : pathBoxes svg = []) by (vm_compute; reflexivity).
  split; [exact Hempty|].
  destruct (@computeBBox_without_paths sampleHost svg [("A", "KR-A")] None None
              Hempty) as [Hframe Hall].
  split; [now rewrite Hframe|].
  destruct (lastCallouts
              (buildCallouts svg [("A", "KR-A")] None (computeBBox svg) None))
    as [|c [|c' rest]] eqn:Ecs; try (vm_compute in Ecs; discriminate Ecs).
  apply Forall_cons in Hall as [(_ & Hx & _) _]. simpl. now rewrite Hx.
Defined.

(** ** Clearing the fills of the style sheets *)

Lemma spanSpaces_app (w r : string) :
  allChars isSpace w = true ->
  (forall c r', r = String c r' -> isSpace c = false) ->
  spanSpaces (w +:+ r) = (String.length w, r).
Proof.
  intros Hw Hr. induction w as [|c w IH]; simpl in *.
  - destruct r as [|c r']; [reflexivity|]. simpl.
    now rewrite (Hr c r' eq_refl).
  - apply andb_true_iff in Hw as [Hc Hw]. rewrite Hc, (IH Hw). reflexivity.
Qed.

Lemma spanNotSemicolon_app (v r : string) :
  allChars (fun c => negb (Ascii.eqb c ";")) v = true ->
  (r = EmptyString \/ exists r', r = String ";" r') ->
  spanNotSemicolon (v +:+ r) = (String.length v, r).
Proof.
  intros Hv Hr. induction v as [|c v IH]; simpl in *.
  - destruct Hr as [->|[r' ->]]; reflexivity.
  - apply andb_true_iff in Hv as [Hc Hv]. apply negb_true_iff in Hc.
    rewrite Hc, (IH Hv). reflexivity.
Qed.

Lemma stripFill_skip (u r : string) :
  stripFill (String.length u) (u +:+ r) = stripFill 0 r.
Proof.
  induction u as [|c u IH]; simpl; [reflexivity | exact IH].
Qed.

Lemma stripFill_match (c : ascii) (rest : string) (k : nat) :
  matchFill (String c rest) = Some (S k) ->
  stripFill 0 (String c rest) = stripFill k rest.
Proof.
  intros Hm.
  change (stripFill 0 (String c rest))
    with (match matchFill (String c rest) with
          | Some (S k) => stripFill k rest
          | _ => String c (stripFill 0 rest)
          end).
  now rewrite Hm.
Qed.

Lemma append_assoc (a b c : string) : (a +:+ b) +:+ c = a +:+ (b +:+ c).
Proof.
  induction a as [|x a IH]; [reflexivity|].
  change (String x ((a +:+ b) +:+ c) = String x (a +:+ (b +:+ c))).
  now f_equal.
Qed.

Lemma length_append (a b : string) :
  String.length (a +:+ b) = (String.length a + String.length b)%nat.
Proof.
  induction a as [|x a IH]; [reflexivity|].
  change (S (String.length (a +:+ b)) = S (String.length a + String.length b)).
  now f_equal.
Qed.

Lemma append_empty_r (a : string) : a +:+ "" = a.
Proof.
  induction a as [|x a IH]; [reflexivity|].
  change (String x (a +:+ "") = String x a). now f_equal.
Qed.

(** X13: what the fill pattern removes.  A declaration [fill], optional
    white space, a colon and a non-empty value is removed together with the
    semicolon that ends it; the value runs to the next semicolon whatever
    it contains (a closing brace included), and to the end of the sheet
    when no semicolon follows. *)
Theorem stripFill_removes_declaration (spaces value rest : string) :
  allChars isSpace spaces = true ->
  allChars (fun c => negb (Ascii.eqb c ";")) value = true ->
  value <> EmptyString ->
  stripFill 0 ("fill" +:+ spaces +:+ ":" +:+ value +:+ ";" +:+ rest)
  = stripFill 0 rest
  /\ stripFill 0 ("fill" +:+ spaces +:+ ":" +:+ value) = EmptyString.
Proof.
  intros Hs Hv Hne.
  assert (Hcolon : forall r c r', String ":" r = String c r' -> isSpace c = false).
  { intros r c r' Heq. now injection Heq as <- _. }
  assert (Hlen : exists n, String.length value = S n).
  { destruct value; [contradiction | eexists; reflexivity]. }
  destruct Hlen as [n Hn].
  assert (Hm : forall tail : string,
    (tail = EmptyString \/ exists r', tail = String ";" r') ->
    matchFill (String "f" (String "i" (String "l" (String "l"
                 (spaces +:+ String ":" (value +:+ tail))))))
    = Some (4 + String.length spaces + 1 + String.length value
            + match tail with String ";" _ => 1 | _ => 0 end)%nat).
  { intros tail Htail. unfold matchFill.
    rewrite (spanSpaces_app spaces (String ":" (value +:+ tail)) Hs (Hcolon _)).
    rewrite (spanNotSemicolon_app value tail Hv Htail).
    rewrite Hn. reflexivity. }
  split.
  - change ("fill" +:+ spaces +:+ ":" +:+ value +:+ ";" +:+ rest)
      with (String "f" (String "i" (String "l" (String "l"
              (spaces +:+ String ":" (value +:+ String ";" rest)))))).
    rewrite (stripFill_match _ _
               (String.length ("ill" +:+ spaces +:+ ":" +:+ value +:+ ";"))).
    + change (String "i" (String "l" (String "l"
                (spaces +:+ String ":" (value +:+ String ";" rest)))))
        with ("ill" +:+ spaces +:+ ":" +:+ value +:+ ";" +:+ rest).
      replace ("ill" +:+ spaces +:+ ":" +:+ value +:+ ";" +:+ rest)
        with (("ill" +:+ spaces +:+ ":" +:+ value +:+ ";") +:+ rest)
        by (rewrite !append_assoc; reflexivity).
      apply stripFill_skip.
    + rewrite (Hm (String ";" rest) (or_intror (ex_intro _ rest eq_refl))).
      f_equal. rewrite !length_append.
      change (String.length "ill") with 3%nat.
      change (String.length ":") with 1%nat.
      change (String.length ";") with 1%nat. lia.
  - change ("fill" +:+ spaces +:+ ":" +:+ value)
      with (String "f" (String "i" (String "l" (String "l"
              (spaces +:+ String ":" value))))).
    rewrite <- (append_empty_r value).
    rewrite (stripFill_match _ _
               (String.length ("ill" +:+ spaces +:+ ":" +:+ value))).
    + change (String "i" (String "l" (String "l"
                (spaces +:+ String ":" (value +:+ "")))))
        with ("ill" +:+ spaces +:+ ":" +:+ value +:+ "").
      replace ("ill" +:+ spaces +:+ ":" +:+ value +:+ "")
        with (("ill" +:+ spaces +:+ ":" +:+ value) +:+ "")
        by (rewrite !append_assoc; reflexivity).
      apply stripFill_skip.
    + rewrite (Hm EmptyString (or_introl eq_refl)).
      f_equal. rewrite !length_append.
      change (String.length "ill") with 3%nat.
      change (String.length ":") with 1%nat. lia.
Qed.

Lemma stripFill_removes_declaration_witness :
  stripFill 0 "fill : #eee;stroke:#fff}" = "stroke:#fff}"
  /\ stripFill 0 "fill:red} .b{stroke:blue}" = "".
Proof.
  split.
  - apply (proj1 (stripFill_removes_declaration " " " #eee" "stroke:#fff}"
                    eq_refl eq_refl ltac:(discriminate))).
  - apply (proj2 (stripFill_removes_declaration "" "red} .b{stroke:blue}" ""
                    eq_refl eq_refl ltac:(discriminate))).
Defined.

(** ** Hover, leave and click *)

Lemma getProperty_setProperty (p q v : string) (imp : bool) (st : styleDecls) :
  getProperty p (setProperty q v imp st)
  = if decide (q = p) then v else getProperty p st.
Proof.
  unfold getProperty, setProperty.
  destruct (String.eqb_spec v "") as [->|Hv].
  - rewrite lookup_delete. destruct (decide (q = p)); reflexivity.
  - rewrite lookup_insert. destruct (decide (q = p)); reflexivity.
Qed.

Lemma lookup_setProperty_ne (p q v : string) (imp : bool) (st : styleDecls) :
  q <> p -> setProperty q v imp st !! p = st !! p.
Proof.
  intros Hne. unfold setProperty. destruct (String.eqb v "").
  - now rewrite lookup_delete_ne.
  - now rewrite lookup_insert_ne.
Qed.

(** The snapshot does not see [pointer-events]. *)
Lemma captureStyles_pointer_events (v : string) (imp : bool) (st : styleDecls) :
  captureStyles (setProperty "pointer-events" v imp st) = captureStyles st.
Proof.
  unfold captureStyles. rewrite !getProperty_setProperty.
  repeat (destruct (decide _) as [Heq|_]; [discriminate Heq|]). reflexivity.
Qed.

Lemma strOr_empty (s : string) : strOr (Some s) "" = s.
Proof. destruct s; reflexivity. Qed.

(** Restoring a snapshot, written out: the six properties are set in the
    order of the snapshot, then the fill again, then the filter when
    shadows are on. *)
Lemma restoreStyles_capture (shadow : bool) (st0 st : styleDecls) :
  restoreStyles shadow (captureStyles st0) st
  = let st2 :=
      setProperty "fill" (getProperty "fill" st0) true
        (setProperty "fill" (getProperty "fill" st0) true
           (setProperty "filter" (getProperty "filter" st0) false
              (setProperty "cursor" (getProperty "cursor" st0) false
                 (setProperty "opacity" (getProperty "opacity" st0) false
                    (setProperty "stroke-width"
                       (getProperty "stroke-width" st0) false
                       (setProperty "stroke" (getProperty "stroke" st0) false
                          st)))))) in
    if shadow then setProperty "filter" (getProperty "filter" st0) false st2
    else st2.
Proof.
  unfold restoreStyles, styleField.
  change (objGet (captureStyles st0) "fill")
    with (Some (Some (getProperty "fill" st0))).
  change (mjoin (objGet (captureStyles st0) "filter"))
    with (Some (getProperty "filter" st0)).
  cbv beta iota. rewrite !strOr_empty. reflexivity.
Qed.

(** Restoring a snapshot puts the six captured properties at the captured
    values, the fill with priority, and touches no other property. *)
Lemma restoreStyles_captured (shadow : bool) (st0 st : styleDecls) :
  let st' := restoreStyles shadow (captureStyles st0) st in
  (forall prop, In prop capturedProperties ->
     getProperty prop st' = getProperty prop st0)
  /\ (forall prop, ~ In prop capturedProperties -> st' !! prop = st !! prop)
  /\ (getProperty "fill" st0 <> "" ->
      st' !! "fill" = Some (getProperty "fill" st0, true)).
Proof.
  intros st'. unfold st'. rewrite restoreStyles_capture. cbv zeta.
  split; [|split].
  - intros prop Hin. simpl in Hin.
    destruct shadow;
      decompose [or] Hin; subst; try contradiction;
      rewrite ?getProperty_setProperty;
      repeat (destruct (decide _) as [Heq|Hne];
              [try discriminate Heq | try (exfalso; apply Hne; reflexivity)]);
      reflexivity.
  - intros prop Hnot. simpl in Hnot.
    destruct shadow; rewrite ?lookup_setProperty_ne; try reflexivity;
      intros Heq; apply Hnot; rewrite <- Heq; tauto.
  - intros Hne.
    assert (Hset : forall s : styleDecls,
      setProperty "fill" (getProperty "fill" st0) true s !! "fill"
      = Some (getProperty "fill" st0, true)).
    { intros s. unfold setProperty.
      destruct (String.eqb_spec (getProperty "fill" st0) ""); [contradiction|].
      apply lookup_insert_eq. }
    destruct shadow; [rewrite lookup_setProperty_ne by discriminate|];
      apply Hset.
Qed.

(** Binding keeps every element, captures the six properties from the
    style it finds, and registers the names of the map on their elements. *)
Lemma bindLoop_elem (codeMap : jsobj string) (svg : svgdoc) (code : string)
  (p : element) :
  svg_elems svg !! code = Some p ->
  exists p',
    svg_elems (bindLoop svg codeMap) !! code = Some p'
    /\ captureStyles (el_style p') = captureStyles (el_style p)
    /\ (el_original p = Some (captureStyles (el_style p)) ->
        el_original p' = Some (captureStyles (el_style p)))
    /\ (forall n, n ∈ el_listeners p -> n ∈ el_listeners p')
    /\ (forall name, In (name, code) codeMap ->
          name ∈ el_listeners p'
          /\ el_original p' = Some (captureStyles (el_style p))).
Proof.
  revert svg p. induction codeMap as [|[n k] rest IH]; intros svg p Hp; simpl.
  - exists p. split; [exact Hp|]. split; [reflexivity|]. split; [auto|].
    split; [auto|]. intros name0 [].
  - destruct (getElementById svg k) as [q|] eqn:Eq.
    + destruct (decide (k = code)) as [->|Hne].
      * unfold getElementById in Eq. rewrite Hp in Eq. injection Eq as <-.
        destruct (IH (setElems (alter (bindElement n) code (svg_elems svg)) svg)
                    (bindElement n p)) as (p' & Hp' & Hcap & Horig & Hls & Hnames).
        { simpl. now rewrite lookup_alter_eq, Hp. }
        simpl in Hcap, Horig. rewrite captureStyles_pointer_events in Hcap, Horig.
        exists p'. split; [exact Hp'|]. split; [exact Hcap|].
        split; [intros _; now apply Horig|].
        split.
        { intros m Hm. apply Hls. simpl. apply elem_of_app. now left. }
        intros name0 [Heq|Hin].
        -- injection Heq as <-. split; [|now apply Horig].
           apply Hls. simpl. apply elem_of_app. right. left.
        -- destruct (Hnames name0 Hin) as [H1 H2]. split; [exact H1|].
           simpl in H2. now rewrite H2, captureStyles_pointer_events.
      * destruct (IH (setElems (alter (bindElement n) k (svg_elems svg)) svg) p)
          as (p' & Hp' & Hcap & Horig & Hls & Hnames).
        { simpl. now rewrite lookup_alter_ne. }
        exists p'. split; [exact Hp'|]. split; [exact Hcap|].
        split; [exact Horig|]. split; [exact Hls|].
        intros name0 [Heq|Hin]; [congruence | now apply Hnames].
    + destruct (IH svg p Hp) as (p' & Hp' & Hcap & Horig & Hls & Hnames).
      exists p'. split; [exact Hp'|]. split; [exact Hcap|].
      split; [exact Horig|]. split; [exact Hls|].
      intros name0 [Heq|Hin]; [|now apply Hnames].
      injection Heq as _ Hk. subst k. unfold getElementById in Eq. congruence.
Qed.

Section ReachableStates.
Context `{Host}.

Lemma bindRegionEvents_elems (svg : svgdoc) (codeMap : jsobj string)
  (opts : renderOpts) :
  exists svg1,
    ctl_svg (fst (bindRegionEvents svg codeMap opts)) = bindLoop svg1 codeMap
    /\ svg_elems svg1 = svg_elems svg
    /\ ctl_selectedPath (fst (bindRegionEvents svg codeMap opts)) = None.
Proof.
  unfold bindRegionEvents.
  destruct (ev_shadow
              (match o_events opts with Some e => e | None => noEventOpts end));
    simpl; eexists; repeat split.
Qed.

Lemma stateAfter_snoc (svg : svgdoc) (codeMap : jsobj string)
  (opts : renderOpts) (events : list event) (e : event) :
  stateAfter svg codeMap opts (events ++ [e])
  = stateOf
      (dispatch codeMap
         (match o_events opts with Some e => e | None => noEventOpts end)
         (match o_innerCities opts with Some l => l | None => [] end)
         (snd (bindRegionEvents svg codeMap opts)) e
         (stateAfter svg codeMap opts events)).
Proof. unfold stateAfter, handle. now rewrite dispatchAll_app. Qed.

(** The invariants of every state the controller reaches. *)
Lemma stateAfter_invariants (svg : svgdoc) (codeMap : jsobj string)
  (opts : renderOpts) (events : list event) :
  freshDocument svg ->
  let c0 := fst (bindRegionEvents svg codeMap opts) in
  let c := stateAfter svg codeMap opts events in
  sameMeta (ctl_svg c0) (ctl_svg c)
  /\ selectionBound codeMap c /\ boundHaveStyles (ctl_svg c).
Proof.
  intros Hfresh c0 c.
  destruct (bindRegionEvents_elems svg codeMap opts) as (svg1 & Hsvg & Helems & Hsel).
  apply dispatchAll_invariant.
  - intros sel Hs. rewrite Hsel in Hs. discriminate.
  - rewrite Hsvg. apply bindLoop_boundHaveStyles.
    intros code el Hel Hl. exfalso. apply Hl.
    rewrite Helems in Hel. eapply Hfresh; eauto.
Qed.

(** A region of the map whose element exists stays bound in every reachable
    state, with the snapshot taken from the document as loaded. *)
Lemma stateAfter_region (svg : svgdoc) (codeMap : jsobj string)
  (opts : renderOpts) (events : list event) (name code : string)
  (p0 : element) :
  freshDocument svg ->
  objGet codeMap name = Some code ->
  getElementById svg code = Some p0 ->
  let c := stateAfter svg codeMap opts events in
  exists p,
    getElementById (ctl_svg c) code = Some p
    /\ el_original p = Some (captureStyles (el_style p0))
    /\ boundCode codeMap c name = Some code.
Proof.
  intros Hfresh Hget Hp0 c.
  destruct (bindRegionEvents_elems svg codeMap opts) as (svg1 & Hsvg & Helems & _).
  destruct (stateAfter_invariants svg codeMap opts events Hfresh) as (Hm & _ & _).
  fold c in Hm. rewrite Hsvg in Hm.
  unfold getElementById in Hp0. rewrite <- Helems in Hp0.
  destruct (bindLoop_elem codeMap svg1 code p0 Hp0)
    as (p1 & Hp1 & _ & _ & _ & Hnames).
  destruct (Hnames name (objGet_In _ _ _ Hget)) as [Hname Horig].
  destruct (sameMeta_lookup _ _ code p1 Hm Hp1) as (p & Hp & Hmeta).
  injection Hmeta as Ho Hl.
  exists p. unfold getElementById. split; [exact Hp|].
  split; [congruence|].
  unfold boundCode, getElementById. rewrite Hget, Hp, Hl.
  now rewrite bool_decide_eq_true_2.
Qed.

End ReachableStates.

Section ClickFacts.
Context (codeMap : jsobj string) (ev : eventOpts) (innerCities : list string)
  (shadowFilterId : option string).

(** In a state that satisfies the invariants, deselecting ends normally. *)
Lemma deselectRegion_normal (c : controller) :
  selectionBound codeMap c -> boundHaveStyles (ctl_svg c) ->
  match ctl_selectedPath c with
  | None => deselectRegion ev c = Normal c
  | Some sel =>
      exists q original,
        getElementById (ctl_svg c) sel = Some q
        /\ el_original q = Some original
        /\ deselectRegion ev c
           = Normal
               (setSelected None
                  (onSvg (updateStyle sel (restoreStyles (shadowOn ev) original))
                     c))
  end.
Proof.
  intros Hsel Hbound. unfold deselectRegion.
  destruct (ctl_selectedPath c) as [sel|] eqn:Esel; [|reflexivity].
  destruct (Hsel sel Esel) as (el & name & Hel & Hname & _).
  destruct (Hbound sel el Hel) as [orig Horig].
  { intros Hnil. rewrite Hnil in Hname. inversion Hname. }
  exists el, orig. unfold getElementById. rewrite Hel.
  destruct el as [tag box fa st o ls]. simpl in Horig. subst o. auto.
Qed.

(** A click on a bound region ends with that region selected. *)
Lemma click_selects (name code : string) (c : controller) :
  selectionBound codeMap c -> boundHaveStyles (ctl_svg c) ->
  is_Some (getElementById (ctl_svg c) code) ->
  ctl_selectedPath
    (stateOf (click codeMap ev innerCities shadowFilterId name code c))
  = Some code.
Proof.
  intros Hsel Hbound [p Hp]. unfold click. rewrite Hp.
  pose proof (deselectRegion_normal c Hsel Hbound) as Hd.
  destruct (ctl_selectedPath c) as [sel|] eqn:Esel.
  - destruct (bool_decide (sel ≠ code)) eqn:Ene.
    + destruct Hd as (q & o & _ & _ & ->). simpl.
      rewrite logCall_selected. reflexivity.
    + apply bool_decide_eq_false in Ene. apply dec_stable in Ene. subst sel.
      rewrite Esel. rewrite bool_decide_eq_false_2 by (intros Hx; now apply Hx).
      simpl. now rewrite logCall_selected.
  - rewrite Esel. simpl. now rewrite logCall_selected.
Qed.

(** A click on the selected region, and a leave of it, keep the document. *)
Lemma click_selected_keeps (name code : string) (c : controller) :
  ctl_selectedPath c = Some code ->
  let c' := stateOf (click codeMap ev innerCities shadowFilterId name code c) in
  ctl_svg c' = ctl_svg c /\ ctl_selectedPath c' = Some code.
Proof.
  intros Hsel. unfold click.
  destruct (getElementById (ctl_svg c) code); [|simpl; auto].
  rewrite Hsel. rewrite bool_decide_eq_false_2 by (intros Hx; now apply Hx).
  rewrite Hsel. rewrite bool_decide_eq_false_2 by (intros Hx; now apply Hx).
  simpl. now rewrite logCall_svg, logCall_selected.
Qed.

Lemma mouseleave_selected_keeps (name code : string) (c : controller) :
  ctl_selectedPath c = Some code ->
  let c' := stateOf (mouseleave ev name code c) in
  ctl_svg c' = ctl_svg c /\ ctl_selectedPath c' = Some code.
Proof.
  intros Hsel. unfold mouseleave.
  destruct (getElementById (ctl_svg c) code); [|simpl; auto].
  rewrite bool_decide_eq_true_2 by exact Hsel.
  simpl. now rewrite logCall_svg, logCall_selected.
Qed.

(** Leaving a bound region that is not selected restores its element. *)
Lemma mouseleave_unselected (name code : string) (c : controller)
  (p : element) (original : styleObj) :
  getElementById (ctl_svg c) code = Some p ->
  el_original p = Some original ->
  ctl_selectedPath c <> Some code ->
  let c' := stateOf (mouseleave ev name code c) in
  getElementById (ctl_svg c') code
  = Some (withStyle (restoreStyles (shadowOn ev) original) p)
  /\ ctl_selectedPath c' = ctl_selectedPath c.
Proof.
  intros Hp Horig Hsel. unfold mouseleave. rewrite Hp.
  rewrite bool_decide_eq_false_2 by exact Hsel. rewrite Horig. simpl.
  rewrite logCall_svg, logCall_selected. simpl. split; [|reflexivity].
  unfold getElementById in *. simpl. now rewrite lookup_alter_eq, Hp.
Qed.

End ClickFacts.

Lemma raiseInnerCities_elems (codeMap : jsobj string)
  (innerCities : list string) (s : svgdoc) :
  svg_elems (raiseInnerCities codeMap innerCities s) = svg_elems s.
Proof.
  unfold raiseInnerCities. revert s.
  induction codeMap as [|[name code] rest IH]; intros s; simpl; [reflexivity|].
  rewrite IH. destruct (bool_decide (name ∈ innerCities)); [|reflexivity].
  now destruct (getElementById s code).
Qed.

Lemma twoRegions_fresh : freshDocument twoRegions.
Proof.
  intros code el Hel. unfold twoRegions in Hel. simpl in Hel.
  apply lookup_insert_Some in Hel as [[_ <-]|[_ Hel]]; [reflexivity|].
  apply lookup_insert_Some in Hel as [[_ <-]|[_ Hel]]; [reflexivity|].
  rewrite lookup_empty in Hel. discriminate.
Qed.

(** The snapshot of a selected element is the one taken from the document
    as loaded. *)
Lemma stateAfter_selected `{Host} (svg : svgdoc) (codeMap : jsobj string)
  (opts : renderOpts) (events : list event) (sel : string) (q0 : element) :
  freshDocument svg ->
  getElementById svg sel = Some q0 ->
  let c := stateAfter svg codeMap opts events in
  ctl_selectedPath c = Some sel ->
  exists q,
    getElementById (ctl_svg c) sel = Some q
    /\ el_original q = Some (captureStyles (el_style q0)).
Proof.
  intros Hfresh Hq0 c Hsel.
  destruct (bindRegionEvents_elems svg codeMap opts) as (svg1 & Hsvg & Helems & _).
  destruct (stateAfter_invariants svg codeMap opts events Hfresh)
    as (Hm & Hbound & _).
  fold c in Hm, Hbound. rewrite Hsvg in Hm.
  destruct (Hbound sel Hsel) as (q & name & Hq & Hname & Hin).
  unfold getElementById in Hq0. rewrite <- Helems in Hq0.
  destruct (bindLoop_elem codeMap svg1 sel q0 Hq0)
    as (q1 & Hq1 & _ & _ & _ & Hnames).
  destruct (Hnames name Hin) as [_ Horig].
  destruct (sameMeta_lookup _ _ sel q1 Hm Hq1) as (q' & Hq' & Hmeta).
  injection Hmeta as Ho Hl.
  exists q. split; [exact Hq|]. congruence.
Qed.

(** X14: leaving a region.  In any state the listeners reach from a freshly
    parsed document, when the pointer leaves a region of the map that is not
    the selected one, each of the six captured properties (stroke,
    stroke-width, opacity, cursor, filter, fill) of its element is again
    what the document had when the listeners were bound, whatever the hover
    styles set meanwhile; every other property of the element and the
    selection are as before the event. *)
Theorem mouseleave_restores_region `{Host} (svg : svgdoc)
  (codeMap : jsobj string) (opts : renderOpts) (events : list event)
  (name code : string) (p0 : element) :
  freshDocument svg ->
  objGet codeMap name = Some code ->
  getElementById svg code = Some p0 ->
  let c := stateAfter svg codeMap opts events in
  let c' := stateAfter svg codeMap opts (events ++ [MouseLeave name]) in
  ctl_selectedPath c <> Some code ->
  exists p p',
    getElementById (ctl_svg c) code = Some p
    /\ getElementById (ctl_svg c') code = Some p'
    /\ (forall prop, In prop capturedProperties ->
          getProperty prop (el_style p') = getProperty prop (el_style p0))
    /\ (forall prop, ~ In prop capturedProperties ->
          el_style p' !! prop = el_style p !! prop)
    /\ ctl_selectedPath c' = ctl_selectedPath c.
Proof.
  intros Hfresh Hget Hp0 c c' Hsel.
  destruct (stateAfter_region svg codeMap opts events name code p0
              Hfresh Hget Hp0) as (p & Hp & Horig & Hbound).
  fold c in Hp, Hbound.
  unfold c'. rewrite stateAfter_snoc. fold c. unfold dispatch. rewrite Hbound.
  destruct (mouseleave_unselected
              (match o_events opts with Some e => e | None => noEventOpts end)
              name code c p _ Hp Horig Hsel) as [Hp' Hsel'].
  exists p, (withStyle
               (restoreStyles
                  (shadowOn
                     (match o_events opts with
                      | Some e => e
                      | None => noEventOpts
                      end))
                  (captureStyles (el_style p0))) p).
  split; [exact Hp|]. split; [exact Hp'|].
  destruct (restoreStyles_captured
              (shadowOn
                 (match o_events opts with Some e => e | None => noEventOpts end))
              (el_style p0) (el_style p)) as (Hcap & Hother & _).
  split; [exact Hcap|]. split; [exact Hother|]. exact Hsel'.
Qed.

Lemma mouseleave_restores_region_witness :
  exists p',
    getElementById
      (ctl_svg
         (stateAfter twoRegions twoRegionsMap sampleOpts
            ([Click "B"; MouseEnter "A"] ++ [MouseLeave "A"]))) "KR-A"
    = Some p'
    /\ getProperty "opacity" (el_style p') = ""
    /\ getProperty "filter" (el_style p') = "".
Proof.
  destruct (mouseleave_restores_region twoRegions twoRegionsMap sampleOpts
              [Click "B"; MouseEnter "A"] "A" "KR-A"
              (Element "path" (BBox (Fin 0) (Fin 0) (Fin 100) (Fin 50))
                 (Some "#ccc") ∅ None []))
    as (p & p' & _ & Hp' & Hcap & _ & _).
  - exact twoRegions_fresh.
  - reflexivity.
  - reflexivity.
  - vm_compute. discriminate.
  - exists p'. split; [exact Hp'|].
    split; [apply (Hcap "opacity") | apply (Hcap "filter")];
      simpl; tauto.
Defined.

(** X15: the selected region keeps its look.  Once a click has selected a
    region of the map, the pointer leaving it and a second click on it
    change neither the document nor the selection: a click on the selected
    region does not deselect it. *)
Theorem selected_region_keeps_look `{Host} (svg : svgdoc)
  (codeMap : jsobj string) (opts : renderOpts) (events : list event)
  (name code : string) (p0 : element) :
  freshDocument svg ->
  objGet codeMap name = Some code ->
  getElementById svg code = Some p0 ->
  let c := stateAfter svg codeMap opts (events ++ [Click name]) in
  let left := stateAfter svg codeMap opts (events ++ [Click name; MouseLeave name]) in
  let again := stateAfter svg codeMap opts (events ++ [Click name; Click name]) in
  ctl_selectedPath c = Some code
  /\ ctl_svg left = ctl_svg c /\ ctl_selectedPath left = Some code
  /\ ctl_svg again = ctl_svg c /\ ctl_selectedPath again = Some code.
Proof.
  intros Hfresh Hget Hp0 c left again.
  set (ev := match o_events opts with Some e => e | None => noEventOpts end).
  set (inner := match o_innerCities opts with Some l => l | None => [] end).
  assert (Hsel : ctl_selectedPath c = Some code).
  { unfold c. rewrite stateAfter_snoc.
    destruct (stateAfter_region svg codeMap opts events name code p0
                Hfresh Hget Hp0) as (p & Hp & _ & Hbound).
    destruct (stateAfter_invariants svg codeMap opts events Hfresh)
      as (_ & Hsb & Hbs).
    unfold dispatch. rewrite Hbound.
    apply click_selects; [exact Hsb | exact Hbs | now exists p]. }
  destruct (stateAfter_region svg codeMap opts (events ++ [Click name]) name
              code p0 Hfresh Hget Hp0) as (p & _ & _ & Hbound).
  fold c in Hbound.
  split; [exact Hsel|].
  unfold left, again.
  replace (events ++ [Click name; MouseLeave name])
    with ((events ++ [Click name]) ++ [MouseLeave name])
    by now rewrite <- app_assoc.
  replace (events ++ [Click name; Click name])
    with ((events ++ [Click name]) ++ [Click name])
    by now rewrite <- app_assoc.
  rewrite !(stateAfter_snoc _ _ _ (events ++ [Click name])). fold c.
  unfold dispatch. rewrite Hbound.
  destruct (mouseleave_selected_keeps ev name code c Hsel) as [H1 H2].
  destruct (click_selected_keeps codeMap ev inner
              (snd (bindRegionEvents svg codeMap opts)) name code c Hsel)
    as [H3 H4].
  auto.
Qed.

Lemma selected_region_keeps_look_witness :
  let c := stateAfter twoRegions twoRegionsMap sampleOpts
             ([MouseEnter "A"] ++ [Click "A"]) in
  ctl_selectedPath c = Some "KR-A"
  /\ ctl_svg (stateAfter twoRegions twoRegionsMap sampleOpts
                ([MouseEnter "A"] ++ [Click "A"; Click "A"]))
     = ctl_svg c.
Proof.
  intros c.
  destruct (selected_region_keeps_look twoRegions twoRegionsMap sampleOpts
              [MouseEnter "A"] "A" "KR-A"
              (Element "path" (BBox (Fin 0) (Fin 0) (Fin 100) (Fin 50))
                 (Some "#ccc") ∅ None [])
              twoRegions_fresh eq_refl eq_refl)
    as (H1 & _ & _ & H4 & _).
  split; [exact H1 | exact H4].
Defined.

(** X16: a click moves the selection.  When a region is selected and
    another region of the map is clicked, the clicked region becomes the
    selected one and the six captured properties of the element selected
    before are again what the document had when the listeners were bound:
    the selected look does not stay on a region that lost the selection. *)
Theorem click_moves_selection `{Host} (svg : svgdoc)
  (codeMap : jsobj string) (opts : renderOpts) (events : list event)
  (name code sel : string) (p0 q0 : element) :
  freshDocument svg ->
  objGet codeMap name = Some code ->
  getElementById svg code = Some p0 ->
  getElementById svg sel = Some q0 ->
  let c := stateAfter svg codeMap opts events in
  let c' := stateAfter svg codeMap opts (events ++ [Click name]) in
  ctl_selectedPath c = Some sel -> sel <> code ->
  ctl_selectedPath c' = Some code
  /\ exists q',
       getElementById (ctl_svg c') sel = Some q'
       /\ forall prop, In prop capturedProperties ->
            getProperty prop (el_style q') = getProperty prop (el_style q0).
Proof.
  intros Hfresh Hget Hp0 Hq0 c c' Hsel Hne.
  set (ev := match o_events opts with Some e => e | None => noEventOpts end).
  set (inner := match o_innerCities opts with Some l => l | None => [] end).
  destruct (stateAfter_region svg codeMap opts events name code p0
              Hfresh Hget Hp0) as (p & Hp & _ & Hbound).
  destruct (stateAfter_invariants svg codeMap opts events Hfresh)
    as (_ & Hsb & Hbs).
  destruct (stateAfter_selected svg codeMap opts events sel q0 Hfresh Hq0 Hsel)
    as (q & Hq & Horig).
  fold c in Hp, Hbound, Hsb, Hbs, Hq.
  unfold c'. rewrite stateAfter_snoc. fold c ev inner. unfold dispatch.
  rewrite Hbound.
  split; [apply click_selects; [exact Hsb | exact Hbs | now exists p]|].
  unfold click. rewrite Hp.
  pose proof (deselectRegion_normal codeMap ev c Hsb Hbs) as Hd.
  rewrite Hsel in Hd. rewrite Hsel.
  rewrite bool_decide_eq_true_2 by exact Hne.
  destruct Hd as (q1 & o & Hq1 & Ho & ->).
  assert (q1 = q) by congruence. subst q1.
  assert (o = captureStyles (el_style q0)) by congruence. subst o.
  cbn [ctl_selectedPath setSelected].
  rewrite bool_decide_eq_true_2 by discriminate.
  cbn [stateOf]. rewrite logCall_svg.
  exists (withStyle (restoreStyles (shadowOn ev) (captureStyles (el_style q0))) q).
  split.
  - unfold getElementById in *. cbn [ctl_svg onSvg].
    rewrite raiseInnerCities_elems. simpl.
    rewrite lookup_alter_ne by congruence.
    now rewrite lookup_alter_eq, Hq.
  - destruct (restoreStyles_captured (shadowOn ev) (el_style q0) (el_style q))
      as (Hcap & _ & _). exact Hcap.
Qed.

Lemma click_moves_selection_witness :
  let c' := stateAfter twoRegions twoRegionsMap sampleOpts
              ([Click "A"] ++ [Click "B"]) in
  ctl_selectedPath c' = Some "KR-B"
  /\ exists q',
       getElementById (ctl_svg c') "KR-A" = Some q'
       /\ getProperty "filter" (el_style q') = "".
Proof.
  intros c'.
  destruct (click_moves_selection twoRegions twoRegionsMap sampleOpts
              [Click "A"] "B" "KR-B" "KR-A"
              (Element "path" (BBox (Fin 200) (Fin 0) (Fin 100) (Fin 50))
                 (Some "#ccc") ∅ None [])
              (Element "path" (BBox (Fin 0) (Fin 0) (Fin 100) (Fin 50))
                 (Some "#ccc") ∅ None [])
              twoRegions_fresh eq_refl eq_refl eq_refl)
    as (H1 & q' & Hq' & Hcap).
  - reflexivity.
  - discriminate.
  - split; [exact H1|]. exists q'. split; [exact Hq'|].
    apply (Hcap "filter"). simpl. tauto.
Defined.

(** ** What the listeners leave alone *)

Lemma restyledOnly_refl (s : svgdoc) : restyledOnly s s.
Proof. unfold restyledOnly. tauto. Qed.

Lemma restyledOnly_trans (s1 s2 s3 : svgdoc) :
  restyledOnly s1 s2 -> restyledOnly s2 s3 -> restyledOnly s1 s3.
Proof.
  intros (A1 & A2 & A3 & A4 & A5 & A6 & A7) (B1 & B2 & B3 & B4 & B5 & B6 & B7).
  unfold restyledOnly. rewrite A1, A2, A3, A4, A5, A6.
  repeat (split; [assumption|]). intros code. now rewrite A7.
Qed.

Lemma restyledOnly_updateStyle (code : string) (f : styleDecls -> styleDecls)
  (s1 s2 : svgdoc) :
  restyledOnly s1 s2 -> restyledOnly s1 (updateStyle code f s2).
Proof.
  intros H12. apply (restyledOnly_trans _ _ _ H12).
  unfold restyledOnly, updateStyle. simpl.
  repeat (split; [reflexivity|]). intros k. rewrite lookup_alter.
  destruct (decide (code = k)) as [->|Hne]; [|reflexivity].
  now destruct (svg_elems s2 !! k).
Qed.

Lemma restyledOnly_raiseToTop (code : string) (s1 s2 : svgdoc) :
  restyledOnly s1 s2 -> restyledOnly s1 (raiseToTop code s2).
Proof.
  intros H12. apply (restyledOnly_trans _ _ _ H12).
  unfold restyledOnly, raiseToTop. simpl. tauto.
Qed.

Lemma restyledOnly_raiseInnerCities (codeMap : jsobj string)
  (innerCities : list string) (s1 s2 : svgdoc) :
  restyledOnly s1 s2 ->
  restyledOnly s1 (raiseInnerCities codeMap innerCities s2).
Proof.
  unfold raiseInnerCities. revert s2.
  induction codeMap as [|[name code] rest IH]; intros s2 H12; simpl;
    [exact H12|].
  apply IH. destruct (bool_decide (name ∈ innerCities)); [|exact H12].
  destruct (getElementById s2 code); [|exact H12].
  now apply restyledOnly_raiseToTop.
Qed.

(** The steps of a handler, one after the other. *)
Ltac restyled :=
  cbn [stateOf ctl_svg onSvg setSelected];
  repeat first
    [ apply restyledOnly_updateStyle
    | apply restyledOnly_raiseInnerCities
    | apply restyledOnly_raiseToTop ];
  first [ assumption | apply restyledOnly_refl ].

Section RestyleFacts.
Context (codeMap : jsobj string) (ev : eventOpts) (innerCities : list string)
  (shadowFilterId : option string).

Lemma deselectRegion_restyles (c : controller) :
  restyledOnly (ctl_svg c) (ctl_svg (stateOf (deselectRegion ev c))).
Proof.
  unfold deselectRegion. destruct (ctl_selectedPath c) as [sel|]; [|restyled].
  destruct (getElementById (ctl_svg c) sel) as [[tag box fa st [orig|] ls]|];
    restyled.
Qed.

Lemma dispatch_restyles (e : event) (c : controller) :
  restyledOnly (ctl_svg c)
    (ctl_svg (stateOf (dispatch codeMap ev innerCities shadowFilterId e c))).
Proof.
  unfold dispatch. destruct e as [name|name|name|t].
  - destruct (boundCode codeMap c name) as [code|]; [|restyled].
    unfold mouseenter. destruct (getElementById (ctl_svg c) code); [|restyled].
    cbn [stateOf]. rewrite logCall_svg.
    destruct (bool_decide (name ∈ innerCities)); [restyled|].
    destruct (ctl_selectedPath c); restyled.
  - destruct (boundCode codeMap c name) as [code|]; [|restyled].
    unfold mouseleave.
    destruct (getElementById (ctl_svg c) code) as [p|]; [|restyled].
    destruct (bool_decide (ctl_selectedPath c = Some code)).
    + cbn [stateOf]. rewrite logCall_svg. restyled.
    + destruct (el_original p); [|restyled].
      cbn [stateOf]. rewrite logCall_svg. restyled.
  - destruct (boundCode codeMap c name) as [code|]; [|restyled].
    unfold click. destruct (getElementById (ctl_svg c) code); [|restyled].
    assert (Hd : forall r,
      restyledOnly (ctl_svg c) (ctl_svg (stateOf r)) ->
      restyledOnly (ctl_svg c)
        (ctl_svg
           (stateOf
              match r with
              | TypeError c' => TypeError c'
              | Normal c1 =>
                  Normal
                    (logCall (ev_onRegionClick ev) (OnRegionClick name)
                       (if bool_decide (ctl_selectedPath c1 ≠ Some code)
                        then
                          onSvg
                            (fun svg =>
                               raiseInnerCities codeMap innerCities
                                 (raiseToTop code svg))
                            (selectRegion ev shadowFilterId code name c1)
                        else c1))
              end))).
    { intros [c1|c1] Hr; [|exact Hr].
      cbn [stateOf] in *. rewrite logCall_svg.
      destruct (bool_decide (ctl_selectedPath c1 ≠ Some code)); [|exact Hr].
      unfold selectRegion. restyled. }
    apply Hd. destruct (ctl_selectedPath c) as [sel|]; [|restyled].
    destruct (bool_decide (sel ≠ code)); [|restyled].
    apply deselectRegion_restyles.
  - unfold windowClick. destruct t as [|tagName];
      [apply deselectRegion_restyles|].
    destruct (String.eqb tagName "svg");
      [apply deselectRegion_restyles | restyled].
Qed.

Lemma dispatchAll_restyles (events : list event) (c : controller) :
  restyledOnly (ctl_svg c)
    (ctl_svg (dispatchAll codeMap ev innerCities shadowFilterId events c)).
Proof.
  revert c. induction events as [|e events IH]; intros c; simpl;
    [apply restyledOnly_refl|].
  eapply restyledOnly_trans; [apply dispatch_restyles | apply IH].
Qed.

End RestyleFacts.

(** X17: what the listeners leave alone.  Whatever events arrive after
    binding, the listeners change nothing of the document but the inline
    styles of the elements and their order: the view box, the style of the
    root, the style sheets, the elements without id, the filters and the
    layers are those binding left, no element appears or disappears, and
    every element keeps its tag, its box and its [fill] attribute. *)
Theorem listeners_only_restyle `{Host} (svg : svgdoc) (codeMap : jsobj string)
  (opts : renderOpts) (events : list event) :
  restyledOnly (ctl_svg (fst (bindRegionEvents svg codeMap opts)))
    (ctl_svg (stateAfter svg codeMap opts events)).
Proof. unfold stateAfter, handle. apply dispatchAll_restyles. Qed.

(** ** The order of the elements *)

Lemma innerCityElements_elems (codeMap : jsobj string)
  (innerCities : list string) (s1 s2 : svgdoc) :
  (forall code,
      is_Some (svg_elems s1 !! code) <-> is_Some (svg_elems s2 !! code)) ->
  innerCityElements codeMap innerCities s1
  = innerCityElements codeMap innerCities s2.
Proof.
  intros Hsame. unfold innerCityElements.
  induction codeMap as [|[name code] rest IH]; [reflexivity|].
  cbn [omap list_omap]. rewrite IH. cbn [fst snd]. unfold getElementById.
  destruct (bool_decide (name ∈ innerCities)); [|reflexivity].
  specialize (Hsame code).
  destruct (svg_elems s1 !! code) as [e1|], (svg_elems s2 !! code) as [e2|];
    try reflexivity.
  - destruct (proj1 Hsame) as [x Hx]; [now exists e1 | discriminate].
  - destruct (proj2 Hsame) as [x Hx]; [now exists e2 | discriminate].
Qed.

Lemma innerCityElements_updateStyle (codeMap : jsobj string)
  (innerCities : list string) (code : string)
  (f : styleDecls -> styleDecls) (s : svgdoc) :
  innerCityElements codeMap innerCities (updateStyle code f s)
  = innerCityElements codeMap innerCities s.
Proof.
  apply innerCityElements_elems. intros k. unfold updateStyle. simpl.
  rewrite lookup_alter. destruct (decide (code = k)) as [->|Hne]; [|tauto].
  destruct (svg_elems s !! k); simpl; split; intros [x Hx];
    try discriminate; eauto.
Qed.

(** The loop of the inner cities appends their elements one by one. *)
Lemma raiseInnerCities_stack (codeMap : jsobj string)
  (innerCities : list string) (s : svgdoc) :
  svg_stack (raiseInnerCities codeMap innerCities s)
  = fold_left (fun st k => filter (fun c => c ≠ k) st ++ [k])
      (innerCityElements codeMap innerCities s) (svg_stack s).
Proof.
  unfold raiseInnerCities, innerCityElements. revert s.
  induction codeMap as [|[name code] rest IH]; intros s; [reflexivity|].
  cbn [fold_left omap list_omap fst snd].
  destruct (bool_decide (name ∈ innerCities)); [|apply IH].
  destruct (getElementById s code) eqn:Ep; [|apply IH].
  rewrite IH. reflexivity.
Qed.

Lemma raised_onTop (top stack : list string) :
  onTop top
    (fold_left (fun st k => filter (fun c => c ≠ k) st ++ [k]) top stack).
Proof.
  induction top as [|x top IH] using rev_ind.
  - exists stack, []. simpl. split; [now rewrite app_nil_r|].
    split; [tauto|]. intros k _ Hk. inversion Hk.
  - rewrite fold_left_app. simpl.
    destruct IH as (below & above & -> & Habove & Hbelow).
    exists (filter (fun c => c ≠ x) below),
           (filter (fun c => c ≠ x) above ++ [x]).
    split; [now rewrite filter_app, app_assoc|]. split.
    + intros k. rewrite !elem_of_app, list_elem_of_filter, Habove,
        list_elem_of_singleton.
      destruct (decide (k = x)); tauto.
    + intros k Hk. apply list_elem_of_filter in Hk as [Hne Hk].
      rewrite elem_of_app, list_elem_of_singleton.
      specialize (Hbelow k Hk). tauto.
Qed.

(** X18: the inner cities stay on top.  When the pointer enters a region
    that is not an inner city, and when a click selects a region, the
    elements of the inner cities end as the last children of the document,
    after every other element, so that no raised region covers them; when
    the map has no inner city, the last child is the selected region after
    a hover (the hovered one when none is selected) and the clicked region
    after a click. *)
Theorem inner_cities_stay_on_top `{Host} (svg : svgdoc)
  (codeMap : jsobj string) (opts : renderOpts) (events : list event)
  (name code : string) (p0 : element) :
  freshDocument svg ->
  objGet codeMap name = Some code ->
  getElementById svg code = Some p0 ->
  let innerCities := match o_innerCities opts with Some l => l | None => [] end in
  let c := stateAfter svg codeMap opts events in
  let top := innerCityElements codeMap innerCities (ctl_svg c) in
  let entered := stateAfter svg codeMap opts (events ++ [MouseEnter name]) in
  let clicked := stateAfter svg codeMap opts (events ++ [Click name]) in
  (name ∉ innerCities ->
     onTop top (svg_stack (ctl_svg entered))
     /\ (top = [] ->
         last (svg_stack (ctl_svg entered))
         = Some (default code (ctl_selectedPath c))))
  /\ (ctl_selectedPath c <> Some code ->
     onTop top (svg_stack (ctl_svg clicked))
     /\ (top = [] -> last (svg_stack (ctl_svg clicked)) = Some code)).
Proof.
  intros Hfresh Hget Hp0 innerCities c top entered clicked.
  set (ev := match o_events opts with Some e => e | None => noEventOpts end).
  destruct (stateAfter_region svg codeMap opts events name code p0
              Hfresh Hget Hp0) as (p & Hp & _ & Hbound).
  destruct (stateAfter_invariants svg codeMap opts events Hfresh)
    as (_ & Hsb & Hbs).
  fold c in Hp, Hbound, Hsb, Hbs.
  unfold entered, clicked. rewrite !stateAfter_snoc.
  fold c ev innerCities. unfold dispatch. rewrite Hbound. split.
  - intros Hname. unfold mouseenter. rewrite Hp.
    rewrite bool_decide_eq_false_2 by exact Hname.
    cbn [stateOf]. rewrite logCall_svg. cbn [ctl_svg onSvg].
    change (svg_stack (updateStyle code ?f ?s)) with (svg_stack s).
    rewrite raiseInnerCities_stack.
    assert (Htop : innerCityElements codeMap innerCities
                     match ctl_selectedPath c with
                     | Some sel => raiseToTop sel (raiseToTop code (ctl_svg c))
                     | None => raiseToTop code (ctl_svg c)
                     end = top).
    { now destruct (ctl_selectedPath c). }
    rewrite Htop. split; [apply raised_onTop|].
    intros ->. simpl.
    destruct (ctl_selectedPath c); simpl; apply last_snoc.
  - intros Hsel. unfold click. rewrite Hp.
    pose proof (deselectRegion_normal codeMap ev c Hsb Hbs) as Hd.
    assert (Hc1 : exists c1,
      match ctl_selectedPath c with
      | Some sel =>
          if bool_decide (sel ≠ code) then deselectRegion ev c else Normal c
      | None => Normal c
      end = Normal c1
      /\ ctl_selectedPath c1 <> Some code
      /\ innerCityElements codeMap innerCities (ctl_svg c1) = top).
    { destruct (ctl_selectedPath c) as [sel|] eqn:Esel.
      - rewrite bool_decide_eq_true_2 by congruence.
        destruct Hd as (q & o & _ & _ & ->). eexists. split; [reflexivity|].
        split; [discriminate|]. apply innerCityElements_updateStyle.
      - exists c. split; [reflexivity|]. split; [congruence | reflexivity]. }
    destruct Hc1 as (c1 & -> & Hsel1 & Htop).
    rewrite bool_decide_eq_true_2 by exact Hsel1.
    cbn [stateOf]. rewrite logCall_svg. unfold selectRegion.
    cbn [ctl_svg onSvg setSelected].
    rewrite raiseInnerCities_stack.
    change (innerCityElements codeMap innerCities
              (raiseToTop code ?s))
      with (innerCityElements codeMap innerCities s).
    rewrite innerCityElements_updateStyle, Htop.
    split; [apply raised_onTop|].
    intros ->. simpl. apply last_snoc.
Qed.

Lemma inner_cities_stay_on_top_witness :
  let opts := withInnerCities (Some ["A"]) sampleOpts in
  onTop ["KR-A"]
    (svg_stack
       (ctl_svg
          (stateAfter twoRegions twoRegionsMap opts
             ([Click "A"] ++ [MouseEnter "B"]))))
  /\ last
       (svg_stack
          (ctl_svg
             (stateAfter twoRegions twoRegionsMap sampleOpts
                ([Click "A"] ++ [Click "B"])))) = Some "KR-B".
Proof.
  intros opts. split.
  - refine (proj1 (proj1
              (inner_cities_stay_on_top twoRegions twoRegionsMap opts
                 [Click "A"] "B" "KR-B"
                 (Element "path" (BBox (Fin 200) (Fin 0) (Fin 100) (Fin 50))
                    (Some "#ccc") ∅ None [])
                 twoRegions_fresh eq_refl eq_refl) _)).
    vm_compute. intros Hin. apply list_elem_of_In in Hin.
    destruct Hin as [Heq|[]]. discriminate.
  - refine (proj2 (proj2
              (inner_cities_stay_on_top twoRegions twoRegionsMap sampleOpts
                 [Click "A"] "B" "KR-B"
                 (Element "path" (BBox (Fin 200) (Fin 0) (Fin 100) (Fin 50))
                    (Some "#ccc") ∅ None [])
                 twoRegions_fresh eq_refl eq_refl) _) eq_refl).
    vm_compute. discriminate.
Defined.

(** ** From [render] to the listeners *)

(** Binding changes the style of an element by [pointer-events] alone, and
    sets it on every element the map names. *)
Lemma bindLoop_style (codeMap : jsobj string) (svg : svgdoc) (code : string)
  (p : element) :
  svg_elems svg !! code = Some p ->
  exists p',
    svg_elems (bindLoop svg codeMap) !! code = Some p'
    /\ fixedOf p' = fixedOf p
    /\ (el_style p' = el_style p
        \/ el_style p' = setProperty "pointer-events" "auto" false (el_style p))
    /\ (In code (map snd codeMap) ->
        el_style p' = setProperty "pointer-events" "auto" false (el_style p)).
Proof.
  revert svg p. induction codeMap as [|[n k] rest IH]; intros svg p Hp; simpl.
  - exists p. split; [exact Hp|]. split; [reflexivity|]. split; [now left|].
    intros [].
  - destruct (getElementById svg k) as [q|] eqn:Eq.
    + destruct (decide (k = code)) as [->|Hne].
      * destruct (IH (setElems (alter (bindElement n) code (svg_elems svg)) svg)
                    (bindElement n p)) as (p' & Hp' & Hfix & Hst & _).
        { simpl. now rewrite lookup_alter_eq, Hp. }
        assert (Hstyle : el_style p'
                         = setProperty "pointer-events" "auto" false (el_style p)).
        { destruct Hst as [-> | ->]; [reflexivity|]. simpl.
          unfold setProperty. simpl. apply insert_insert_eq. }
        exists p'. split; [exact Hp'|]. split; [exact Hfix|].
        split; [now right|]. intros _. exact Hstyle.
      * destruct (IH (setElems (alter (bindElement n) k (svg_elems svg)) svg) p)
          as (p' & Hp' & Hfix & Hst & Hin).
        { simpl. now rewrite lookup_alter_ne. }
        exists p'. split; [exact Hp'|]. split; [exact Hfix|].
        split; [exact Hst|]. intros [Heq|Hc]; [congruence | now apply Hin].
    + destruct (IH svg p Hp) as (p' & Hp' & Hfix & Hst & Hin).
      exists p'. split; [exact Hp'|]. split; [exact Hfix|].
      split; [exact Hst|]. intros [Heq|Hc]; [|now apply Hin].
      subst k. unfold getElementById in Eq. congruence.
Qed.

(** The document a resolved [render] leaves in the mount element has the
    elements of the bound document. *)
Lemma render_resolved_elems `{Host} (codeMap : jsobj string)
  (mount : mountArg) (opts : renderOpts) (el0 : mountEl) (loaded : svgdoc) :
  ensureMount mount = Some el0 ->
  loadSVG (o_svgUrl opts) = Some loaded ->
  checkMode opts = None ->
  let colorForRate := makeColorForRate (o_rates opts) (o_colors opts) in
  let painted :=
    paintRegions (mountSvg opts loaded) codeMap (getRate (o_data opts))
      colorForRate in
  rd_outcome (render codeMap mount opts) = Resolved
  /\ exists svg' svg1,
       mountedSvg (render codeMap mount opts) = Some svg'
       /\ svg_elems svg' = svg_elems (bindLoop svg1 codeMap)
       /\ svg_elems svg1 = svg_elems painted.
Proof.
  intros Hmount Hload Hcheck colorForRate painted.
  unfold render, mountedSvg. rewrite Hmount, Hload, Hcheck.
  split; [reflexivity|]. cbn [rd_mount]. unfold drawAll.
  fold colorForRate. fold painted.
  set (labelled := placeRegionLabels painted codeMap (o_labels opts)
                     (o_pieChartData opts)).
  destruct (bindRegionEvents_elems labelled codeMap opts)
    as (svg1 & Hsvg & Helems & _).
  destruct (modeIs opts "rate+bars"); [|destruct (modeIs opts "count+callouts")];
    eexists; exists svg1; (split; [reflexivity|]); rewrite <- Hsvg;
    (split; [reflexivity | exact Helems]).
Qed.

(** X19: from [render] to the listeners.  When the mount element is found,
    the document loads, the options pass the checks and the ids of the map
    are distinct, [render] resolves, and in the document it leaves in the
    mount element every region of the map whose element exists has: the
    colour of its rate written as its fill, no [fill] attribute,
    [pointer-events] set to [auto], the listeners of the region, and a
    snapshot of its styles. *)
Theorem render_paints_then_binds `{Host} (codeMap : jsobj string)
  (mount : mountArg) (opts : renderOpts) (el0 : mountEl) (loaded : svgdoc) :
  ensureMount mount = Some el0 ->
  loadSVG (o_svgUrl opts) = Some loaded ->
  checkMode opts = None ->
  NoDup (map snd codeMap) ->
  let colorOf name :=
    makeColorForRate (o_rates opts) (o_colors opts)
      (getRate (o_data opts) name) in
  rd_outcome (render codeMap mount opts) = Resolved
  /\ exists svg',
       mountedSvg (render codeMap mount opts) = Some svg'
       /\ forall name code p0,
            In (name, code) codeMap ->
            getElementById loaded code = Some p0 ->
            exists p,
              getElementById svg' code = Some p
              /\ getProperty "fill" (el_style p) = colorOf name
              /\ el_fillAttr p = None
              /\ getProperty "pointer-events" (el_style p) = "auto"
              /\ name ∈ el_listeners p
              /\ is_Some (el_original p).
Proof.
  intros Hmount Hload Hcheck Hnd colorOf.
  destruct (render_resolved_elems codeMap mount opts el0 loaded
              Hmount Hload Hcheck) as (Hres & svg' & svg1 & Hsvg' & He' & He1).
  split; [exact Hres|]. exists svg'. split; [exact Hsvg'|].
  intros name code p0 Hin Hp0.
  assert (Hmounted : svg_elems (mountSvg opts loaded) !! code
                     = Some (removeFillAttr p0)).
  { unfold mountSvg, clearSvgFillStyles. simpl. rewrite lookup_fmap.
    unfold getElementById in Hp0. now rewrite Hp0. }
  pose proof (paintRegions_painted (mountSvg opts loaded) codeMap
                (getRate (o_data opts))
                (makeColorForRate (o_rates opts) (o_colors opts))
                name code _ Hnd Hin Hmounted) as Hpainted.
  rewrite <- He1 in Hpainted.
  destruct (bindLoop_elem codeMap svg1 code _ Hpainted)
    as (p & Hp & _ & _ & _ & Hnames).
  destruct (bindLoop_style codeMap svg1 code _ Hpainted)
    as (p1 & Hp1 & Hfix & _ & Hstyle).
  assert (p1 = p) by congruence. subst p1.
  destruct (Hnames name Hin) as [Hname Horig].
  assert (Hcode : In code (map snd codeMap)).
  { apply in_map_iff. now exists (name, code). }
  specialize (Hstyle Hcode). cbn [withStyle el_style removeFillAttr] in *.
  exists p. unfold getElementById. rewrite He'. split; [exact Hp|].
  split.
  { rewrite Hstyle, !getProperty_setProperty.
    destruct (decide ("pointer-events" = "fill")) as [Heq|_]; [discriminate Heq|].
    destruct (decide ("fill" = "fill")) as [_|Hne]; [reflexivity | now elim Hne]. }
  split; [injection Hfix as _ _ Hfa; exact Hfa|].
  split.
  { rewrite Hstyle, getProperty_setProperty.
    destruct (decide ("pointer-events" = "pointer-events")) as [_|Hne];
      [reflexivity | now elim Hne]. }
  split; [exact Hname|]. rewrite Horig. now eexists.
Qed.

Lemma render_paints_then_binds_witness :
  exists svg' p,
    mountedSvg (render twoRegionsMap (BySelector "#mount") sampleOpts) = Some svg'
    /\ getElementById svg' "KR-A" = Some p
    /\ getProperty "fill" (el_style p)
       = makeColorForRate None None (VNum (Fin 0.87))
    /\ el_fillAttr p = None.
Proof.
  destruct (@render_paints_then_binds sampleHost twoRegionsMap
              (BySelector "#mount") sampleOpts (MountEl [PriorNode "<p>loading</p>"] ∅) twoRegions
              eq_refl eq_refl eq_refl
              ltac:(repeat constructor; simpl; intros Hin;
                    inversion Hin; subst;
                    repeat match goal with
                      | Hx : _ ∈ _ |- _ => inversion Hx; clear Hx; subst
                      end))
    as (_ & svg' & Hsvg' & Hall).
  destruct (Hall "A" "KR-A"
              (Element "path" (BBox (Fin 0) (Fin 0) (Fin 100) (Fin 50))
                 (Some "#ccc") ∅ None [])
              (or_introl eq_refl) eq_refl)
    as (p & Hp & Hfill & Hfa & _).
  exists svg', p. split; [exact Hsvg'|]. split; [exact Hp|].
  split; [exact Hfill | exact Hfa].
Defined.

(** ** The shadow filter *)

Lemma bindLoop_filters (codeMap : jsobj string) (svg : svgdoc) :
  svg_filters (bindLoop svg codeMap) = svg_filters svg.
Proof.
  revert svg. induction codeMap as [|[n k] rest IH]; intros svg; simpl;
    [reflexivity|].
  rewrite IH. now destruct (getElementById svg k).
Qed.

Lemma listeners_filters `{Host} (svg : svgdoc) (codeMap : jsobj string)
  (opts : renderOpts) (events : list event) :
  svg_filters (ctl_svg (stateAfter svg codeMap opts events))
  = svg_filters (ctl_svg (fst (bindRegionEvents svg codeMap opts))).
Proof.
  unfold stateAfter, handle.
  destruct (dispatchAll_restyles codeMap
              (match o_events opts with Some e => e | None => noEventOpts end)
              (match o_innerCities opts with Some l => l | None => [] end)
              (snd (bindRegionEvents svg codeMap opts)) events
              (fst (bindRegionEvents svg codeMap opts)))
    as (_ & _ & _ & _ & Hf & _).
  now rewrite Hf.
Qed.

(** The element the pointer enters takes the hover look. *)
Lemma mouseenter_look (codeMap : jsobj string) (ev : eventOpts)
  (innerCities : list string) (shadowFilterId : option string)
  (name code : string) (c : controller) (p : element) :
  getElementById (ctl_svg c) code = Some p ->
  getElementById
    (ctl_svg
       (stateOf (mouseenter codeMap ev innerCities shadowFilterId name code c)))
    code
  = Some (withStyle (hoverLook ev shadowFilterId name) p).
Proof.
  intros Hp. unfold mouseenter. rewrite Hp. cbn [stateOf].
  rewrite logCall_svg. unfold getElementById in *. cbn [ctl_svg onSvg].
  unfold updateStyle. cbn [svg_elems setElems]. rewrite lookup_alter_eq.
  destruct (bool_decide (name ∈ innerCities)); cbn [ctl_svg onSvg].
  - now rewrite Hp.
  - rewrite raiseInnerCities_elems.
    destruct (ctl_selectedPath c); simpl; now rewrite Hp.
Qed.

(** X20: the shadow filter.  With [events.shadow] given, binding adds one
    filter to the document, named [drop-shadow-] and the random suffix, and
    no event adds or removes a filter afterwards; the element the pointer
    enters refers to exactly that filter in its [filter] property, whatever
    the hover style says.  Without [events.shadow] the filters of the
    document stay those of the file. *)
Theorem hover_shadow_filter_exists `{Host} (svg : svgdoc)
  (codeMap : jsobj string) (opts : renderOpts) (events : list event)
  (name code : string) (p0 : element) :
  freshDocument svg ->
  objGet codeMap name = Some code ->
  getElementById svg code = Some p0 ->
  let ev := match o_events opts with Some e => e | None => noEventOpts end in
  let c' := stateAfter svg codeMap opts (events ++ [MouseEnter name]) in
  (is_Some (ev_shadow ev) ->
     exists p f,
       svg_filters (ctl_svg c') = svg_filters svg ++ [f]
       /\ sf_id f = "drop-shadow-" +:+ randomSuffix
       /\ getElementById (ctl_svg c') code = Some p
       /\ getProperty "filter" (el_style p) = "url(#" +:+ sf_id f +:+ ")")
  /\ (ev_shadow ev = None -> svg_filters (ctl_svg c') = svg_filters svg).
Proof.
  intros Hfresh Hget Hp0 ev c'.
  pose proof (listeners_filters svg codeMap opts (events ++ [MouseEnter name]))
    as Hfilters.
  fold c' in Hfilters.
  destruct (stateAfter_region svg codeMap opts events name code p0
              Hfresh Hget Hp0) as (p & Hp & _ & Hbound).
  assert (Hc' : c' = stateOf
                       (mouseenter codeMap ev
                          (match o_innerCities opts with
                           | Some l => l
                           | None => []
                           end)
                          (snd (bindRegionEvents svg codeMap opts)) name code
                          (stateAfter svg codeMap opts events))).
  { unfold c'. rewrite stateAfter_snoc. unfold dispatch. now rewrite Hbound. }
  split.
  - intros [so Hso]. rewrite Hfilters.
    unfold bindRegionEvents in *. fold ev in Hc' |- *. rewrite Hso in *.
    cbn [fst snd createShadowFilter ctl_svg] in *.
    rewrite bindLoop_filters. cbn [svg_filters appendFilter].
    eexists. eexists. split; [reflexivity|]. cbn [sf_id].
    split; [reflexivity|].
    rewrite Hc'. split; [apply mouseenter_look; exact Hp|].
    cbn [withStyle el_style]. unfold hoverLook, shadowOn. rewrite Hso.
    rewrite bool_decide_eq_true_2 by now exists so.
    change (String.eqb ("drop-shadow-" +:+ randomSuffix) "") with false.
    cbn [negb andb]. rewrite getProperty_setProperty.
    destruct (decide ("filter" = "filter")) as [_|Hne];
      [reflexivity | now elim Hne].
  - intros Hno. rewrite Hfilters. unfold bindRegionEvents. fold ev.
    rewrite Hno. cbn [fst ctl_svg]. apply bindLoop_filters.
Qed.

Lemma hover_shadow_filter_exists_witness :
  exists p,
    getElementById
      (ctl_svg
         (stateAfter twoRegions twoRegionsMap sampleOpts
            ([Click "B"] ++ [MouseEnter "A"]))) "KR-A" = Some p
    /\ getProperty "filter" (el_style p) = "url(#drop-shadow-k3x9q2m1a)".
Proof.
  destruct (@hover_shadow_filter_exists sampleHost twoRegions twoRegionsMap
              sampleOpts [Click "B"] "A" "KR-A"
              (Element "path" (BBox (Fin 0) (Fin 0) (Fin 100) (Fin 50))
                 (Some "#ccc") ∅ None [])
              twoRegions_fresh eq_refl eq_refl) as [Hshadow _].
  destruct Hshadow as (p & f & _ & Hid & Hp & Hfilter).
  - now exists defaultShadow.
  - exists p. split; [exact Hp|]. rewrite Hfilter, Hid. reflexivity.
Defined.

(** ** What each mode adds *)

Lemma bindLoop_frame (codeMap : jsobj string) (svg : svgdoc) :
  svg_viewBox (bindLoop svg codeMap) = svg_viewBox svg
  /\ svg_layers (bindLoop svg codeMap) = svg_layers svg.
Proof.
  revert svg. induction codeMap as [|[n k] rest IH]; intros svg; simpl;
    [split; reflexivity|].
  destruct (IH match getElementById svg k with
               | Some _ => setElems (alter (bindElement n) k (svg_elems svg)) svg
               | None => svg
               end) as [-> ->].
  now destruct (getElementById svg k).
Qed.

Lemma bindRegionEvents_frame `{Host} (svg : svgdoc) (codeMap : jsobj string)
  (opts : renderOpts) :
  svg_viewBox (ctl_svg (fst (bindRegionEvents svg codeMap opts)))
  = svg_viewBox svg
  /\ svg_layers (ctl_svg (fst (bindRegionEvents svg codeMap opts)))
     = svg_layers svg.
Proof.
  unfold bindRegionEvents.
  destruct (ev_shadow
              (match o_events opts with Some e => e | None => noEventOpts end))
    as [so|]; cbn [fst ctl_svg createShadowFilter].
  - destruct (bindLoop_frame codeMap
                (fst (createShadowFilter svg so))) as [H1 H2].
    cbn [fst createShadowFilter] in H1, H2. rewrite H1, H2.
    split; reflexivity.
  - destruct (bindLoop_frame codeMap svg) as [H1 H2]. rewrite H1, H2.
    split; reflexivity.
Qed.

Lemma modeIs_true `{Host} (opts : renderOpts) (m : string) :
  modeIs opts m = true <-> o_mode opts = Some m.
Proof.
  unfold modeIs. destruct (o_mode opts) as [mode|]; [|split; discriminate].
  destruct (String.eqb_spec mode m) as [->|Hne]; split; try tauto;
    try discriminate. intros [= ->]. now elim Hne.
Qed.

(** X21: what each mode adds.  A resolved [render] leaves the document
    painted, labelled and bound as the first child of the mount element;
    its layers are those of the file and the label layer.  Mode [rate+bars]
    adds the bar list as a second child and leaves the view box of the file;
    mode [count+callouts] adds the callout group as a further layer of the
    document; any other mode is accepted as well and adds nothing: the
    mount element holds the map alone, with the view box of the file. *)
Theorem render_mode_decides_extras `{Host} (codeMap : jsobj string)
  (mount : mountArg) (opts : renderOpts) (el0 : mountEl) (loaded : svgdoc) :
  ensureMount mount = Some el0 ->
  loadSVG (o_svgUrl opts) = Some loaded ->
  checkMode opts = None ->
  let r := render codeMap mount opts in
  let colorForRate := makeColorForRate (o_rates opts) (o_colors opts) in
  rd_outcome r = Resolved
  /\ exists svg' labels,
       mountedSvg r = Some svg'
       /\ (o_mode opts = Some "rate+bars" ->
           m_children <$> rd_mount r
           = Some [SvgNode svg';
                   BarListNode
                     (buildBars (o_data opts) colorForRate (o_bar opts))]
           /\ svg_viewBox svg' = svg_viewBox loaded
           /\ svg_layers svg' = svg_layers loaded ++ [LabelLayer labels])
       /\ (o_mode opts = Some "count+callouts" ->
           exists callouts,
             m_children <$> rd_mount r = Some [SvgNode svg']
             /\ svg_layers svg'
                = svg_layers loaded ++ [LabelLayer labels; CalloutGroup callouts])
       /\ (o_mode opts <> Some "rate+bars" ->
           o_mode opts <> Some "count+callouts" ->
           m_children <$> rd_mount r = Some [SvgNode svg']
           /\ svg_viewBox svg' = svg_viewBox loaded
           /\ svg_layers svg' = svg_layers loaded ++ [LabelLayer labels]).
Proof.
  intros Hmount Hload Hcheck r colorForRate.
  unfold r, render, mountedSvg. rewrite Hmount, Hload, Hcheck.
  split; [reflexivity|]. cbn [rd_mount]. unfold drawAll. fold colorForRate.
  set (painted := paintRegions (mountSvg opts loaded) codeMap
                    (getRate (o_data opts)) colorForRate).
  set (labelled := placeRegionLabels painted codeMap (o_labels opts)
                     (o_pieChartData opts)).
  set (bound := ctl_svg (fst (bindRegionEvents labelled codeMap opts))).
  destruct (bindRegionEvents_frame labelled codeMap opts) as [Hvb Hly].
  fold bound in Hvb, Hly.
  destruct (paintRegions_frame (mountSvg opts loaded) codeMap
              (getRate (o_data opts)) colorForRate)
    as (Pvb & _ & Ply & _).
  fold painted in Pvb, Ply.
  unfold labelled, placeRegionLabels in Hvb, Hly.
  cbn [svg_viewBox svg_layers appendLayer] in Hvb, Hly.
  rewrite Pvb in Hvb. rewrite Ply in Hly.
  change (svg_viewBox (mountSvg opts loaded)) with (svg_viewBox loaded) in Hvb.
  change (svg_layers (mountSvg opts loaded)) with (svg_layers loaded) in Hly.
  pose proof (modeIs_true opts "rate+bars") as Hbars.
  pose proof (modeIs_true opts "count+callouts") as Hcallouts.
  destruct (modeIs opts "rate+bars") eqn:E1;
    [|destruct (modeIs opts "count+callouts") eqn:E2].
  - exists bound. eexists. split; [reflexivity|].
    split; [intros _; split; [reflexivity|split; [exact Hvb | exact Hly]]|].
    split.
    + intros Hm. rewrite (proj1 Hbars eq_refl) in Hm. discriminate.
    + intros Hm. elim Hm. now apply Hbars.
  - eexists. eexists. split; [reflexivity|].
    split; [intros Hm; apply Hbars in Hm; discriminate|].
    split.
    + intros _. eexists. split; [reflexivity|].
      unfold buildCallouts. cbn [svg_layers appendLayer expandViewBox setViewBox].
      rewrite Hly, <- app_assoc. reflexivity.
    + intros _ Hm. elim Hm. now apply Hcallouts.
  - exists bound. eexists. split; [reflexivity|].
    split; [intros Hm; apply Hbars in Hm; discriminate|].
    split; [intros Hm; apply Hcallouts in Hm; discriminate|].
    intros _ _. split; [reflexivity|split; [exact Hvb | exact Hly]].
Qed.

Lemma render_mode_decides_extras_witness :
  exists svg',
    m_children
      <$> rd_mount
            (render twoRegionsMap (BySelector "#mount")
               (withMode (Some "map") None None sampleOpts))
    = Some [SvgNode svg']
    /\ svg_viewBox svg' = None.
Proof.
  destruct (@render_mode_decides_extras sampleHost twoRegionsMap
              (BySelector "#mount")
              (withMode (Some "map") None None sampleOpts)
              (MountEl [PriorNode "<p>loading</p>"] ∅) twoRegions
              eq_refl eq_refl eq_refl)
    as (_ & svg' & labels & _ & _ & _ & Hother).
  destruct Hother as (Hchildren & Hvb & _); [discriminate | discriminate |].
  exists svg'. split; [exact Hchildren | exact Hvb].
Defined.
